(** * proxy_network: the proxy engine's filter, parser, reader and handler

    A shallow embedding of [src/filter_manager.py], [src/http_parser.py] and
    the request path of [src/proxy_server.py], with the properties the
    specification states about them, and then further properties of the
    same code and of the accept loop of [start].

    Character model.  A Python [str] or [bytes] value is a [string]: a
    sequence of 8-bit characters.  For [bytes] a character is a byte; for
    [str] it is a code point U+0000..U+00FF, and the [str] methods below
    ([lower], [strip], [int], the regular-expression classes) and the
    library modules [ipaddress] and [urllib.parse] are the CPython 3.11
    ones on that range.  Text with a character above U+00FF is outside the
    model; the properties below are about rules files, hosts and requests
    within it. *)

From Stdlib Require Import ZArith NArith Ascii String List Bool Lia.
From stdpp Require Import gmap strings.

Local Open Scope Z_scope.

(** ** Python's string primitives *)

Module Py.

Definition code (c : ascii) : N := N_of_ascii c.

Definition between (lo hi : N) (c : ascii) : bool :=
  ((lo <=? code c) && (code c <=? hi))%N.

Definition chr (n : N) : ascii := ascii_of_N n.

Definition TAB : ascii := chr 9.
Definition LF : ascii := chr 10.
Definition CR : ascii := chr 13.
Definition CRLF : string := String CR (String LF "").
Definition CRLFCRLF : string := CRLF +:+ CRLF.

(** [str.isspace] on one character: TAB LF VT FF CR, FS GS RS US, space,
    NEL and NBSP. *)
Definition isspace (c : ascii) : bool :=
  between 9 13 c || between 28 32 c || (code c =? 133)%N || (code c =? 160)%N.

Definition is_upper_az (c : ascii) : bool := between 65 90 c.
Definition is_lower_az (c : ascii) : bool := between 97 122 c.
Definition is_letter (c : ascii) : bool := is_upper_az c || is_lower_az c.
Definition is_digit (c : ascii) : bool := between 48 57 c.

(** [str.lower] on one character: A-Z and the Latin-1 capitals
    U+00C0..U+00DE (the multiplication sign U+00D7 apart). *)
Definition lower_char (c : ascii) : ascii :=
  if is_upper_az c || (between 192 222 c && negb (code c =? 215)%N)
  then chr (code c + 32) else c.

(** [str.upper] on an ASCII letter; the code only upper-cases what
    [[A-Z]+] matched. *)
Definition upper_char (c : ascii) : ascii :=
  if is_lower_az c then chr (code c - 32) else c.

Fixpoint map_string (f : ascii -> ascii) (s : string) : string :=
  match s with
  | EmptyString => EmptyString
  | String c s' => String (f c) (map_string f s')
  end.

Definition lower : string -> string := map_string lower_char.
Definition upper : string -> string := map_string upper_char.

Fixpoint forallb_string (p : ascii -> bool) (s : string) : bool :=
  match s with
  | EmptyString => true
  | String c s' => p c && forallb_string p s'
  end.

Fixpoint existsb_string (p : ascii -> bool) (s : string) : bool :=
  match s with
  | EmptyString => false
  | String c s' => p c || existsb_string p s'
  end.

(** [c in s] for a one-character [c]. *)
Definition has_char (c : ascii) (s : string) : bool :=
  existsb_string (Ascii.eqb c) s.

Definition is_empty (s : string) : bool :=
  match s with EmptyString => true | _ => false end.

(** [s.lstrip()], [s.rstrip()], [s.strip()] over a character class. *)
Fixpoint lstrip_by (p : ascii -> bool) (s : string) : string :=
  match s with
  | EmptyString => EmptyString
  | String c s' => if p c then lstrip_by p s' else s
  end.

Fixpoint rstrip_by (p : ascii -> bool) (s : string) : string :=
  match s with
  | EmptyString => EmptyString
  | String c s' =>
      match rstrip_by p s' with
      | EmptyString => if p c then EmptyString else String c EmptyString
      | r => String c r
      end
  end.

Definition strip_by (p : ascii -> bool) (s : string) : string :=
  rstrip_by p (lstrip_by p s).

Definition strip : string -> string := strip_by isspace.

(** [s.startswith(p)] *)
Fixpoint startswith (s p : string) : bool :=
  match p, s with
  | EmptyString, _ => true
  | String a p', String b s' => Ascii.eqb a b && startswith s' p'
  | String _ _, EmptyString => false
  end.

(** [s.endswith(x)]: some tail of [s] is [x]. *)
Fixpoint endswith (s x : string) : bool :=
  String.eqb s x ||
  match s with
  | EmptyString => false
  | String _ s' => endswith s' x
  end.

(** [x in s] for strings. *)
Fixpoint contains (s x : string) : bool :=
  startswith s x ||
  match s with
  | EmptyString => false
  | String _ s' => contains s' x
  end.

(** [s.find(x)], with [None] for Python's -1. *)
Fixpoint find (s x : string) : option nat :=
  if startswith s x then Some O
  else match s with
       | EmptyString => None
       | String _ s' => S <$> find s' x
       end.

(** [s[:n]] and [s[n:]] for [0 <= n]. *)
Fixpoint take (n : nat) (s : string) : string :=
  match n, s with
  | S k, String c s' => String c (take k s')
  | _, _ => EmptyString
  end.

Fixpoint drop (n : nat) (s : string) : string :=
  match n, s with
  | S k, String _ s' => drop k s'
  | _, _ => s
  end.

Definition cons_head (c : ascii) (l : list string) : list string :=
  match l with
  | [] => [String c EmptyString]
  | h :: t => String c h :: t
  end.

(** [s.split(sep)] for a non-empty [sep]: left to right, occurrences do
    not overlap ([skip] counts the characters of a separator still to be
    passed over). *)
Fixpoint split_go (sep : string) (skip : nat) (s : string) : list string :=
  match s with
  | EmptyString => [EmptyString]
  | String c s' =>
      match skip with
      | S k => split_go sep k s'
      | O =>
          if startswith s sep
          then EmptyString :: split_go sep (String.length sep - 1) s'
          else cons_head c (split_go sep O s')
      end
  end.

Definition split (s sep : string) : list string := split_go sep O s.

(** [s.partition(c)] for a one-character separator: the text before the
    first [c], whether [c] was found, the text after it. *)
Fixpoint partition (c : ascii) (s : string) : string * bool * string :=
  match s with
  | EmptyString => (EmptyString, false, EmptyString)
  | String a s' =>
      if Ascii.eqb a c then (EmptyString, true, s')
      else let '(x, found, y) := partition c s' in (String a x, found, y)
  end.

(** [s.rpartition(c)]: split at the last [c]; all of [s] is in the third
    component when there is none. *)
Fixpoint rpartition (c : ascii) (s : string) : string * bool * string :=
  match s with
  | EmptyString => (EmptyString, false, EmptyString)
  | String a s' =>
      let '(x, found, y) := rpartition c s' in
      if found then (String a x, true, y)
      else if Ascii.eqb a c then (EmptyString, true, s')
      else (EmptyString, false, String a y)
  end.

(** [sep.join(l)] *)
Fixpoint join (sep : string) (l : list string) : string :=
  match l with
  | [] => EmptyString
  | [x] => x
  | x :: t => x +:+ sep +:+ join sep t
  end.

(** [s.replace(c, "")] for a character class. *)
Fixpoint remove_chars (p : ascii -> bool) (s : string) : string :=
  match s with
  | EmptyString => EmptyString
  | String c s' => if p c then remove_chars p s' else String c (remove_chars p s')
  end.

(** *** [int(s)] on a [str] *)

Definition digit_value (c : ascii) : Z := Z.of_N (code c) - 48.

(** The characters [int] skips around the literal: C's [isspace] for an
    ASCII one, and the two Unicode spaces of the range. *)
Definition int_space (c : ascii) : bool :=
  between 9 13 c || (code c =? 32)%N || (code c =? 133)%N || (code c =? 160)%N.

(** Digits with single underscores between them: value and digit count.
    [prev_us] tells that the previous character was an underscore. *)
Fixpoint int_digits (s : string) (prev_us : bool) (acc : Z) (n : nat)
  : option (Z * nat) :=
  match s with
  | EmptyString => if prev_us then None else Some (acc, n)
  | String c s' =>
      if is_digit c then int_digits s' false (10 * acc + digit_value c) (S n)
      else if (code c =? 95)%N
           then (if prev_us then None else int_digits s' true acc n)
      else None
  end.

Definition int_max_str_digits : nat := 4300.

(** [int(s)]: [None] stands for [ValueError]. *)
Definition int (s : string) : option Z :=
  let body := strip_by int_space s in
  let '(neg, rest) :=
    match body with
    | String c r =>
        if (code c =? 45)%N then (true, r)
        else if (code c =? 43)%N then (false, r)
        else (false, body)
    | EmptyString => (false, body)
    end in
  match rest with
  | EmptyString => None
  | String c _ =>
      if is_digit c then
        match int_digits rest false 0 O with
        | Some (v, n) =>
            if (int_max_str_digits <? n)%nat then None
            else Some (if neg then - v else v)
        | None => None
        end
      else None
  end.

(** ['%x' % n] *)
Definition hex_digit (d : N) : ascii :=
  if (d <? 10)%N then chr (48 + d) else chr (87 + d).

Fixpoint hex_pos (fuel : nat) (n : N) (acc : string) : string :=
  match fuel with
  | O => acc
  | S k =>
      let acc' := String (hex_digit (n mod 16)) acc in
      if (n / 16 =? 0)%N then acc' else hex_pos k (n / 16) acc'
  end.

Definition hex (n : N) : string := hex_pos (S (N.to_nat (N.log2 n))) n EmptyString.

End Py.

(** ** The [ipaddress] module of the Python library, as [filter_manager.py]
    uses it: [ipaddress.ip_address(text)] and [str] of the result. *)

Module ipaddress.
Import Py.

Inductive address : Type :=
| IPv4Address (ip : N)
| IPv6Address (ip : N) (scope_id : option string).

Fixpoint decimal_value (s : string) (acc : N) : N :=
  match s with
  | EmptyString => acc
  | String c s' => decimal_value s' (10 * acc + (code c - 48))%N
  end.

Fixpoint hex_value (s : string) (acc : N) : N :=
  match s with
  | EmptyString => acc
  | String c s' =>
      let d := if is_digit c then (code c - 48)%N
               else if between 97 102 c then (code c - 87)%N
               else (code c - 55)%N in
      hex_value s' (16 * acc + d)%N
  end.

Fixpoint mapM {A B : Type} (f : A -> option B) (l : list A) : option (list B) :=
  match l with
  | [] => Some []
  | x :: t =>
      match f x with
      | Some y => cons y <$> mapM f t
      | None => None
      end
  end.

(** [_BaseV4._parse_octet] *)
Definition parse_octet (octet_str : string) : option N :=
  if is_empty octet_str then None
  else if negb (forallb_string is_digit octet_str) then None
  else if (3 <? String.length octet_str)%nat then None
  else if negb (String.eqb octet_str "0") && startswith octet_str "0" then None
  else
    let octet_int := decimal_value octet_str 0 in
    if (255 <? octet_int)%N then None else Some octet_int.

Definition from_bytes_big (l : list N) : N :=
  fold_left (fun acc b => N.lor (N.shiftl acc 8) b) l 0%N.

(** [_BaseV4._ip_int_from_string] *)
Definition v4_int_from_string (ip_str : string) : option N :=
  if is_empty ip_str then None
  else
    let octets := split ip_str "." in
    if negb (length octets =? 4)%nat then None
    else from_bytes_big <$> mapM parse_octet octets.

(** [IPv4Address(text)]: the address as an integer. *)
Definition v4_of_string (addr_str : string) : option N :=
  if has_char "/" addr_str then None else v4_int_from_string addr_str.

Definition is_hex_digit (c : ascii) : bool :=
  is_digit c || between 97 102 c || between 65 70 c.

(** [_BaseV6._parse_hextet]; [int("", 16)] raises for the empty hextet. *)
Definition parse_hextet (hextet_str : string) : option N :=
  if negb (forallb_string is_hex_digit hextet_str) then None
  else if (4 <? String.length hextet_str)%nat then None
  else if is_empty hextet_str then None
  else Some (hex_value hextet_str 0).

(** [_BaseV6._split_scope_id] *)
Definition split_scope_id (ip_str : string) : option (string * option string) :=
  let '(addr, sep, scope_id) := partition "%" ip_str in
  if negb sep then Some (addr, None)
  else if is_empty scope_id || has_char "%" scope_id then None
  else Some (addr, Some scope_id).

Definition HEXTET_COUNT : nat := 8.

(** The search for the one ["::"]: the index of the empty part among
    [parts[1 .. len-2]], an error when there are two. *)
Fixpoint find_skip (i : nat) (inner : list string) (skip_index : option nat)
  : option (option nat) :=
  match inner with
  | [] => Some skip_index
  | p :: rest =>
      if is_empty p then
        match skip_index with
        | Some _ => None
        | None => find_skip (S i) rest (Some i)
        end
      else find_skip (S i) rest skip_index
  end.

Definition shift_in (hextets : list N) (ip_int : N) : N :=
  fold_left (fun acc h => N.lor (N.shiftl acc 16) h) hextets ip_int.

Definition first_part (parts : list string) : string := hd EmptyString parts.
Definition last_part (parts : list string) : string := List.last parts EmptyString.

(** [_BaseV6._ip_int_from_string] *)
Definition v6_int_from_string (ip_str : string) : option N :=
  if is_empty ip_str then None
  else
    let parts := split ip_str ":" in
    if (length parts <? 3)%nat then None
    else
      (* an IPv4-style suffix becomes two hextets *)
      let parts' :=
        if has_char "." (last_part parts) then
          match v4_of_string (last_part parts) with
          | Some ipv4_int =>
              Some (removelast parts ++
                    [hex (N.land (N.shiftr ipv4_int 16) 65535);
                     hex (N.land ipv4_int 65535)])
          | None => None
          end
        else Some parts in
      match parts' with
      | None => None
      | Some parts =>
          if (HEXTET_COUNT + 1 <? length parts)%nat then None
          else
            match find_skip 1 (removelast (tl parts)) None with
            | None => None
            | Some (Some skip_index) =>
                let parts_hi := skip_index in
                let parts_lo := (length parts - skip_index - 1)%nat in
                match (if is_empty (first_part parts)
                       then (if (parts_hi - 1 =? 0)%nat then Some O else None)
                       else Some parts_hi),
                      (if is_empty (last_part parts)
                       then (if (parts_lo - 1 =? 0)%nat then Some O else None)
                       else Some parts_lo) with
                | Some parts_hi, Some parts_lo =>
                    if (HEXTET_COUNT <=? parts_hi + parts_lo)%nat then None
                    else
                      let parts_skipped := (HEXTET_COUNT - (parts_hi + parts_lo))%nat in
                      match mapM parse_hextet (firstn parts_hi parts),
                            mapM parse_hextet
                              (skipn (length parts - parts_lo) parts) with
                      | Some his, Some los =>
                          Some (shift_in los
                                  (N.shiftl (shift_in his 0)
                                     (16 * N.of_nat parts_skipped)))
                      | _, _ => None
                      end
                | _, _ => None
                end
            | Some None =>
                if negb (length parts =? HEXTET_COUNT)%nat then None
                else if is_empty (first_part parts) then None
                else if is_empty (last_part parts) then None
                else (fun his => shift_in his 0) <$> mapM parse_hextet parts
            end
      end.

(** [IPv6Address(text)] *)
Definition v6_of_string (addr_str : string) : option (N * option string) :=
  if has_char "/" addr_str then None
  else
    match split_scope_id addr_str with
    | None => None
    | Some (addr, scope_id) =>
        (fun ip => (ip, scope_id)) <$> v6_int_from_string addr
    end.

(** [ipaddress.ip_address(text)]; [None] stands for [ValueError]. *)
Definition ip_address (text : string) : option address :=
  match v4_of_string text with
  | Some ip => Some (IPv4Address ip)
  | None =>
      match v6_of_string text with
      | Some (ip, scope_id) => Some (IPv6Address ip scope_id)
      | None => None
      end
  end.

(** Decimal digits of a number, for [str(int)]. *)
Fixpoint dec_pos (fuel : nat) (n : N) (acc : string) : string :=
  match fuel with
  | O => acc
  | S k =>
      let acc' := String (chr (48 + n mod 10)) acc in
      if (n / 10 =? 0)%N then acc' else dec_pos k (n / 10) acc'
  end.

Definition dec (n : N) : string := dec_pos (S (N.to_nat (N.log2 n))) n EmptyString.

(** [_BaseV4._string_from_ip_int] *)
Definition v4_to_string (ip : N) : string :=
  join "." (map (fun i => dec (N.land (N.shiftr ip (8 * i)) 255)) [3; 2; 1; 0]%N).

(** The scan of [_compress_hextets]: the leftmost longest run of ["0"]
    hextets, as (best start, best length). *)
Fixpoint best_run (index : nat) (hextets : list string)
    (best_start best_len : nat) (run_start : option nat) (run_len : nat)
  : nat * nat :=
  match hextets with
  | [] => (best_start, best_len)
  | h :: rest =>
      if String.eqb h "0" then
        let run_len := S run_len in
        let run_start := match run_start with Some i => i | None => index end in
        if (best_len <? run_len)%nat
        then best_run (S index) rest run_start run_len (Some run_start) run_len
        else best_run (S index) rest best_start best_len (Some run_start) run_len
      else best_run (S index) rest best_start best_len None O
  end.

(** [_BaseV6._compress_hextets] *)
Definition compress_hextets (hextets : list string) : list string :=
  let '(best_start, best_len) := best_run O hextets O O None O in
  if (1 <? best_len)%nat then
    let best_end := (best_start + best_len)%nat in
    let hextets1 :=
      if (best_end =? length hextets)%nat then hextets ++ [EmptyString] else hextets in
    let hextets2 :=
      firstn best_start hextets1 ++ [EmptyString] ++ skipn best_end hextets1 in
    if (best_start =? 0)%nat then EmptyString :: hextets2 else hextets2
  else hextets.

(** [_BaseV6._string_from_ip_int] *)
Definition v6_to_string (ip : N) : string :=
  let hextets :=
    map (fun i => hex (N.land (N.shiftr ip (16 * i)) 65535)) [7; 6; 5; 4; 3; 2; 1; 0]%N in
  join ":" (compress_hextets hextets).

(** [str(address)] *)
Definition str (a : address) : string :=
  match a with
  | IPv4Address ip => v4_to_string ip
  | IPv6Address ip None => v6_to_string ip
  | IPv6Address ip (Some scope_id) => v6_to_string ip +:+ "%" +:+ scope_id
  end.

End ipaddress.

(** ** [urllib.parse.urlparse], as [http_parser.py] uses it: the
    components of the result and its [hostname] and [port] properties. *)

Module urllib.
Import Py.

Record ParseResult : Type := {
  scheme : string;
  netloc : string;
  path : string;
  params : string;
  query : string;
  fragment : string
}.

(** [_WHATWG_C0_CONTROL_OR_SPACE] *)
Definition c0_control_or_space (c : ascii) : bool := (code c <=? 32)%N.

(** [_UNSAFE_URL_BYTES_TO_REMOVE] *)
Definition unsafe_url_byte (c : ascii) : bool :=
  Ascii.eqb c TAB || Ascii.eqb c CR || Ascii.eqb c LF.

(** [scheme_chars]: letters, digits and [+-.] *)
Definition scheme_char (c : ascii) : bool :=
  is_letter c || is_digit c ||
  (code c =? 43)%N || (code c =? 45)%N || (code c =? 46)%N.

Definition is_delim (c : ascii) : bool :=
  (code c =? 47)%N || (code c =? 63)%N || (code c =? 35)%N.

(** [_splitnetloc(url, 2)] on the text after the two slashes: up to the
    first of [/ ? #]. *)
Fixpoint splitnetloc (s : string) : string * string :=
  match s with
  | EmptyString => (EmptyString, EmptyString)
  | String c s' =>
      if is_delim c then (EmptyString, s)
      else let '(n, rest) := splitnetloc s' in (String c n, rest)
  end.

(** [_NetlocResultMixinStr._hostinfo]: host name and port text, [None]
    for an absent or empty port. *)
Definition hostinfo (netloc : string) : string * option string :=
  let '(_, _, hostinfo) := rpartition "@" netloc in
  let '(_, have_open_br, bracketed) := partition "[" hostinfo in
  let '(hostname, port) :=
    if have_open_br then
      let '(hostname, _, port) := partition "]" bracketed in
      let '(_, _, port) := partition ":" port in
      (hostname, port)
    else
      let '(hostname, _, port) := partition ":" hostinfo in
      (hostname, port) in
  (hostname, if is_empty port then None else Some port).

(** [re.match(r"\Av[a-fA-F0-9]+\..+\Z", hostname)] for a [hostname]
    that starts with [v]: hexadecimal digits, a dot, and at least one
    more character, none a line feed. *)
Definition is_ipvfuture (hostname : string) : bool :=
  match hostname with
  | String _ rest =>
      let hexpart := lstrip_by ipaddress.is_hex_digit rest in
      negb (String.length hexpart =? String.length rest)%nat &&
      match hexpart with
      | String dot (String c tail) =>
          (code dot =? 46)%N && negb (has_char LF (String c tail))
      | _ => false
      end
  | EmptyString => false
  end.

(** [_check_bracketed_host]: [false] stands for [ValueError]. *)
Definition check_bracketed_host (hostname : string) : bool :=
  if startswith hostname "v" then is_ipvfuture hostname
  else
    match ipaddress.ip_address hostname with
    | Some (ipaddress.IPv6Address _ _) => true
    | Some (ipaddress.IPv4Address _) => false
    | None => false
    end.

(** [_check_bracketed_netloc]: [false] stands for [ValueError]. *)
Definition check_bracketed_netloc (netloc : string) : bool :=
  let '(_, _, hostname_and_port) := rpartition "@" netloc in
  let '(before_bracket, have_open_br, bracketed) := partition "[" hostname_and_port in
  if have_open_br then
    if negb (is_empty before_bracket) then false
    else
      let '(hostname, _, port) := partition "]" bracketed in
      if negb (is_empty port) && negb (startswith port ":") then false
      else check_bracketed_host hostname
  else
    let '(hostname, _, _) := partition ":" hostname_and_port in
    check_bracketed_host hostname.

(** [url.split(c, 1)] when [c] occurs in [url]; the pair is [(url, "")]
    otherwise, which is what the callers keep in that case. *)
Definition split_once (c : ascii) (s : string) : string * string :=
  let '(a, _, b) := partition c s in (a, b).

(** [urlsplit(url)]: scheme, netloc, path, query, fragment; [None] stands
    for [ValueError].  [_checknetloc] is left out: on a net location of
    code points below U+0100 it never raises, as no such character
    normalises (NFKC) to text with one of [/?#@:]. *)
Definition urlsplit (url : string)
  : option (string * string * string * string * string) :=
  let url := lstrip_by c0_control_or_space url in
  let url := remove_chars unsafe_url_byte url in
  let '(scheme, url) :=
    match find url ":" with
    | Some (S i) =>
        if match url with String c _ => is_letter c | _ => false end
           && forallb_string scheme_char (take (S i) url)
        then (lower (take (S i) url), drop (S (S i)) url)
        else (EmptyString, url)
    | _ => (EmptyString, url)
    end in
  let split_rest netloc url :=
    let '(url, fragment) := split_once "#" url in
    let '(url, query) := split_once "?" url in
    Some (scheme, netloc, url, query, fragment) in
  if startswith url "//" then
    let '(netloc, url) := splitnetloc (drop 2 url) in
    if (has_char "[" netloc && negb (has_char "]" netloc))
       || (has_char "]" netloc && negb (has_char "[" netloc))
    then None
    else if has_char "[" netloc && has_char "]" netloc
            && negb (check_bracketed_netloc netloc)
    then None
    else split_rest netloc url
  else split_rest EmptyString url.

Definition uses_params : list string :=
  [""; "ftp"; "hdl"; "prospero"; "http"; "imap"; "https"; "shttp"; "rtsp";
   "rtspu"; "sip"; "sips"; "mms"; "sftp"; "tel"].

(** [url.rfind('/')] when there is a slash. *)
Fixpoint rfind_char (c : ascii) (s : string) : option nat :=
  match s with
  | EmptyString => None
  | String a s' =>
      match rfind_char c s' with
      | Some i => Some (S i)
      | None => if Ascii.eqb a c then Some O else None
      end
  end.

(** [_splitparams] *)
Definition splitparams (url : string) : string * string :=
  match rfind_char "/" url with
  | Some slash =>
      match find (drop slash url) ";" with
      | None => (url, EmptyString)
      | Some j => (take (slash + j) url, drop (S (slash + j)) url)
      end
  | None =>
      (* no slash: [i = url.find(';')], and a [';'] is known to occur *)
      match find url ";" with
      | Some i => (take i url, drop (S i) url)
      | None => (url, EmptyString)
      end
  end.

(** [urlparse(url)] *)
Definition urlparse (url : string) : option ParseResult :=
  match urlsplit url with
  | None => None
  | Some (scheme, netloc, url, query, fragment) =>
      let '(url, params) :=
        if existsb (String.eqb scheme) uses_params && has_char ";" url
        then splitparams url else (url, EmptyString) in
      Some {| scheme := scheme; netloc := netloc; path := url;
              params := params; query := query; fragment := fragment |}
  end.

(** The [hostname] property: [None] for an empty host; the text before a
    [%] is lower-cased, the zone after it is kept as written. *)
Definition hostname (r : ParseResult) : option string :=
  let h := fst (hostinfo (netloc r)) in
  if is_empty h then None
  else
    let '(h, percent, zone) := partition "%" h in
    Some (lower h +:+ (if percent then "%" else "") +:+ zone).

(** The [port] property: [None] stands for [ValueError], [Some None] for
    no port. *)
Definition port (r : ParseResult) : option (option Z) :=
  match snd (hostinfo (netloc r)) with
  | None => Some None
  | Some p =>
      if forallb_string is_digit p then
        match int p with
        | Some v => if (0 <=? v) && (v <=? 65535) then Some (Some v) else None
        | None => None
        end
      else None
  end.

End urllib.

(** ** [src/filter_manager.py] *)

Module FilterManager.
Import Py.

(** What reading the rules file does: [open] raises, or the iteration
    [for line in f] yields [lines] and then ends ([complete = true]) or
    raises ([complete = false], for instance on an undecodable byte). *)
Inductive read_result : Type :=
| OpenError
| ReadLines (lines : list string) (complete : bool).

(** The rules file as one call sees it.  [mtime] is [os.path.getmtime] in
    milliseconds, [None] when it raises [OSError]. *)
Record file_state : Type := {
  file_exists : bool;
  mtime : option Z;
  read : read_result
}.

(** The fields of a [FilterManager]; the file at [filter_file] is the
    [file_state] that each method is given. *)
Record t : Type := {
  blocked_domains : gset string;
  blocked_ips : gset string;
  blocked_suffixes : list string;
  _last_modified : Z
}.

Definition with_rules (fm : t) (d i : gset string) (s : list string) : t :=
  {| blocked_domains := d; blocked_ips := i; blocked_suffixes := s;
     _last_modified := _last_modified fm |}.

Definition with_last_modified (fm : t) (m : Z) : t :=
  {| blocked_domains := blocked_domains fm; blocked_ips := blocked_ips fm;
     blocked_suffixes := blocked_suffixes fm; _last_modified := m |}.

(** The three [clear()] calls that open [load_filters]. *)
Definition clear (fm : t) : t := with_rules fm ∅ ∅ [].

(** The body of [for line in f]. *)
Definition add_line (fm : t) (line : string) : t :=
  let line := strip line in
  if is_empty line || startswith line "#" then fm
  else
    match ipaddress.ip_address line with
    | Some _ =>
        with_rules fm (blocked_domains fm) ({[line]} ∪ blocked_ips fm)
          (blocked_suffixes fm)
    | None =>
        let domain := lower line in
        if startswith domain "*." then
          with_rules fm (blocked_domains fm) (blocked_ips fm)
            (blocked_suffixes fm ++ [drop 2 domain])
        else
          with_rules fm ({[domain]} ∪ blocked_domains fm) (blocked_ips fm)
            (blocked_suffixes fm)
    end.

(** [load_filters]: the new state, and whether the [except] branch
    printed its warning. *)
Definition load_filters (fm : t) (fs : file_state) : t * bool :=
  let fm := clear fm in
  match read fs with
  | OpenError => (fm, true)
  | ReadLines lines complete =>
      let fm := fold_left add_line lines fm in
      if complete then
        if file_exists fs then
          match mtime fs with
          | Some m => (with_last_modified fm m, false)
          | None => (fm, true)
          end
        else (fm, false)
      else (fm, true)
  end.

(** [__init__], up to the default file it writes when there is none. *)
Definition init (fs : file_state) : t :=
  let fm := {| blocked_domains := ∅; blocked_ips := ∅;
               blocked_suffixes := []; _last_modified := 0 |} in
  if file_exists fs then fst (load_filters fm fs) else fm.

(** The 0.1 s of [reload_if_changed], in milliseconds.  Modification
    times are whole milliseconds here and the comparison is exact.  The
    code compares floats of seconds and rounds the sum
    [_last_modified + 0.1]: it agrees with the comparison here whenever
    the two times are not exactly the tolerance apart, and may reload or
    not when they are. *)
Definition tolerance : Z := 100.

Definition reload_if_changed (fm : t) (fs : file_state) : t * bool :=
  if negb (file_exists fs) then (fm, false)
  else
    match mtime fs with
    | Some current_modified =>
        if _last_modified fm + tolerance <? current_modified
        then (fst (load_filters fm fs), true)
        else (fm, false)
    | None => (fm, false)
    end.

Definition force_reload (fm : t) (fs : file_state) : t * bool :=
  if file_exists fs then (fst (load_filters fm fs), true) else (fm, false).

Definition is_blocked (fm : t) (host : string) : bool :=
  if is_empty host then false
  else
    let host := strip (lower host) in
    if bool_decide (host ∈ blocked_ips fm) then true
    else if match ipaddress.ip_address host with
            | Some host_ip => bool_decide (ipaddress.str host_ip ∈ blocked_ips fm)
            | None => false
            end then true
    else if bool_decide (host ∈ blocked_domains fm) then true
    else existsb (fun suffix => endswith host ("." +:+ suffix) || String.eqb host suffix)
           (blocked_suffixes fm).

Definition add_blocked_domain (fm : t) (domain : string) : t :=
  with_rules fm ({[strip (lower domain)]} ∪ blocked_domains fm) (blocked_ips fm)
    (blocked_suffixes fm).

(** [add_blocked_ip]; [None] stands for the [ValueError] it raises. *)
Definition add_blocked_ip (fm : t) (ip : string) : option t :=
  match ipaddress.ip_address ip with
  | Some _ =>
      Some (with_rules fm (blocked_domains fm) ({[ip]} ∪ blocked_ips fm)
              (blocked_suffixes fm))
  | None => None
  end.

End FilterManager.

(** ** [src/http_parser.py] *)

Module HTTPParser.
Import Py.

(** *** The request-line pattern
    [^([A-Z]+)\s+(.+?)\s+(HTTP/\d\.\d)$] with [re.IGNORECASE], tried at
    the start of the line as [pattern.match] does.  The matcher follows
    the backtracking order of [re]: a greedy repetition takes the longest
    run first and gives characters back, the lazy one takes the shortest
    first and grows. *)

Section Matcher.
Context {A : Type}.

(** [p+] greedy, then [k] on the rest. *)
Fixpoint plus_greedy (p : ascii -> bool) (s : string)
    (k : string -> option A) : option A :=
  match s with
  | EmptyString => None
  | String c s' =>
      if p c then
        match plus_greedy p s' k with
        | Some r => Some r
        | None => k s'
        end
      else None
  end.

(** [(p+)] greedy and capturing. *)
Fixpoint group_greedy (p : ascii -> bool) (s : string)
    (k : string -> string -> option A) : option A :=
  match s with
  | EmptyString => None
  | String c s' =>
      if p c then
        match group_greedy p s' (fun g rest => k (String c g) rest) with
        | Some r => Some r
        | None => k (String c EmptyString) s'
        end
      else None
  end.

(** [(p+?)] lazy and capturing. *)
Fixpoint group_lazy (p : ascii -> bool) (s : string)
    (k : string -> string -> option A) : option A :=
  match s with
  | EmptyString => None
  | String c s' =>
      if p c then
        match k (String c EmptyString) s' with
        | Some r => Some r
        | None => group_lazy p s' (fun g rest => k (String c g) rest)
        end
      else None
  end.

End Matcher.

(** [[A-Z]] under [IGNORECASE], on the characters of the model: A-Z and
    a-z.  Beyond U+00FF the pattern also matches the four characters
    whose case folding is an ASCII letter (U+0130, U+0131, U+017F and
    U+212A); a request with such a character is not [in_range], see
    below. *)
Definition re_letter : ascii -> bool := is_letter.
(** [\s] *)
Definition re_space : ascii -> bool := isspace.
(** [.]: anything but a line feed. *)
Definition re_dot (c : ascii) : bool := negb (Ascii.eqb c LF).
(** [\d] *)
Definition re_digit : ascii -> bool := is_digit.

(** [(HTTP/\d\.\d)$]: eight characters, then the end of the text or one
    last line feed. *)
Definition version_at_end (s : string) : option string :=
  let v := take 8 s in
  let rest := drop 8 s in
  match v with
  | String h (String t1 (String t2 (String p (String sl (String d1 (String dot (String d2 EmptyString))))))) =>
      if String.eqb (lower (take 4 v)) "http"
         && (code sl =? 47)%N && re_digit d1 && (code dot =? 46)%N && re_digit d2
         && (is_empty rest || String.eqb rest (String LF EmptyString))
      then Some v else None
  | _ => None
  end.

(** [request_line_pattern.match(line)]: the three groups. *)
Definition match_request_line (line : string) : option (string * string * string) :=
  group_greedy re_letter line (fun g1 r1 =>
  plus_greedy re_space r1 (fun r2 =>
  group_lazy re_dot r2 (fun g2 r3 =>
  plus_greedy re_space r3 (fun r4 =>
  match version_at_end r4 with
  | Some g3 => Some (g1, g2, g3)
  | None => None
  end)))).

(** *** [bytes.decode('utf-8', errors='ignore')]
    ASCII bytes decode to themselves and the two-byte forms C2/C3 to
    U+0080..U+00FF; a malformed byte or truncated sequence is dropped the
    way CPython's decoder reports it (the lead byte alone, or the lead with
    the continuation bytes that were accepted).  A well-formed character
    above U+00FF is outside the character model; the decoder reports it
    as [Wide].  [in_range] tells that the bytes have no such character,
    and then [decode] is the text that Python has.  On other bytes
    [decode] has one U+00FF in the place of each wide character, so that
    the length and the positions of the other characters are the ones of
    the decoded text; what is stated of decoded text is stated of bytes
    that are [in_range]. *)

Inductive utf8_step : Type :=
| Emit (c : ascii) (extra : nat)   (* a character of [1 + extra] bytes *)
| Wide (extra : nat)               (* a character above U+00FF, of [1 + extra] bytes *)
| Skip (extra : nat)               (* an error of [1 + extra] bytes *)
| Truncated.                       (* unexpected end of data: drop the rest *)

Definition is_cont (c : ascii) : bool := between 128 191 c.

Definition stand_in : ascii := chr 255.

(** One step of the decoder at a lead byte [b0 >= 0x80], looking at the
    [rest] of the input. *)
Definition utf8_lead (b0 : ascii) (rest : string) : utf8_step :=
  let n0 := code b0 in
  if (n0 <? 194)%N then Skip 0
  else if (n0 <? 224)%N then
    match rest with
    | EmptyString => Truncated
    | String b1 _ =>
        if is_cont b1 then
          let cp := ((n0 - 192) * 64 + (code b1 - 128))%N in
          if (cp <? 256)%N then Emit (chr cp) 1 else Wide 1
        else Skip 0
    end
  else if (n0 <? 240)%N then
    match rest with
    | EmptyString => Truncated
    | String b1 rest1 =>
        if negb (is_cont b1)
           || (if (code b1 <? 160)%N then (n0 =? 224)%N else (n0 =? 237)%N)
        then Skip 0
        else
          match rest1 with
          | EmptyString => Truncated
          | String b2 _ => if is_cont b2 then Wide 2 else Skip 1
          end
    end
  else if (n0 <? 245)%N then
    match rest with
    | EmptyString => Truncated
    | String b1 rest1 =>
        if negb (is_cont b1)
           || (if (code b1 <? 144)%N then (n0 =? 240)%N else (n0 =? 244)%N)
        then Skip 0
        else
          match rest1 with
          | EmptyString => Truncated
          | String b2 rest2 =>
              if negb (is_cont b2) then Skip 1
              else
                match rest2 with
                | EmptyString => Truncated
                | String b3 _ => if is_cont b3 then Wide 3 else Skip 2
                end
          end
    end
  else Skip 0.

Fixpoint decode_go (skip : nat) (data : string) : string :=
  match data with
  | EmptyString => EmptyString
  | String b rest =>
      match skip with
      | S k => decode_go k rest
      | O =>
          if (code b <? 128)%N then String b (decode_go O rest)
          else
            match utf8_lead b rest with
            | Emit c extra => String c (decode_go extra rest)
            | Wide extra => String stand_in (decode_go extra rest)
            | Skip extra => decode_go extra rest
            | Truncated => EmptyString
            end
      end
  end.

Definition decode (data : string) : string := decode_go O data.

(** The bytes hold no well-formed character above U+00FF: the decoder
    never reports [Wide]. *)
Fixpoint in_range_go (skip : nat) (data : string) : bool :=
  match data with
  | EmptyString => true
  | String b rest =>
      match skip with
      | S k => in_range_go k rest
      | O =>
          if (code b <? 128)%N then in_range_go O rest
          else
            match utf8_lead b rest with
            | Emit _ extra => in_range_go extra rest
            | Wide _ => false
            | Skip extra => in_range_go extra rest
            | Truncated => true
            end
      end
  end.

Definition in_range (data : string) : bool := in_range_go O data.

(** *** [parse_request] *)

Record request : Type := {
  method : string;
  host : string;
  port : Z;
  path : string;
  request_line : string;
  headers : gmap string string;
  version : string
}.

(** The body of the header loop: [headers[key.strip().lower()] =
    value.strip()] for a line with a colon. *)
Definition add_header (headers : gmap string string) (line : string)
  : gmap string string :=
  if has_char ":" line then
    let '(key, _, value) := partition ":" line in
    <[lower (strip key) := strip value]> headers
  else headers.

Definition parse_headers (request_text : string) : gmap string string :=
  match find request_text CRLFCRLF with
  | Some header_end =>
      let header_text := take header_end request_text in
      fold_left add_header (tl (split header_text CRLF)) ∅
  | None => ∅
  end.

Definition is_absolute (target : string) : bool :=
  startswith target "http://" || startswith target "https://".

(** The absolute-URI branch: host, port and path, [None] when
    [urlparse] or the [port] property raises. *)
Definition resolve_absolute (target : string) : option (option string * Z * string) :=
  match urllib.urlparse target with
  | None => None
  | Some parsed =>
      match urllib.port parsed with
      | None => None
      | Some parsed_port =>
          let port :=
            match parsed_port with
            | Some p => if p =? 0 then None else Some p
            | None => None
            end in
          let port :=
            match port with
            | Some p => p
            | None => if String.eqb (urllib.scheme parsed) "https" then 443 else 80
            end in
          let path := if is_empty (urllib.path parsed) then "/" else urllib.path parsed in
          let path := if is_empty (urllib.query parsed) then path
                      else path +:+ "?" +:+ urllib.query parsed in
          Some (urllib.hostname parsed, port, path)
      end
  end.

(** The [Host]-header branch. *)
Definition resolve_relative (headers : gmap string string) (target : string)
  : option string * Z * string :=
  let host_header := default EmptyString (headers !! "host") in
  if has_char ":" host_header then
    let '(host, _, port_str) := rpartition ":" host_header in
    (Some host, default 80 (int port_str), target)
  else (Some host_header, 80, target).

(** [parse_request] on the decoded text. *)
Definition parse_request_text (request_text : string) : option request :=
  match split request_text CRLF with
  | [] => None
  | request_line :: _ =>
      match match_request_line request_line with
      | None => None
      | Some (g1, target, version) =>
          let method := upper g1 in
          let headers := parse_headers request_text in
          let resolved :=
            if is_absolute target then resolve_absolute target
            else Some (resolve_relative headers target) in
          match resolved with
          | None => None
          | Some (None, _, _) => None
          | Some (Some host, port, path) =>
              if is_empty host then None
              else Some {| method := method; host := host; port := port;
                           path := path; request_line := request_line;
                           headers := headers; version := version |}
          end
      end
  end.

Definition parse_request (request_data : string) : option request :=
  parse_request_text (decode request_data).

End HTTPParser.

(** ** [src/proxy_server.py]: the request reader and the handler *)

Module ProxyServer.
Import Py.

(** *** Sockets
    The receiving side of a socket is the script of what the peer does:
    [Data bytes] become available, the read times out, or it fails.  At
    the end of the script the peer has closed. *)
Inductive recv_event : Type :=
| Data (bytes : string)
| Timeout
| Failure.

Definition socket : Type := list recv_event.

Inductive recv_result : Type :=
| Received (chunk : string)
| TimedOut
| Failed.

(** [sock.recv(n)]: at most [n] of the available bytes, the others stay;
    [b''] once the peer has closed. *)
Definition recv (n : nat) (sock : socket) : recv_result * socket :=
  match sock with
  | [] => (Received EmptyString, [])
  | Data bytes :: rest =>
      if (String.length bytes <=? n)%nat then (Received bytes, rest)
      else (Received (take n bytes), Data (drop n bytes) :: rest)
  | Timeout :: rest => (TimedOut, rest)
  | Failure :: rest => (Failed, rest)
  end.

(** Every [recv] on a socket that is not closed makes this smaller; the
    loops below take their fuel from it. *)
Definition pending (sock : socket) : nat :=
  list_sum (map (fun e => match e with
                          | Data bytes => S (String.length bytes)
                          | _ => 1%nat
                          end) sock).

(** *** [_receive_request] *)

(** The [Content-Length] scan over the header lines: the first line that
    starts with [content-length:] and whose value [int] accepts. *)
Fixpoint content_length_of (lines : list string) : Z :=
  match lines with
  | [] => 0
  | line :: rest =>
      if startswith (lower line) "content-length:" then
        match int (strip (snd (urllib.split_once ":" line))) with
        | Some n => n
        | None => content_length_of rest
        end
      else content_length_of rest
  end.

Inductive receive_outcome : Type :=
| Returned (data : option string) (logged_error : bool) (rest : socket)
| OutOfFuel.

(** [return data if data else None] *)
Definition finish (data : string) (rest : socket) : receive_outcome :=
  Returned (if is_empty data then None else Some data) false rest.

(** The inner [while body_received < content_length] loop.  A timeout
    leaves through [except socket.timeout], where [data] is not empty. *)
Fixpoint read_body (fuel : nat) (sock : socket) (data : string)
    (body_received content_length : Z) : receive_outcome :=
  if body_received <? content_length then
    match fuel with
    | O => OutOfFuel
    | S fuel =>
        match recv (Z.to_nat (Z.min 4096 (content_length - body_received))) sock with
        | (Received chunk, sock) =>
            if is_empty chunk then finish data sock
            else read_body fuel sock (data +:+ chunk)
                   (body_received + Z.of_nat (String.length chunk)) content_length
        | (TimedOut, sock) => finish data sock
        | (Failed, sock) => Returned None true sock
        end
    end
  else finish data sock.

(** The outer [while len(data) < max_size] loop. *)
Fixpoint receive_loop (fuel : nat) (max_size : nat) (sock : socket)
    (data : string) : receive_outcome :=
  if (String.length data <? max_size)%nat then
    match fuel with
    | O => OutOfFuel
    | S fuel =>
        match recv 4096 sock with
        | (Received chunk, sock) =>
            if is_empty chunk then finish data sock
            else
              let data := data +:+ chunk in
              match find data CRLFCRLF with
              | Some header_end =>
                  let headers := HTTPParser.decode (take header_end data) in
                  let content_length := content_length_of (split headers CRLF) in
                  if 0 <? content_length then
                    let body_start := (header_end + 4)%nat in
                    let body_received :=
                      Z.of_nat (String.length data) - Z.of_nat body_start in
                    read_body fuel sock data body_received content_length
                  else finish data sock
              | None => receive_loop fuel max_size sock data
              end
        | (TimedOut, sock) =>
            if is_empty data then Returned None false sock else finish data sock
        | (Failed, sock) => Returned None true sock
        end
    end
  else finish data sock.

Definition MAX_REQUEST : nat := Z.to_nat 8192.

Definition _receive_request (client_socket : socket) : receive_outcome :=
  receive_loop (S (pending client_socket)) MAX_REQUEST client_socket EmptyString.

(** *** The handler
    What a handler does to the outside is a trace of events; the sockets it
    reads from, the shared filter and the trace are its state. *)

Definition address : Type := (string * Z)%type.

Inductive message : Type :=
| ReceiveError
| ParseFailed (client : address)
| ConnectTimeout (host : string) (port : Z)
| ConnectError (host : string) (port : Z)
| ForwardError (host : string) (port : Z)
| TunnelError
| ClientError (client : address).

Inductive event : Type :=
| log_error (m : message)
| log_blocked (client_ip : string) (client_port : Z)
    (host : string) (port : Z) (request_line : string)
| log_allowed (client_ip : string) (client_port : Z)
    (host : string) (port : Z) (request_line : string)
    (status_code : string) (response_size : nat)
| client_sendall (data : string)
| client_close
| origin_connect (host : string) (port : Z)
| origin_sendall (data : string)
| origin_close
| semaphore_release.

(** [socket.timeout] and any other exception. *)
Inductive exn : Type :=
| socket_timeout
| other_error.

Inductive connect_result : Type :=
| Connected
| ConnectTimesOut
| ConnectFails.

(** One round of [select] in the tunnel. *)
Inductive side : Type := client_side | origin_side.

Inductive select_result : Type :=
| Exceptional
| Idle
| Readable (ready : list (side * recv_result)).

(** What the handler does not decide. *)
Record world : Type := {
  client_address : address;
  client_writable : bool;   (* [false]: [sendall] on the client socket raises *)
  rules_file : FilterManager.file_state;
  connecting : connect_result;
  selects : list select_result
}.

Record state : Type := {
  trace : list event;
  client_in : socket;
  origin_in : socket;
  filter_manager : FilterManager.t
}.

Inductive result (A : Type) : Type :=
| Ok (a : A)
| Raise (e : exn).
Arguments Ok {A} a.
Arguments Raise {A} e.

Definition M (A : Type) : Type := state -> result A * state.

Definition ret {A : Type} (a : A) : M A := fun st => (Ok a, st).

Definition raise {A : Type} (e : exn) : M A := fun st => (Raise e, st).

Definition bind {A B : Type} (f : A -> M B) (m : M A) : M B :=
  fun st =>
    match m st with
    | (Ok a, st) => f a st
    | (Raise e, st) => (Raise e, st)
    end.

#[global] Instance M_ret : MRet M := @ret.
#[global] Instance M_bind : MBind M := @bind.

(** [try: m  except ...: handler] *)
Definition try_except {A : Type} (m : M A) (handler : exn -> M A) : M A :=
  fun st =>
    match m st with
    | (Ok a, st) => (Ok a, st)
    | (Raise e, st) => handler e st
    end.

(** [try: m  finally: cleanup], for a [cleanup] that does not raise. *)
Definition finally {A : Type} (m : M A) (cleanup : M unit) : M A :=
  fun st =>
    let '(r, st) := m st in
    let '(_, st) := cleanup st in
    (r, st).

Definition emit (e : event) : M unit :=
  fun st => (Ok tt, {| trace := trace st ++ [e]; client_in := client_in st;
                       origin_in := origin_in st;
                       filter_manager := filter_manager st |}).

Definition set_client_in (sock : socket) : M unit :=
  fun st => (Ok tt, {| trace := trace st; client_in := sock;
                       origin_in := origin_in st;
                       filter_manager := filter_manager st |}).

Definition set_origin_in (sock : socket) : M unit :=
  fun st => (Ok tt, {| trace := trace st; client_in := client_in st;
                       origin_in := sock;
                       filter_manager := filter_manager st |}).

Definition set_filter_manager (fm : FilterManager.t) : M unit :=
  fun st => (Ok tt, {| trace := trace st; client_in := client_in st;
                       origin_in := origin_in st; filter_manager := fm |}).

Definition get {A : Type} (f : state -> A) : M A := fun st => (Ok (f st), st).

Section Handler.
Variable w : world.

(** [client_socket.sendall(data)] *)
Definition client_send (data : string) : M unit :=
  if client_writable w then emit (client_sendall data) else raise other_error.

(** [server_socket.connect((host, port))] *)
Definition connect (host : string) (port : Z) : M unit :=
  emit (origin_connect host port) ;;
  match connecting w with
  | Connected => ret tt
  | ConnectTimesOut => raise socket_timeout
  | ConnectFails => raise other_error
  end.

(** [server_socket.recv(4096)] *)
Definition origin_recv : M string :=
  sock ← get origin_in;
  let '(r, sock) := recv 4096 sock in
  set_origin_in sock ;;
  match r with
  | Received chunk => ret chunk
  | TimedOut => raise socket_timeout
  | Failed => raise other_error
  end.

Definition RESPONSE_403 : string :=
  "HTTP/1.1 403 Forbidden" +:+ CRLF +:+
  "Content-Type: text/plain" +:+ CRLF +:+
  "Content-Length: 13" +:+ CRLF +:+
  "Connection: close" +:+ CRLFCRLF +:+
  "Access Denied".

Definition RESPONSE_200 : string := "HTTP/1.1 200 Connection Established" +:+ CRLFCRLF.
Definition RESPONSE_502 : string := "HTTP/1.1 502 Bad Gateway" +:+ CRLFCRLF.
Definition RESPONSE_504 : string := "HTTP/1.1 504 Gateway Timeout" +:+ CRLFCRLF.

(** [s.split()]: the runs of characters that are not white space. *)
Fixpoint split_whitespace (s : string) (word : string) : list string :=
  match s with
  | EmptyString => if is_empty word then [] else [word]
  | String c s' =>
      if isspace c then
        (if is_empty word then [] else [word]) ++ split_whitespace s' EmptyString
      else split_whitespace s' (word +:+ String c EmptyString)
  end.

(** The status code of the first chunk, ["000"] when there is none. *)
Definition status_of (chunk : string) : string :=
  let status_line := hd EmptyString (split (HTTPParser.decode chunk) CRLF) in
  if contains status_line "HTTP" then
    match split_whitespace status_line EmptyString with
    | _ :: code :: _ => code
    | _ => "000"
    end
  else "000".

(** The [while True] loop of [_handle_http_request]: response size and
    status code. *)
Fixpoint forward_response (fuel : nat) (response_size : nat)
    (status_code : string) : M (nat * string) :=
  match fuel with
  | O => ret (response_size, status_code)
  | S fuel =>
      chunk ← origin_recv;
      if is_empty chunk then ret (response_size, status_code)
      else
        let status_code :=
          if (response_size =? 0)%nat then status_of chunk else status_code in
        client_send chunk ;;
        forward_response fuel (response_size + String.length chunk)%nat status_code
  end.

Definition _handle_http_request (host : string) (port : Z)
    (parsed_request : HTTPParser.request) (request_data : string) : M unit :=
  let client := client_address w in
  finally
    (try_except
       (connect host port ;;
        emit (origin_sendall request_data) ;;
        sock ← get origin_in;
        r ← forward_response (S (pending sock)) O "000";
        emit (log_allowed (fst client) (snd client) host port
                (HTTPParser.request_line parsed_request) (snd r) (fst r)))
       (fun e =>
          match e with
          | socket_timeout =>
              emit (log_error (ConnectTimeout host port)) ;;
              client_send RESPONSE_504
          | other_error =>
              emit (log_error (ForwardError host port)) ;;
              client_send RESPONSE_502
          end))
    (emit origin_close).

(** [_tunnel_connection], the [select] branch: one round per entry of
    the script, to the first round that ends the tunnel.  A round with
    no socket ready is [if not readable: break], whether the script
    writes it [Idle] or [Readable []]. *)
Fixpoint forward_ready (ready : list (side * recv_result)) : M bool :=
  match ready with
  | [] => ret true
  | (from, r) :: rest =>
      match r with
      | Received data =>
          if is_empty data then ret false
          else
            match from with
            | client_side => emit (origin_sendall data)
            | origin_side => client_send data
            end ;;
            forward_ready rest
      | TimedOut => raise socket_timeout
      | Failed => raise other_error
      end
  end.

Fixpoint _tunnel_connection (rounds : list select_result) : M unit :=
  match rounds with
  | [] => ret tt
  | Exceptional :: _ => ret tt
  | Idle :: _ => ret tt
  | Readable [] :: _ => ret tt
  | Readable ready :: rest =>
      continue ← try_except (forward_ready ready)
                   (fun _ => emit (log_error TunnelError) ;; ret false);
      if (continue : bool) then _tunnel_connection rest else ret tt
  end.

Definition _handle_connect (host : string) (port : Z)
    (parsed_request : HTTPParser.request) : M unit :=
  let client := client_address w in
  finally
    (try_except
       (connect host port ;;
        client_send RESPONSE_200 ;;
        emit (log_allowed (fst client) (snd client) host port
                (HTTPParser.request_line parsed_request) "200" O) ;;
        _tunnel_connection (selects w))
       (fun e =>
          match e with
          | socket_timeout =>
              emit (log_error (ConnectTimeout host port)) ;;
              client_send RESPONSE_504
          | other_error =>
              emit (log_error (ConnectError host port)) ;;
              client_send RESPONSE_502
          end))
    (emit origin_close).

(** [_receive_request] as a step of the handler; running out of fuel,
    which does not happen, reads as a closed socket. *)
Definition receive_request : M (option string) :=
  sock ← get client_in;
  match _receive_request sock with
  | Returned data logged rest =>
      set_client_in rest ;;
      (if logged then emit (log_error ReceiveError) else ret tt) ;;
      ret data
  | OutOfFuel => ret None
  end.

Definition _handle_client : M unit :=
  let client := client_address w in
  finally
    (try_except
       (request_data ← receive_request;
        match request_data with
        | None => ret tt
        | Some request_data =>
            match HTTPParser.parse_request request_data with
            | None =>
                emit (log_error (ParseFailed client)) ;;
                emit client_close
            | Some parsed_request =>
                let method := HTTPParser.method parsed_request in
                let host := HTTPParser.host parsed_request in
                let port := HTTPParser.port parsed_request in
                fm ← get filter_manager;
                set_filter_manager
                  (fst (FilterManager.reload_if_changed fm (rules_file w))) ;;
                fm ← get filter_manager;
                if FilterManager.is_blocked fm host then
                  emit (log_blocked (fst client) (snd client) host port
                          (HTTPParser.request_line parsed_request)) ;;
                  client_send RESPONSE_403 ;;
                  emit client_close
                else if String.eqb method "CONNECT" then
                  _handle_connect host port parsed_request
                else
                  _handle_http_request host port parsed_request request_data
            end
        end)
       (fun _ => emit (log_error (ClientError client))))
    (emit client_close ;; emit semaphore_release).

End Handler.

(** The events of one handler run from a fresh trace. *)
Definition handle (w : world) (client_socket origin_socket : socket)
    (fm : FilterManager.t) : list event :=
  trace (snd (_handle_client w
                {| trace := []; client_in := client_socket;
                   origin_in := origin_socket; filter_manager := fm |})).

End ProxyServer.

(** ** What the specification says, in the terms of the model *)

Module Spec.
Import Py.

(** *** Rules files *)

(** A comment line has [#] at column 0; a blank line is white space. *)
Definition is_comment (line : string) : bool := startswith line "#".
Definition is_blank (line : string) : bool := forallb_string isspace line.

(** One edit of a rules file that the specification says is harmless. *)
Inductive harmless_edit : list string -> list string -> Prop :=
| reorder lines lines' :
    lines ≡ₚ lines' -> harmless_edit lines lines'
| add_comment before after line :
    is_comment line = true ->
    harmless_edit (before ++ after) (before ++ line :: after)
| add_blank before after line :
    is_blank line = true ->
    harmless_edit (before ++ after) (before ++ line :: after).

(** Any number of them. *)
Inductive harmless_edits : list string -> list string -> Prop :=
| no_edit lines : harmless_edits lines lines
| edit_then lines lines' lines'' :
    harmless_edit lines lines' -> harmless_edits lines' lines'' ->
    harmless_edits lines lines''.

(** A file that is read to its end. *)
Definition readable (lines : list string) (fs : FilterManager.file_state) : Prop :=
  FilterManager.read fs = FilterManager.ReadLines lines true.

(** A load that fails: [open] raises, or the iteration raises after
    [lines_read]. *)
Definition load_fails (lines_read : list string) (fs : FilterManager.file_state) : Prop :=
  (FilterManager.read fs = FilterManager.OpenError /\ lines_read = [])
  \/ FilterManager.read fs = FilterManager.ReadLines lines_read false.

(** The rule that a line of the file stands for. *)
Inductive rule : Type :=
| ip_rule (text : string)
| suffix_rule (suffix : string)
| domain_rule (domain : string).

Definition rule_of (line : string) : option rule :=
  let line := strip line in
  if is_empty line || startswith line "#" then None
  else
    match ipaddress.ip_address line with
    | Some _ => Some (ip_rule line)
    | None =>
        let domain := lower line in
        if startswith domain "*." then Some (suffix_rule (drop 2 domain))
        else Some (domain_rule domain)
    end.

(** Which lines have a given rule is all that a load keeps of a file. *)
Definition same_rules (lines lines' : list string) : Prop :=
  forall r, (exists line, line ∈ lines /\ rule_of line = Some r)
            <-> (exists line, line ∈ lines' /\ rule_of line = Some r).

(** The lines of a file that are neither comments nor blank. *)
Definition rule_lines (lines : list string) : list string :=
  List.filter (fun line => negb (is_comment line || is_blank line)) lines.

(** The canonical text of an IP address: parse, then print. *)
Definition canonical (text : string) : option string :=
  ipaddress.str <$> ipaddress.ip_address text.

(** *** [is_blocked] *)

Definition normalise (host : string) : string := strip (lower host).

(** [host] ends with ["." + s]. *)
Definition under_suffix (host s : string) : Prop :=
  exists label, host = label +:+ "." +:+ s.

Definition suffix_blocked (fm : FilterManager.t) (h : string) : Prop :=
  exists s, s ∈ FilterManager.blocked_suffixes fm /\ (h = s \/ under_suffix h s).

(** Section 4.1 of the specification, steps 2 to 4. *)
Definition blocked_by_spec (fm : FilterManager.t) (host : string) : Prop :=
  let h := normalise host in
  (exists c, canonical h = Some c /\ c ∈ FilterManager.blocked_ips fm)
  \/ h ∈ FilterManager.blocked_domains fm
  \/ suffix_blocked fm h.

(** What the code adds: the normalised host is itself, as text, an entry
    of [blocked_ips]. *)
Definition blocked_by_code (fm : FilterManager.t) (host : string) : Prop :=
  normalise host ∈ FilterManager.blocked_ips fm \/ blocked_by_spec fm host.

(** *** Requests *)

(** A request is spoken of through its decoded text, the [request_text]
    of [parse_request]: its request line, the method token of that line
    (the text before the first white space) and the request-target the
    pattern captures. *)
Definition request_line_of (request_text : string) : string :=
  hd EmptyString (split request_text CRLF).

Fixpoint method_token (line : string) : string :=
  match line with
  | EmptyString => EmptyString
  | String c rest => if isspace c then EmptyString else String c (method_token rest)
  end.

Definition request_target (request_text : string) : option string :=
  match HTTPParser.match_request_line (request_line_of request_text) with
  | Some (_, target, _) => Some target
  | None => None
  end.

(** The request declares a body: its header block, once complete, has a
    [Content-Length] above zero. *)
Definition declares_body (data : string) : bool :=
  match find data CRLFCRLF with
  | Some header_end =>
      0 <? ProxyServer.content_length_of
             (split (HTTPParser.decode (take header_end data)) CRLF)
  | None => false
  end.

(** The value of the [Host] header, as the parser reads the headers. *)
Definition host_header (request_text : string) : option string :=
  HTTPParser.parse_headers request_text !! "host".

(** The port an absolute URI writes: the text after the colon of its
    authority, as [urlparse] finds it. *)
Definition written_port (target : string) : option string :=
  match urllib.urlparse target with
  | Some parsed => snd (urllib.hostinfo (urllib.netloc parsed))
  | None => None
  end.

(** The shape of an absolute URI with a written port,
    [scheme://host:port] and then nothing, a path, a query or a fragment:
    a net location without delimiters or brackets, and a host without user
    information. *)
Definition plain_netloc_char (c : ascii) : bool :=
  negb (urllib.is_delim c || urllib.unsafe_url_byte c
        || Ascii.eqb c "[" || Ascii.eqb c "]").

Definition plain_host_char (c : ascii) : bool :=
  plain_netloc_char c && negb (Ascii.eqb c "@") && negb (Ascii.eqb c ":").

Definition plain_host (h : string) : bool := forallb_string plain_host_char h.

Definition starts_path (rest : string) : bool :=
  match rest with
  | EmptyString => true
  | String c _ => urllib.is_delim c
  end.

Definition all_digits (s : string) : bool :=
  negb (is_empty s) && forallb_string is_digit s.

Definition number (digits : string) : Z :=
  Z.of_N (ipaddress.decimal_value digits 0).

(** Lower case up to an IPv6 zone: the text before a [%]. *)
Definition lower_case_host (host : string) : Prop :=
  let '(name, _, _) := partition "%" host in lower name = name.

End Spec.

(** ** Concrete inputs for the examples below *)

Module Examples.
Import Py.

(** A rules file that is read to its end, last modified at [mtime] ms. *)
Definition rules_file (mtime : Z) (lines : list string) : FilterManager.file_state :=
  {| FilterManager.file_exists := true;
     FilterManager.mtime := Some mtime;
     FilterManager.read := FilterManager.ReadLines lines true |}.

(** The same path when it can no longer be opened. *)
Definition unreadable_file (mtime : Z) : FilterManager.file_state :=
  {| FilterManager.file_exists := true;
     FilterManager.mtime := Some mtime;
     FilterManager.read := FilterManager.OpenError |}.

(** A file whose iteration raises after [lines]. *)
Definition broken_file (mtime : Z) (lines : list string) : FilterManager.file_state :=
  {| FilterManager.file_exists := true;
     FilterManager.mtime := Some mtime;
     FilterManager.read := FilterManager.ReadLines lines false |}.

Definition filter_of (lines : list string) : FilterManager.t :=
  FilterManager.init (rules_file 1000 lines).

(** Header lines joined by CRLF, with the empty line that ends them. *)
Definition http_request (lines : list string) : string :=
  join CRLF (lines ++ [EmptyString; EmptyString]).

Fixpoint repeat_string (n : nat) (s : string) : string :=
  match n with
  | O => EmptyString
  | S k => s +:+ repeat_string k s
  end.

End Examples.

(** ** Requests, byte streams and traces
    The terms in which the further properties of the parser, the reader
    and the handler are stated: requests as a client writes them, the
    bytes a socket carries, and the events of a handler. *)

Module Wire.
Import Py.

(** [HTTP/d.d] *)
Definition http_version (major minor : ascii) : string :=
  "HTTP/" +:+ String major (String "." (String minor EmptyString)).

(** A request line: method, target and version, with white space between. *)
Definition request_line (method w1 target w2 version : string) : string :=
  method +:+ w1 +:+ target +:+ w2 +:+ version.

(** A request: the request line and the header lines, each ended by CRLF,
    the empty line and the body. *)
Definition request (line : string) (header_lines : list string) (body : string)
  : string :=
  join CRLF (line :: header_lines) +:+ CRLFCRLF +:+ body.

Definition no_space (s : string) : bool :=
  forallb_string (fun c => negb (isspace c)) s.

Definition no_CR (s : string) : bool :=
  forallb_string (fun c => negb (Ascii.eqb CR c)) s.

Definition header_line (line : string) : bool :=
  negb (is_empty line) && no_CR line.

(** The dictionary entry that a header line stands for: the text before
    its first colon, trimmed and lower-cased, and the trimmed text after
    it. *)
Definition header_entry (line : string) : option (string * string) :=
  if has_char ":" line then
    let '(key, _, value) := partition ":" line in
    Some (lower (strip key), strip value)
  else None.

(** The value of the last header line whose entry has the key [k]. *)
Fixpoint last_entry (k : string) (header_lines : list string) : option string :=
  match header_lines with
  | [] => None
  | line :: rest =>
      match last_entry k rest with
      | Some v => Some v
      | None =>
          match header_entry line with
          | Some (key, value) => if String.eqb key k then Some value else None
          | None => None
          end
      end
  end.

(** The bytes that the script of a socket holds, in order. *)
Fixpoint received (sock : ProxyServer.socket) : string :=
  match sock with
  | [] => EmptyString
  | ProxyServer.Data bytes :: rest => bytes +:+ received rest
  | _ :: rest => received rest
  end.

(** A peer that sends its bytes and closes: no read times out or fails. *)
Definition streaming (sock : ProxyServer.socket) : Prop :=
  Forall (fun e => match e with
                   | ProxyServer.Data bytes => bytes <> EmptyString
                   | _ => False
                   end) sock.

(** Where the request that starts [data] ends by its own account: after
    the blank line, and after as many more bytes as its [Content-Length]
    says when that is above zero; 0 while there is no blank line. *)
Definition declared_end (data : string) : Z :=
  match find data CRLFCRLF with
  | Some header_end =>
      Z.of_nat header_end + 4
      + Z.max 0 (ProxyServer.content_length_of
                   (split (HTTPParser.decode (take header_end data)) CRLF))
  | None => 0
  end.

(** [b''.join(pieces)] *)
Definition concat (pieces : list string) : string :=
  fold_right String.append EmptyString pieces.

(** A round of [select] in which every socket that is ready has data. *)
Definition readable (ready : list (ProxyServer.side * string)) : ProxyServer.select_result :=
  ProxyServer.Readable
    (map (fun '(from, data) => (from, ProxyServer.Received data)) ready).

(** What the tunnel does with the data of one read: data from the client
    goes to the origin, data from the origin goes to the client. *)
Definition tunnelled (read : ProxyServer.side * string) : ProxyServer.event :=
  match read with
  | (ProxyServer.client_side, data) => ProxyServer.origin_sendall data
  | (ProxyServer.origin_side, data) => ProxyServer.client_sendall data
  end.

(** The rounds at which the tunnel ends: no round left, an exceptional
    round, a round with no socket ready, or a round whose first read
    finds the peer closed. *)
Definition ends_tunnel (rounds : list ProxyServer.select_result) : Prop :=
  match rounds with
  | [] => True
  | ProxyServer.Exceptional :: _ => True
  | ProxyServer.Idle :: _ => True
  | ProxyServer.Readable [] :: _ => True
  | ProxyServer.Readable ((_, ProxyServer.Received data) :: _) :: _ =>
      data = EmptyString
  | _ => False
  end.

(** The events that touch the origin server. *)
Definition origin_event (e : ProxyServer.event) : bool :=
  match e with
  | ProxyServer.origin_connect _ _
  | ProxyServer.origin_sendall _
  | ProxyServer.origin_close => true
  | _ => false
  end.

(** The events of a handler that serves the request for [host:port]:
    none releases the permit, and the only connection is to that host and
    port. *)
Definition serves (host : string) (port : Z) (e : ProxyServer.event) : Prop :=
  match e with
  | ProxyServer.semaphore_release => False
  | ProxyServer.origin_connect h p => h = host /\ p = port
  | _ => True
  end.

(** What a step of the handler adds to the trace satisfies [P]. *)
Definition emits {A : Type} (P : ProxyServer.event -> Prop) (m : ProxyServer.M A) : Prop :=
  forall st, exists events,
    ProxyServer.trace (snd (m st)) = ProxyServer.trace st ++ events
    /\ Forall P events.

End Wire.

(** ** [src/proxy_server.py]: the accept loop of [start]
    The main thread runs the loop [while self.running], the handler
    threads end on their own, and a signal may come at any time.  What
    the loop shares with the handlers is the semaphore; [acquire] and
    [release] are atomic, so a run is a sequence of steps. *)

Module Server.

Inductive accept_result : Type :=
| Accepted (client : ProxyServer.address)
| AcceptTimeout      (* [socket.timeout] *)
| AcceptError.       (* [OSError] *)

Inductive step : Type :=
| Pass (signalled : bool) (outcome : accept_result)
    (* one pass of the loop body; [signalled]: the signal handler runs
       while [accept] waits *)
| HandlerEnds        (* a handler thread reaches [self.semaphore.release()] *)
| Signal.            (* [_signal_handler] between two passes *)

Inductive event : Type :=
| log_new_connection (client : ProxyServer.address)
| thread_started (client : ProxyServer.address)
| client_closed (client : ProxyServer.address)
| log_pool_full
| log_accept_error
| log_shutdown_signal.

Record t : Type := {
  running : bool;
  semaphore : nat;                          (* the value of [self.semaphore] *)
  handlers : nat;                           (* handler threads that have not released *)
  thread_pool : list ProxyServer.address;   (* [self.thread_pool] *)
  events : list event
}.

Definition log (e : list event) (s : t) : t :=
  {| running := running s; semaphore := semaphore s; handlers := handlers s;
     thread_pool := thread_pool s; events := events s ++ e |}.

Definition stop (s : t) : t :=
  {| running := false; semaphore := semaphore s; handlers := handlers s;
     thread_pool := thread_pool s; events := events s ++ [log_shutdown_signal] |}.

(** [if self.semaphore.acquire(blocking=False): ... else: ...] *)
Definition start_or_close (client : ProxyServer.address) (s : t) : t :=
  match semaphore s with
  | S permits =>
      {| running := running s; semaphore := permits; handlers := S (handlers s);
         thread_pool := thread_pool s ++ [client];
         events := events s ++ [thread_started client] |}
  | O => log [client_closed client; log_pool_full] s
  end.

(** The body of [while self.running]; a pass that comes after the flag
    was cleared does not take place. *)
Definition pass (signalled : bool) (outcome : accept_result) (s : t) : t :=
  if running s then
    let s := if signalled then stop s else s in
    match outcome with
    | Accepted client => start_or_close client (log [log_new_connection client] s)
    | AcceptTimeout => s
    | AcceptError => if running s then log [log_accept_error] s else s
    end
  else s.

(** The end of a handler thread; there is none to end when [handlers]
    is 0. *)
Definition handler_ends (s : t) : t :=
  match handlers s with
  | S others =>
      {| running := running s; semaphore := S (semaphore s); handlers := others;
         thread_pool := thread_pool s; events := events s |}
  | O => s
  end.

Definition do_step (s : t) (x : step) : t :=
  match x with
  | Pass signalled outcome => pass signalled outcome s
  | HandlerEnds => handler_ends s
  | Signal => stop s
  end.

(** [__init__] and the start of the loop: [Semaphore(thread_pool_size)],
    [self.running = True]. *)
Definition init (thread_pool_size : nat) : t :=
  {| running := true; semaphore := thread_pool_size; handlers := O;
     thread_pool := []; events := [] |}.

Definition run (thread_pool_size : nat) (steps : list step) : t :=
  fold_left do_step steps (init thread_pool_size).

End Server.

(** * Properties *)

Import Py.

#[local] Set Warnings "-clear-no-such-hyp".

(** ** Strings *)

Lemma is_empty_true (s : string) : is_empty s = true <-> s = EmptyString.
Proof. destruct s; simpl; split; congruence. Qed.

Lemma is_empty_false (s : string) : is_empty s = false <-> s <> EmptyString.
Proof. destruct s; simpl; split; congruence. Qed.

Lemma append_cons c (a b : string) : String c a +:+ b = String c (a +:+ b).
Proof. reflexivity. Qed.

Lemma append_nil (b : string) : EmptyString +:+ b = b.
Proof. reflexivity. Qed.

Lemma append_empty_r (s : string) : s +:+ EmptyString = s.
Proof. induction s as [|c s IH]; [done | by rewrite append_cons, IH]. Qed.

Lemma append_assoc (a b c : string) : (a +:+ b) +:+ c = a +:+ b +:+ c.
Proof. induction a as [|x a IH]; [done | by rewrite !append_cons, IH]. Qed.

Lemma length_append (a b : string) :
  String.length (a +:+ b) = (String.length a + String.length b)%nat.
Proof. induction a as [|x a IH]; [done | rewrite append_cons; simpl; by rewrite IH]. Qed.

Lemma map_string_empty f (s : string) : map_string f s = EmptyString -> s = EmptyString.
Proof. destruct s; simpl; congruence. Qed.

Lemma startswith_nil (s : string) : startswith s EmptyString = true.
Proof. by destruct s. Qed.

Lemma startswith_cons a b (s p : string) :
  startswith (String b s) (String a p) = Ascii.eqb a b && startswith s p.
Proof. reflexivity. Qed.

Lemma startswith_spec (s p : string) :
  startswith s p = true <-> exists rest, s = p +:+ rest.
Proof.
  revert s. induction p as [|a p IH]; intros s.
  - rewrite startswith_nil. split; [eauto | done].
  - destruct s as [|b s]; simpl.
    + split; [done | intros [rest H]; discriminate].
    + rewrite andb_true_iff, Ascii.eqb_eq, IH. split.
      * intros [-> [rest ->]]. eauto.
      * intros [rest H]. rewrite append_cons in H. injection H as -> ->. eauto.
Qed.

Lemma endswith_nil (x : string) : endswith EmptyString x = String.eqb EmptyString x.
Proof. unfold endswith. apply orb_false_r. Qed.

Lemma endswith_cons c (s x : string) :
  endswith (String c s) x = String.eqb (String c s) x || endswith s x.
Proof. reflexivity. Qed.

Lemma endswith_spec (s x : string) :
  endswith s x = true <-> exists p, s = p +:+ x.
Proof.
  induction s as [|c s IH].
  - rewrite endswith_nil, String.eqb_eq. split.
    + intros <-. by exists EmptyString.
    + intros [p H]. destruct p; [done | discriminate].
  - rewrite endswith_cons, orb_true_iff, String.eqb_eq, IH. split.
    + intros [<- | [p ->]]; [by exists EmptyString | by exists (String c p)].
    + intros [[|d p] H]; [by left |].
      rewrite append_cons in H. injection H as -> ->. right. eauto.
Qed.

Lemma forallb_string_append p (a b : string) :
  forallb_string p (a +:+ b) = forallb_string p a && forallb_string p b.
Proof.
  induction a as [|c a IH]; [done |].
  rewrite append_cons. simpl. by rewrite IH, andb_assoc.
Qed.

(** White space does not survive [strip] at either end, and a first
    character that is no white space stays first. *)
Lemma lstrip_all p (s : string) :
  forallb_string p s = true -> lstrip_by p s = EmptyString.
Proof.
  induction s as [|c s IH]; simpl; [done |].
  intros [Hc Hs]%andb_true_iff. rewrite Hc. auto.
Qed.

Lemma rstrip_keeps_head p c (s : string) :
  p c = false -> exists r, rstrip_by p (String c s) = String c r.
Proof.
  intros Hc. simpl. destruct (rstrip_by p s); rewrite ?Hc; eauto.
Qed.

Lemma strip_blank (line : string) : Spec.is_blank line = true -> strip line = EmptyString.
Proof. intros H. unfold strip, strip_by. by rewrite (lstrip_all _ _ H). Qed.

Lemma strip_comment (line : string) :
  Spec.is_comment line = true -> startswith (strip line) "#" = true.
Proof.
  destruct line as [|c line]; [done |].
  unfold Spec.is_comment. rewrite startswith_cons, startswith_nil, andb_true_r.
  intros <-%Ascii.eqb_eq. unfold strip, strip_by.
  change (lstrip_by isspace (String "#" line)) with (String "#"%char line).
  destruct (rstrip_keeps_head isspace "#" line eq_refl) as [r ->].
  by rewrite startswith_cons, startswith_nil.
Qed.

(** ** The host filter *)

Section Filter.
Import FilterManager.
Implicit Types (fm : FilterManager.t) (line host : string) (lines : list string).

(** [add_line] applies the rule the line stands for. *)
Lemma add_line_rule fm line :
  add_line fm line =
  match Spec.rule_of line with
  | None => fm
  | Some (Spec.ip_rule text) =>
      with_rules fm (blocked_domains fm) ({[text]} ∪ blocked_ips fm) (blocked_suffixes fm)
  | Some (Spec.suffix_rule s) =>
      with_rules fm (blocked_domains fm) (blocked_ips fm) (blocked_suffixes fm ++ [s])
  | Some (Spec.domain_rule d) =>
      with_rules fm ({[d]} ∪ blocked_domains fm) (blocked_ips fm) (blocked_suffixes fm)
  end.
Proof.
  unfold add_line, Spec.rule_of.
  destruct (is_empty (strip line) || startswith (strip line) "#"); [done |].
  destruct (ipaddress.ip_address (strip line)); [done |].
  by destruct (startswith (lower (strip line)) "*.").
Qed.

Lemma rule_of_comment_or_blank line :
  Spec.is_comment line || Spec.is_blank line = true -> Spec.rule_of line = None.
Proof.
  intros [H | H]%orb_true_iff; unfold Spec.rule_of.
  - by rewrite (strip_comment _ H), orb_true_r.
  - by rewrite (strip_blank _ H).
Qed.

Lemma loaded_last_modified lines fm :
  _last_modified (fold_left add_line lines fm) = _last_modified fm.
Proof.
  revert fm. induction lines as [|line lines IH]; intros fm; [done |].
  simpl. rewrite IH, add_line_rule. by destruct (Spec.rule_of line) as [[]|].
Qed.

(** The loaded collections hold what the lines' rules put there. *)
Lemma loaded_ips lines fm x :
  x ∈ blocked_ips (fold_left add_line lines fm) <->
  x ∈ blocked_ips fm \/
  exists line, line ∈ lines /\ Spec.rule_of line = Some (Spec.ip_rule x).
Proof.
  revert fm. induction lines as [|line lines IH]; intros fm; simpl.
  - split; [by left | intros [H | (l & Hl & _)]; [done | by apply elem_of_nil in Hl]].
  - rewrite IH, add_line_rule. setoid_rewrite elem_of_cons.
    destruct (Spec.rule_of line) as [[t | s | d]|] eqn:Hr; simpl;
      rewrite ?elem_of_union, ?elem_of_singleton; naive_solver.
Qed.

Lemma loaded_domains lines fm x :
  x ∈ blocked_domains (fold_left add_line lines fm) <->
  x ∈ blocked_domains fm \/
  exists line, line ∈ lines /\ Spec.rule_of line = Some (Spec.domain_rule x).
Proof.
  revert fm. induction lines as [|line lines IH]; intros fm; simpl.
  - split; [by left | intros [H | (l & Hl & _)]; [done | by apply elem_of_nil in Hl]].
  - rewrite IH, add_line_rule. setoid_rewrite elem_of_cons.
    destruct (Spec.rule_of line) as [[t | s | d]|] eqn:Hr; simpl;
      rewrite ?elem_of_union, ?elem_of_singleton; naive_solver.
Qed.

Lemma loaded_suffixes lines fm x :
  x ∈ blocked_suffixes (fold_left add_line lines fm) <->
  x ∈ blocked_suffixes fm \/
  exists line, line ∈ lines /\ Spec.rule_of line = Some (Spec.suffix_rule x).
Proof.
  revert fm. induction lines as [|line lines IH]; intros fm; simpl.
  - split; [by left | intros [H | (l & Hl & _)]; [done | by apply elem_of_nil in Hl]].
  - rewrite IH, add_line_rule. setoid_rewrite elem_of_cons.
    destruct (Spec.rule_of line) as [[t | s | d]|] eqn:Hr; simpl;
      rewrite ?elem_of_app, ?list_elem_of_singleton; naive_solver.
Qed.

(** Lines without a rule can be dropped from the file. *)
Lemma fold_add_line_filter (keep : string -> bool) lines fm :
  (forall line, keep line = false -> Spec.rule_of line = None) ->
  fold_left add_line (List.filter keep lines) fm = fold_left add_line lines fm.
Proof.
  intros Hkeep. revert fm. induction lines as [|line lines IH]; intros fm; [done |].
  simpl. destruct (keep line) eqn:Hk; simpl; [apply IH |].
  rewrite IH, (add_line_rule fm line). by rewrite (Hkeep _ Hk).
Qed.

(** [is_blocked] looks at the members of the three collections only. *)
Lemma is_blocked_ext fm fm' host :
  blocked_ips fm = blocked_ips fm' ->
  blocked_domains fm = blocked_domains fm' ->
  (forall s, s ∈ blocked_suffixes fm <-> s ∈ blocked_suffixes fm') ->
  is_blocked fm host = is_blocked fm' host.
Proof.
  intros Hi Hd Hs. unfold is_blocked. rewrite Hi, Hd.
  replace (existsb _ (blocked_suffixes fm)) with
    (existsb (fun suffix => endswith (strip (lower host)) ("." +:+ suffix)
                            || String.eqb (strip (lower host)) suffix)
       (blocked_suffixes fm')); [done |].
  apply eq_true_iff_eq. rewrite !existsb_exists.
  setoid_rewrite <- list_elem_of_In. by setoid_rewrite Hs.
Qed.

Lemma suffix_blocked_spec fm h :
  existsb (fun suffix => endswith h ("." +:+ suffix) || String.eqb h suffix)
    (blocked_suffixes fm) = true <-> Spec.suffix_blocked fm h.
Proof.
  rewrite existsb_exists. unfold Spec.suffix_blocked, Spec.under_suffix.
  setoid_rewrite <- list_elem_of_In. setoid_rewrite orb_true_iff.
  setoid_rewrite endswith_spec. setoid_rewrite String.eqb_eq. naive_solver.
Qed.

End Filter.

Section FilterLoads.
Import FilterManager.
Implicit Types (fm : FilterManager.t) (fs : file_state) (lines : list string).

(** The rule set after a load that read the file to its end. *)
Lemma load_readable fm fs lines :
  Spec.readable lines fs ->
  let loaded := fold_left add_line lines (clear fm) in
  blocked_domains (fst (load_filters fm fs)) = blocked_domains loaded
  /\ blocked_ips (fst (load_filters fm fs)) = blocked_ips loaded
  /\ blocked_suffixes (fst (load_filters fm fs)) = blocked_suffixes loaded.
Proof.
  unfold Spec.readable, load_filters. intros ->.
  destruct (file_exists fs); [destruct (mtime fs) |]; done.
Qed.

Lemma harmless_edit_same_rules lines lines' :
  Spec.harmless_edit lines lines' -> Spec.same_rules lines lines'.
Proof.
  intros [l l' Hperm | before after line Hc | before after line Hb] r.
  - by setoid_rewrite Hperm.
  - assert (Spec.rule_of line = None) as Hnone
      by (apply rule_of_comment_or_blank; by rewrite Hc).
    setoid_rewrite elem_of_app. setoid_rewrite elem_of_cons. naive_solver.
  - assert (Spec.rule_of line = None) as Hnone
      by (apply rule_of_comment_or_blank; by rewrite Hb, orb_true_r).
    setoid_rewrite elem_of_app. setoid_rewrite elem_of_cons. naive_solver.
Qed.

Lemma harmless_edits_same_rules lines lines' :
  Spec.harmless_edits lines lines' -> Spec.same_rules lines lines'.
Proof.
  induction 1 as [l | l l' l'' Hstep _ IH]; intros r; [done |].
  rewrite <- (IH r). by apply harmless_edit_same_rules.
Qed.

Lemma same_rules_same_outcome lines lines' fm fm' host :
  Spec.same_rules lines lines' ->
  is_blocked (fold_left add_line lines' (clear fm')) host
  = is_blocked (fold_left add_line lines (clear fm)) host.
Proof.
  intros Hsame. apply is_blocked_ext.
  - apply set_eq. intros x. rewrite !loaded_ips.
    specialize (Hsame (Spec.ip_rule x)). simpl. set_solver.
  - apply set_eq. intros x. rewrite !loaded_domains.
    specialize (Hsame (Spec.domain_rule x)). simpl. set_solver.
  - intros x. rewrite !loaded_suffixes.
    specialize (Hsame (Spec.suffix_rule x)). simpl. set_solver.
Qed.

End FilterLoads.

(** ** C1: a load that fails *)

(** C1, as stated, fails: a rule set holding [blocked.test] is emptied by
    [force_reload], and by [reload_if_changed], when the rules file can no
    longer be opened; the host is blocked before and allowed after. *)
Lemma C1_failed_load_empties_rules :
  let fm := Examples.filter_of ["blocked.test"] in
  let fs := Examples.unreadable_file 5000 in
  Spec.load_fails [] fs
  /\ FilterManager.is_blocked fm "blocked.test" = true
  /\ elements (FilterManager.blocked_domains fm) = ["blocked.test"]
  /\ elements (FilterManager.blocked_domains (fst (FilterManager.force_reload fm fs))) = []
  /\ FilterManager.is_blocked (fst (FilterManager.force_reload fm fs)) "blocked.test" = false
  /\ FilterManager.is_blocked (fst (FilterManager.reload_if_changed fm fs)) "blocked.test" = false.
Proof.
  repeat split; try (vm_compute; reflexivity).
  left. split; reflexivity.
Qed.

(** C1, amended: [load_filters] clears the three collections before it
    opens the file, so after a load that fails they hold the rules of the
    lines read before the error and nothing else (nothing at all when the
    file cannot be opened); [_last_modified] keeps its value and the warning
    is printed.  [force_reload] and [reload_if_changed] hand that state
    on.  The rule set is left as it was only when no load is started: the
    file is missing, or [reload_if_changed] cannot read its modification
    time. *)
Theorem C1_failed_load_keeps_lines_read
    (fm : FilterManager.t) (fs : FilterManager.file_state) (lines_read : list string) :
  Spec.load_fails lines_read fs ->
  let loaded := fold_left FilterManager.add_line lines_read (FilterManager.clear fm) in
  FilterManager.load_filters fm fs = (loaded, true)
  /\ FilterManager._last_modified loaded = FilterManager._last_modified fm
  /\ (forall x, x ∈ FilterManager.blocked_domains loaded <->
        exists line, line ∈ lines_read /\ Spec.rule_of line = Some (Spec.domain_rule x))
  /\ (forall x, x ∈ FilterManager.blocked_ips loaded <->
        exists line, line ∈ lines_read /\ Spec.rule_of line = Some (Spec.ip_rule x))
  /\ (forall x, x ∈ FilterManager.blocked_suffixes loaded <->
        exists line, line ∈ lines_read /\ Spec.rule_of line = Some (Spec.suffix_rule x))
  /\ (FilterManager.file_exists fs = true ->
      FilterManager.force_reload fm fs = (loaded, true))
  /\ (FilterManager.reload_if_changed fm fs = (loaded, true)
      \/ FilterManager.reload_if_changed fm fs = (fm, false))
  /\ (FilterManager.file_exists fs = false ->
      FilterManager.force_reload fm fs = (fm, false)
      /\ FilterManager.reload_if_changed fm fs = (fm, false))
  /\ (FilterManager.mtime fs = None ->
      FilterManager.reload_if_changed fm fs = (fm, false)).
Proof.
  intros Hfail loaded.
  assert (FilterManager.load_filters fm fs = (loaded, true)) as Hload.
  { unfold FilterManager.load_filters.
    destruct Hfail as [[-> ->] | ->]; reflexivity. }
  split; [exact Hload |].
  split; [unfold loaded; by rewrite loaded_last_modified |].
  split; [intros x; unfold loaded; rewrite loaded_domains; simpl; set_solver |].
  split; [intros x; unfold loaded; rewrite loaded_ips; simpl; set_solver |].
  split; [intros x; unfold loaded; rewrite loaded_suffixes; simpl; set_solver |].
  split; [| split; [| split]].
  - intros Hex. unfold FilterManager.force_reload. by rewrite Hex, Hload.
  - unfold FilterManager.reload_if_changed. rewrite Hload.
    destruct (FilterManager.file_exists fs); simpl; [| by right].
    destruct (FilterManager.mtime fs) as [m |]; [| by right].
    destruct (_ <? m); [by left | by right].
  - intros Hex. unfold FilterManager.force_reload, FilterManager.reload_if_changed.
    by rewrite Hex.
  - intros Hm. unfold FilterManager.reload_if_changed. rewrite Hm.
    by destruct (FilterManager.file_exists fs).
Qed.

(** The amended C1 at a file whose iteration raises after one line. *)
Lemma C1_failed_load_keeps_lines_read_witness :
  Spec.load_fails ["a.test"] (Examples.broken_file 5000 ["a.test"])
  /\ FilterManager.load_filters (Examples.filter_of ["blocked.test"])
       (Examples.broken_file 5000 ["a.test"])
     = (fold_left FilterManager.add_line ["a.test"]
          (FilterManager.clear (Examples.filter_of ["blocked.test"])), true).
Proof.
  assert (Spec.load_fails ["a.test"] (Examples.broken_file 5000 ["a.test"])) as H
    by (right; reflexivity).
  split; [exact H |].
  exact (proj1 (C1_failed_load_keeps_lines_read
                  (Examples.filter_of ["blocked.test"])
                  (Examples.broken_file 5000 ["a.test"]) ["a.test"] H)).
Defined.

(** ** C3: what [is_blocked] answers *)

(** C3, as stated, fails: with the rules file [0:0:0:0:0:0:0:1] the host
    [0:0:0:0:0:0:0:1] is blocked, though its canonical form [::1] is not
    in [blocked_ips], it is no blocked domain and there is no suffix. *)
Lemma C3_textual_ip_entry_blocks :
  let fm := Examples.filter_of ["0:0:0:0:0:0:0:1"] in
  FilterManager.is_blocked fm "0:0:0:0:0:0:0:1" = true
  /\ ~ Spec.blocked_by_spec fm "0:0:0:0:0:0:0:1".
Proof.
  split; [vm_compute; reflexivity |].
  intros [(c & Hc & Hin) | [Hd | (s & Hs & _)]].
  - vm_compute in Hc. injection Hc as <-.
    assert (bool_decide ("::1" ∈ FilterManager.blocked_ips
                           (Examples.filter_of ["0:0:0:0:0:0:0:1"])) = false) as Hno
      by (vm_compute; reflexivity).
    by apply bool_decide_eq_false in Hno.
  - assert (bool_decide (Spec.normalise "0:0:0:0:0:0:0:1" ∈ FilterManager.blocked_domains
                           (Examples.filter_of ["0:0:0:0:0:0:0:1"])) = false) as Hno
      by (vm_compute; reflexivity).
    by apply bool_decide_eq_false in Hno.
  - assert (FilterManager.blocked_suffixes (Examples.filter_of ["0:0:0:0:0:0:0:1"]) = [])
      as Hnil by (vm_compute; reflexivity).
    rewrite Hnil in Hs. by apply elem_of_nil in Hs.
Qed.

(** C3, amended: for a non-empty host, [is_blocked] answers true exactly
    when the lower-cased, trimmed host is itself an entry of [blocked_ips],
    or parses as an IP address whose canonical form is one, or is in
    [blocked_domains], or equals a suffix or ends with a dot and that
    suffix. *)
Theorem C3_is_blocked_iff (fm : FilterManager.t) (host : string) :
  host <> EmptyString ->
  FilterManager.is_blocked fm host = true <-> Spec.blocked_by_code fm host.
Proof.
  intros Hne. unfold FilterManager.is_blocked.
  apply is_empty_false in Hne. rewrite Hne.
  unfold Spec.blocked_by_code, Spec.blocked_by_spec, Spec.normalise, Spec.canonical.
  set (h := strip (lower host)).
  rewrite <- suffix_blocked_spec.
  destruct (bool_decide_reflect (h ∈ FilterManager.blocked_ips fm)) as [Hi | Hi];
    [by intuition |].
  destruct (ipaddress.ip_address h) as [ip |]; simpl.
  - destruct (bool_decide_reflect
                (ipaddress.str ip ∈ FilterManager.blocked_ips fm)) as [Hc | Hc].
    + split; [| done]. intros _. right. left. eauto.
    + destruct (bool_decide_reflect (h ∈ FilterManager.blocked_domains fm));
        [by intuition | naive_solver].
  - destruct (bool_decide_reflect (h ∈ FilterManager.blocked_domains fm));
      [by intuition | naive_solver].
Qed.

(** The amended C3 at the rule [*.ads.test] and the host [a.b.ads.test]. *)
Lemma C3_is_blocked_iff_witness :
  "a.b.ads.test" <> EmptyString
  /\ (FilterManager.is_blocked (Examples.filter_of ["*.ads.test"]) "a.b.ads.test" = true
      <-> Spec.blocked_by_code (Examples.filter_of ["*.ads.test"]) "a.b.ads.test").
Proof.
  assert ("a.b.ads.test" <> EmptyString) as H by discriminate.
  split; [exact H |].
  exact (C3_is_blocked_iff (Examples.filter_of ["*.ads.test"]) "a.b.ads.test" H).
Defined.

(** The scenario of the specification: the single rule [*.ads.test]. *)
Example ads_test_scenario :
  let fm := Examples.filter_of ["*.ads.test"] in
  FilterManager.is_blocked fm "a.b.ads.test" = true
  /\ FilterManager.is_blocked fm "ads.test" = true
  /\ FilterManager.is_blocked fm "notads.test" = false.
Proof. repeat split; vm_compute; reflexivity. Qed.

(** ** C4: the rule set after a load *)

Lemma rule_of_ip line text :
  Spec.rule_of line = Some (Spec.ip_rule text) ->
  text = strip line /\ text <> EmptyString /\ is_Some (ipaddress.ip_address text).
Proof.
  unfold Spec.rule_of.
  destruct (is_empty (strip line)) eqn:He; simpl; [done |].
  destruct (startswith (strip line) "#"); [done |].
  destruct (ipaddress.ip_address (strip line)) eqn:Hip.
  - intros [= <-]. rewrite Hip. by apply is_empty_false in He.
  - by destruct (startswith (lower (strip line)) "*.").
Qed.

Lemma rule_of_domain line d :
  Spec.rule_of line = Some (Spec.domain_rule d) ->
  d = lower (strip line) /\ d <> EmptyString.
Proof.
  unfold Spec.rule_of.
  destruct (is_empty (strip line)) eqn:He; simpl; [done |].
  destruct (startswith (strip line) "#"); [done |].
  destruct (ipaddress.ip_address (strip line)); [done |].
  destruct (startswith (lower (strip line)) "*."); [done |].
  intros [= <-]. split; [done |].
  intros Hd%map_string_empty. by apply is_empty_false in He.
Qed.

Lemma rule_of_suffix line s :
  Spec.rule_of line = Some (Spec.suffix_rule s) ->
  lower (strip line) = "*." +:+ s.
Proof.
  unfold Spec.rule_of.
  destruct (is_empty (strip line) || startswith (strip line) "#"); [done |].
  destruct (ipaddress.ip_address (strip line)); [done |].
  destruct (startswith (lower (strip line)) "*.") eqn:Hs; [| done].
  apply startswith_spec in Hs as [rest ->]. by intros [= <-].
Qed.

(** C4, as stated, fails: the file with the two lines [0:0:0:0:0:0:0:1] and
    [*.] loads completely, and afterwards [blocked_ips] holds
    [0:0:0:0:0:0:0:1], whose canonical form is [::1], and
    [blocked_suffixes] holds the empty string. *)
Lemma C4_loaded_entries_not_canonical_or_empty :
  let fs := Examples.rules_file 5000 ["0:0:0:0:0:0:0:1"; "*."] in
  let fm := fst (FilterManager.load_filters (Examples.filter_of []) fs) in
  Spec.readable ["0:0:0:0:0:0:0:1"; "*."] fs
  /\ elements (FilterManager.blocked_ips fm) = ["0:0:0:0:0:0:0:1"]
  /\ Spec.canonical "0:0:0:0:0:0:0:1" = Some "::1"
  /\ FilterManager.blocked_suffixes fm = [EmptyString].
Proof. repeat split; vm_compute; reflexivity. Qed.

(** C4, amended: after a load that read the file to its end, every string
    in [blocked_ips] is the trimmed text of a line, kept as written, and it
    parses as an IP address; no entry of [blocked_ips] or [blocked_domains]
    is empty; a suffix is empty only for a line that is [*.] and nothing
    else; and the comment and blank lines contribute nothing: the file
    without them loads to the same three collections. *)
Theorem C4_loaded_rules_well_formed
    (fm : FilterManager.t) (fs fs' : FilterManager.file_state) (lines : list string) :
  Spec.readable lines fs ->
  Spec.readable (Spec.rule_lines lines) fs' ->
  let loaded := fst (FilterManager.load_filters fm fs) in
  (forall ip, ip ∈ FilterManager.blocked_ips loaded ->
     ip <> EmptyString /\ is_Some (ipaddress.ip_address ip)
     /\ exists line, line ∈ lines /\ ip = strip line)
  /\ (forall d, d ∈ FilterManager.blocked_domains loaded -> d <> EmptyString)
  /\ (forall s, s ∈ FilterManager.blocked_suffixes loaded -> s = EmptyString ->
        exists line, line ∈ lines /\ lower (strip line) = "*.")
  /\ FilterManager.blocked_domains (fst (FilterManager.load_filters fm fs'))
     = FilterManager.blocked_domains loaded
  /\ FilterManager.blocked_ips (fst (FilterManager.load_filters fm fs'))
     = FilterManager.blocked_ips loaded
  /\ FilterManager.blocked_suffixes (fst (FilterManager.load_filters fm fs'))
     = FilterManager.blocked_suffixes loaded.
Proof.
  intros Hfs Hfs' loaded.
  destruct (load_readable fm fs lines Hfs) as (Hd & Hi & Hs).
  destruct (load_readable fm fs' _ Hfs') as (Hd' & Hi' & Hs').
  unfold loaded. rewrite Hd, Hi, Hs, Hd', Hi', Hs'. clear loaded Hd Hi Hs Hd' Hi' Hs'.
  repeat split.
  - apply loaded_ips in H as [H | (line & Hin & Hr)]; [set_solver |].
    by apply rule_of_ip in Hr as (_ & ? & _).
  - apply loaded_ips in H as [H | (line & Hin & Hr)]; [set_solver |].
    by apply rule_of_ip in Hr as (_ & _ & ?).
  - apply loaded_ips in H as [H | (line & Hin & Hr)]; [set_solver |].
    apply rule_of_ip in Hr as (? & _ & _). eauto.
  - intros d H. apply loaded_domains in H as [H | (line & Hin & Hr)]; [set_solver |].
    by apply rule_of_domain in Hr as (_ & ?).
  - intros s H ->. apply loaded_suffixes in H as [H | (line & Hin & Hr)];
      [by apply elem_of_nil in H |].
    apply rule_of_suffix in Hr. eauto.
  - unfold Spec.rule_lines. rewrite fold_add_line_filter; [done |].
    intros line Hk%negb_false_iff. by apply rule_of_comment_or_blank.
  - unfold Spec.rule_lines. rewrite fold_add_line_filter; [done |].
    intros line Hk%negb_false_iff. by apply rule_of_comment_or_blank.
  - unfold Spec.rule_lines. rewrite fold_add_line_filter; [done |].
    intros line Hk%negb_false_iff. by apply rule_of_comment_or_blank.
Qed.

(** The amended C4 at a file with a comment, a blank line and three rules. *)
Lemma C4_loaded_rules_well_formed_witness :
  let lines := ["# ads"; ""; "*.ads.test"; "10.0.0.1"; "Blocked.Test"] in
  Spec.readable lines (Examples.rules_file 5000 lines)
  /\ Spec.readable (Spec.rule_lines lines)
       (Examples.rules_file 7000 ["*.ads.test"; "10.0.0.1"; "Blocked.Test"])
  /\ forall d,
       d ∈ FilterManager.blocked_domains
             (fst (FilterManager.load_filters (Examples.filter_of [])
                     (Examples.rules_file 5000 lines))) ->
       d <> EmptyString.
Proof.
  intros lines.
  assert (Spec.readable lines (Examples.rules_file 5000 lines)) as H1 by reflexivity.
  assert (Spec.readable (Spec.rule_lines lines)
            (Examples.rules_file 7000 ["*.ads.test"; "10.0.0.1"; "Blocked.Test"]))
    as H2 by reflexivity.
  split; [exact H1 |]. split; [exact H2 |].
  exact (proj1 (proj2 (C4_loaded_rules_well_formed (Examples.filter_of []) _ _ lines H1 H2))).
Defined.

(** ** C10: edits of the rules file that change nothing *)

(** C10: reordering the lines of a rules file, adding comment lines and
    adding blank lines, in any number and order, and then loading it, gives
    the same [is_blocked] answer for every host as loading the original. *)
Theorem C10_harmless_edits_keep_outcomes
    (lines lines' : list string) (fs fs' : FilterManager.file_state)
    (fm fm' : FilterManager.t) (host : string) :
  Spec.harmless_edits lines lines' ->
  Spec.readable lines fs ->
  Spec.readable lines' fs' ->
  FilterManager.is_blocked (fst (FilterManager.load_filters fm' fs')) host
  = FilterManager.is_blocked (fst (FilterManager.load_filters fm fs)) host.
Proof.
  intros Hedits Hfs Hfs'.
  destruct (load_readable fm fs lines Hfs) as (Hd & Hi & Hs).
  destruct (load_readable fm' fs' lines' Hfs') as (Hd' & Hi' & Hs').
  rewrite (is_blocked_ext _ (fold_left FilterManager.add_line lines'
                               (FilterManager.clear fm')) host);
    [| done | done | by rewrite Hs'].
  rewrite (is_blocked_ext (fst (FilterManager.load_filters fm fs))
             (fold_left FilterManager.add_line lines (FilterManager.clear fm)) host);
    [| done | done | by rewrite Hs].
  apply same_rules_same_outcome. by apply harmless_edits_same_rules.
Qed.

(** C10 at a file of two rules, reordered, with a comment and a blank
    line added. *)
Lemma C10_harmless_edits_keep_outcomes_witness :
  let lines := ["blocked.test"; "*.ads.test"] in
  let lines' := ["# wildcard"; "*.ads.test"; ""; "blocked.test"] in
  Spec.harmless_edits lines lines'
  /\ Spec.readable lines (Examples.rules_file 5000 lines)
  /\ Spec.readable lines' (Examples.rules_file 7000 lines')
  /\ FilterManager.is_blocked
       (fst (FilterManager.load_filters (Examples.filter_of [])
               (Examples.rules_file 7000 lines'))) "x.ads.test"
     = FilterManager.is_blocked
         (fst (FilterManager.load_filters (Examples.filter_of [])
                 (Examples.rules_file 5000 lines))) "x.ads.test".
Proof.
  intros lines lines'.
  assert (Spec.harmless_edits lines lines') as H.
  { eapply Spec.edit_then; [apply Spec.reorder, perm_swap |].
    eapply Spec.edit_then;
      [apply (Spec.add_comment [] ["*.ads.test"; "blocked.test"] "# wildcard");
       reflexivity |].
    eapply Spec.edit_then;
      [apply (Spec.add_blank ["# wildcard"; "*.ads.test"] ["blocked.test"] "");
       reflexivity |].
    apply Spec.no_edit. }
  assert (Spec.readable lines (Examples.rules_file 5000 lines)) as H1 by reflexivity.
  assert (Spec.readable lines' (Examples.rules_file 7000 lines')) as H2 by reflexivity.
  split; [exact H |]. split; [exact H1 |]. split; [exact H2 |].
  exact (C10_harmless_edits_keep_outcomes lines lines' _ _ _ _ "x.ads.test" H H1 H2).
Defined.

(** ** The request reader *)

Section Reader.
Import ProxyServer.

Lemma length_drop n (s : string) :
  String.length (drop n s) = (String.length s - n)%nat.
Proof.
  revert s. induction n as [|n IH]; intros [|c s]; simpl; try done.
Qed.

(** A [recv] either finds the peer closed or uses up some of the script. *)
Lemma recv_progress n sock r sock' :
  (0 < n)%nat ->
  recv n sock = (r, sock') ->
  (sock = [] /\ r = Received EmptyString) \/ (pending sock' < pending sock)%nat.
Proof.
  intros Hn. destruct sock as [|[bytes | |] rest]; simpl.
  - intros [= <- <-]. by left.
  - destruct (String.length bytes <=? n)%nat eqn:Hlen; intros [= <- <-]; right.
    + unfold pending. simpl. lia.
    + apply Nat.leb_gt in Hlen. unfold pending. simpl. rewrite length_drop. lia.
  - intros [= <- <-]. right. unfold pending. simpl. lia.
  - intros [= <- <-]. right. unfold pending. simpl. lia.
Qed.

Lemma read_body_returns fuel sock data received content_length :
  (pending sock < fuel)%nat ->
  read_body fuel sock data received content_length <> OutOfFuel.
Proof.
  revert sock data received.
  induction fuel as [|fuel IH]; intros sock data received Hfuel; [lia |].
  simpl. destruct (received <? content_length) eqn:Hlt; [| done].
  apply Z.ltb_lt in Hlt.
  destruct (recv _ sock) as [r sock'] eqn:Hrecv.
  apply recv_progress in Hrecv as [[-> ->] | Hless]; [done | | lia].
  destruct r as [chunk | |]; [| done | done].
  destruct (is_empty chunk); [done |]. apply IH. lia.
Qed.

Lemma receive_loop_returns fuel max_size sock data :
  (pending sock < fuel)%nat ->
  receive_loop fuel max_size sock data <> OutOfFuel.
Proof.
  revert sock data.
  induction fuel as [|fuel IH]; intros sock data Hfuel; [lia |].
  simpl. destruct (String.length data <? max_size)%nat; [| done].
  destruct (recv 4096 sock) as [r sock'] eqn:Hrecv.
  apply recv_progress in Hrecv as [[-> ->] | Hless]; [done | | lia].
  destruct r as [chunk | |]; [| by destruct (is_empty data) | done].
  destruct (is_empty chunk); [done |].
  destruct (find _ _); [| apply IH; lia].
  destruct (0 <? _); [| done]. apply read_body_returns. lia.
Qed.

(** The reader returns on every client byte stream: the fuel it starts
    with is enough. *)
Lemma receive_request_returns client_socket :
  _receive_request client_socket <> OutOfFuel.
Proof. apply receive_loop_returns. lia. Qed.

(** Bytes are returned without an error having been logged. *)
Lemma read_body_some fuel sock data received content_length d logged rest :
  read_body fuel sock data received content_length = Returned (Some d) logged rest ->
  logged = false.
Proof.
  revert sock data received.
  induction fuel as [|fuel IH]; intros sock data received; simpl.
  - destruct (_ <? _); [done |]. unfold finish. by intros [= _ <- _].
  - destruct (_ <? _); [| unfold finish; by intros [= _ <- _]].
    destruct (recv _ sock) as [[chunk | |] sock'];
      [| unfold finish; by intros [= _ <- _] | done].
    destruct (is_empty chunk); [unfold finish; by intros [= _ <- _] | apply IH].
Qed.

Lemma receive_loop_some fuel max_size sock data d logged rest :
  receive_loop fuel max_size sock data = Returned (Some d) logged rest ->
  logged = false.
Proof.
  revert sock data.
  induction fuel as [|fuel IH]; intros sock data; simpl.
  - destruct (_ <? _)%nat; [done |]. unfold finish. by intros [= _ <- _].
  - destruct (_ <? _)%nat; [| unfold finish; by intros [= _ <- _]].
    destruct (recv 4096 sock) as [[chunk | |] sock']; [| | done].
    + destruct (is_empty chunk); [unfold finish; by intros [= _ <- _] |].
      destruct (find _ _); [| apply IH].
      destruct (0 <? _); [apply read_body_some | unfold finish; by intros [= _ <- _]].
    + destruct (is_empty data); [done | unfold finish; by intros [= _ <- _]].
Qed.

(** *** How much the reader returns *)

Lemma length_take n (s : string) : (String.length (take n s) <= n)%nat.
Proof.
  revert s. induction n as [|n IH]; intros [|c s]; simpl; try lia.
  specialize (IH s). lia.
Qed.

Lemma take_append n (a b : string) :
  (n <= String.length a)%nat -> take n (a +:+ b) = take n a.
Proof.
  revert a. induction n as [|n IH]; intros [|c a] Hn; simpl in *; try done; try lia.
  rewrite IH; [done | lia].
Qed.

Lemma recv_length n sock chunk sock' :
  recv n sock = (Received chunk, sock') -> (String.length chunk <= n)%nat.
Proof.
  destruct sock as [|[bytes | |] rest]; simpl; try done.
  - intros [= <- _]. simpl. lia.
  - destruct (String.length bytes <=? n)%nat eqn:Hlen; intros [= <- _].
    + by apply Nat.leb_le.
    + apply length_take.
Qed.

Lemma startswith_length (s x : string) :
  startswith s x = true -> (String.length x <= String.length s)%nat.
Proof.
  intros [rest ->]%startswith_spec. rewrite length_append. lia.
Qed.

Lemma startswith_append (a b x : string) :
  startswith a x = true -> startswith (a +:+ b) x = true.
Proof.
  intros [rest ->]%startswith_spec. apply startswith_spec.
  exists (rest +:+ b). by rewrite append_assoc.
Qed.

Lemma startswith_append_inv (a b x : string) :
  startswith (a +:+ b) x = true -> (String.length x <= String.length a)%nat ->
  startswith a x = true.
Proof.
  revert a. induction x as [|c x IH]; intros a; [intros; apply startswith_nil |].
  destruct a as [|d a]; [simpl; lia |].
  rewrite append_cons, !startswith_cons.
  intros [-> Hrest]%andb_true_iff Hlen. simpl in Hlen. rewrite (IH a Hrest); [done | lia].
Qed.

Lemma find_unfold (s x : string) :
  find s x = if startswith s x then Some O
             else match s with
                  | EmptyString => None
                  | String _ s' => S <$> find s' x
                  end.
Proof. by destruct s. Qed.

Lemma find_length (s x : string) i :
  find s x = Some i -> (i + String.length x <= String.length s)%nat.
Proof.
  revert i. induction s as [|c s IH]; intros i; rewrite find_unfold.
  - destruct (startswith _ x) eqn:Hs; [| done].
    intros [= <-]. by apply startswith_length in Hs.
  - destruct (startswith _ x) eqn:Hs.
    + intros [= <-]. by apply startswith_length in Hs.
    + destruct (find s x) as [j |]; [| done]. intros [= <-].
      specialize (IH j eq_refl). simpl. lia.
Qed.

(** The first occurrence stays where it is when text is appended. *)
Lemma find_append (a b x : string) i :
  find a x = Some i -> find (a +:+ b) x = Some i.
Proof.
  revert i. induction a as [|c a IH]; intros i; rewrite (find_unfold _ x).
  - destruct (startswith _ x) eqn:Hs; [| done]. intros [= <-].
    rewrite find_unfold. by rewrite (startswith_append _ b _ Hs).
  - destruct (startswith (String c a) x) eqn:Hs.
    + intros [= <-]. rewrite find_unfold. by rewrite (startswith_append _ b _ Hs).
    + destruct (find a x) as [j |] eqn:Hj; [| done]. intros [= <-].
      rewrite append_cons, find_unfold, (IH j eq_refl).
      destruct (startswith (String c (a +:+ b)) x) eqn:Hs'; [| done].
      rewrite <- append_cons in Hs'. apply startswith_append_inv in Hs'.
      * congruence.
      * apply find_length in Hj. simpl. lia.
Qed.

Lemma finish_some data rest d logged rest' :
  finish data rest = Returned (Some d) logged rest' -> d = data.
Proof. unfold finish. destruct (is_empty data); [done | by intros [= <- _]]. Qed.

Lemma read_body_extends fuel sock data received content_length d logged rest :
  read_body fuel sock data received content_length = Returned (Some d) logged rest ->
  exists more, d = data +:+ more.
Proof.
  assert (forall data rest', finish data rest' = Returned (Some d) logged rest ->
                             exists more, d = data +:+ more) as Hfinish.
  { intros data0 rest0 ->%finish_some. exists EmptyString. by rewrite append_empty_r. }
  revert sock data received.
  induction fuel as [|fuel IH]; intros sock data received; simpl.
  - destruct (_ <? _); [done | apply Hfinish].
  - destruct (_ <? _); [| apply Hfinish].
    destruct (recv _ sock) as [[chunk | |] sock']; [| apply Hfinish | done].
    destruct (is_empty chunk); [apply Hfinish |].
    intros (more & ->)%IH. exists (chunk +:+ more). by rewrite append_assoc.
Qed.

Lemma receive_loop_bound fuel max_size sock data d logged rest :
  Z.of_nat (String.length data) <= Z.of_nat max_size + 4095 ->
  find data CRLFCRLF = None ->
  receive_loop fuel max_size sock data = Returned (Some d) logged rest ->
  Spec.declares_body d = false ->
  Z.of_nat (String.length d) <= Z.of_nat max_size + 4095.
Proof.
  revert sock data.
  induction fuel as [|fuel IH]; intros sock data Hlen Hnone; simpl.
  - destruct (_ <? _)%nat; [done |]. by intros ->%finish_some.
  - destruct (String.length data <? max_size)%nat eqn:Hroom;
      [| by intros ->%finish_some].
    apply Nat.ltb_lt in Hroom.
    destruct (recv 4096 sock) as [[chunk | |] sock'] eqn:Hrecv; [| | done].
    + apply recv_length in Hrecv.
      destruct (is_empty chunk); [by intros ->%finish_some |].
      assert (Z.of_nat (String.length (data +:+ chunk)) <= Z.of_nat max_size + 4095)
        as Hlen'.
      { rewrite length_append.
        assert (Z.of_nat (String.length chunk) <= 4096) as Hchunk
          by (apply Nat2Z.inj_le in Hrecv; exact Hrecv).
        lia. }
      destruct (find (data +:+ chunk) CRLFCRLF) as [header_end |] eqn:Hfind;
        [| by apply IH].
      destruct (0 <? _) eqn:Hbody; [| by intros ->%finish_some].
      intros (more & ->)%read_body_extends. unfold Spec.declares_body.
      rewrite (find_append _ more _ _ Hfind), take_append, Hbody; [done |].
      apply find_length in Hfind. lia.
    + destruct (is_empty data); [done | by intros ->%finish_some].
Qed.

(** Without a declared body the reader returns at most 8191 + 4096 bytes:
    the buffer is below [MAX_REQUEST] when the last [recv(4096)] is made. *)
Lemma receive_request_bound client_socket d logged rest :
  _receive_request client_socket = Returned (Some d) logged rest ->
  Spec.declares_body d = false ->
  Z.of_nat (String.length d) <= 8191 + 4096.
Proof.
  intros Hrecv Hbody. unfold _receive_request in Hrecv.
  apply receive_loop_bound in Hrecv; [| done | done | done].
  unfold MAX_REQUEST in Hrecv. rewrite Z2Nat.id in Hrecv; lia.
Qed.

End Reader.

(** ** C5: the size of what the reader returns *)

(** C5 says that, when the request declares no Content-Length body, the
    reader never returns more than [MAX_REQUEST] = 8192 bytes.  The code
    does: the client sends 4096 bytes, 4095 bytes and 4096 bytes, none of
    them part of a CRLF CRLF, and closes.  With 8191 bytes in the buffer the
    loop condition [len(data) < max_size] still holds and the third
    [recv(4096)] is appended whole, so the reader returns 12287 bytes.
    ([receive_request_bound] gives what the loop does ensure: at most
    8191 + 4096 bytes.) *)
Theorem C5_reader_returns_more_than_max_request :
  let segment n := ProxyServer.Data (Examples.repeat_string n "a") in
  let client_socket := [segment 4096%nat; segment 4095%nat; segment 4096%nat] in
  exists data,
    ProxyServer._receive_request client_socket = ProxyServer.Returned (Some data) false []
    /\ Spec.declares_body data = false
    /\ Z.of_nat (String.length data) = 12287
    /\ (ProxyServer.MAX_REQUEST < String.length data)%nat.
Proof.
  exists (Examples.repeat_string (Z.to_nat 12287) "a").
  split; [vm_compute; reflexivity |].
  split; [vm_compute; reflexivity |].
  split; [vm_compute; reflexivity |].
  apply Nat.ltb_lt. vm_compute. reflexivity.
Qed.

(** ** C2: a blocked request *)

(** C2: when the reader returns a request, the parser gives a record, the
    filter (after [reload_if_changed]) reports the host blocked and the
    client socket takes the write, the handler logs one BLOCKED event,
    sends the 403 response byte for byte, closes the client socket, and
    does nothing else before it releases its permit: no connection to the
    origin is attempted. *)
Theorem C2_blocked_request_gets_403
    (w : ProxyServer.world) (client_socket origin_socket : ProxyServer.socket)
    (fm : FilterManager.t) (request_data : string) (logged : bool)
    (rest : ProxyServer.socket) (r : HTTPParser.request) :
  ProxyServer._receive_request client_socket
    = ProxyServer.Returned (Some request_data) logged rest ->
  HTTPParser.parse_request request_data = Some r ->
  FilterManager.is_blocked
    (fst (FilterManager.reload_if_changed fm (ProxyServer.rules_file w)))
    (HTTPParser.host r) = true ->
  ProxyServer.client_writable w = true ->
  ProxyServer.handle w client_socket origin_socket fm =
  [ ProxyServer.log_blocked
      (fst (ProxyServer.client_address w)) (snd (ProxyServer.client_address w))
      (HTTPParser.host r) (HTTPParser.port r) (HTTPParser.request_line r);
    ProxyServer.client_sendall
      ("HTTP/1.1 403 Forbidden" +:+ CRLF +:+
       "Content-Type: text/plain" +:+ CRLF +:+
       "Content-Length: 13" +:+ CRLF +:+
       "Connection: close" +:+ CRLF +:+ CRLF +:+
       "Access Denied");
    ProxyServer.client_close;
    ProxyServer.client_close;
    ProxyServer.semaphore_release ].
Proof.
  intros Hrecv Hparse Hblocked Hwrite.
  assert (logged = false) as -> by (eapply receive_loop_some; exact Hrecv).
  unfold ProxyServer.handle, ProxyServer._handle_client, ProxyServer.finally,
    ProxyServer.try_except, ProxyServer.receive_request, ProxyServer.client_send.
  unfold mbind, ProxyServer.M_bind, ProxyServer.bind, ProxyServer.get,
    ProxyServer.set_client_in, ProxyServer.set_filter_manager, ProxyServer.emit,
    ProxyServer.ret.
  simpl. rewrite Hrecv. simpl. rewrite Hparse. simpl. rewrite Hblocked, Hwrite.
  reflexivity.
Qed.

(** C2 at a GET for [blocked.test] when the rules file lists it. *)
Lemma C2_blocked_request_gets_403_witness :
  let w := {| ProxyServer.client_address := ("10.0.0.7", 50123);
              ProxyServer.client_writable := true;
              ProxyServer.rules_file := Examples.rules_file 5000 ["blocked.test"];
              ProxyServer.connecting := ProxyServer.Connected;
              ProxyServer.selects := [] |} in
  let request_data :=
    Examples.http_request ["GET http://blocked.test/ HTTP/1.1"; "Host: blocked.test"] in
  exists r,
    ProxyServer._receive_request [ProxyServer.Data request_data]
      = ProxyServer.Returned (Some request_data) false []
    /\ HTTPParser.parse_request request_data = Some r
    /\ FilterManager.is_blocked
         (fst (FilterManager.reload_if_changed (Examples.filter_of [])
                 (ProxyServer.rules_file w))) (HTTPParser.host r) = true
    /\ ProxyServer.client_writable w = true
    /\ In (ProxyServer.client_sendall ProxyServer.RESPONSE_403)
         (ProxyServer.handle w [ProxyServer.Data request_data] [] (Examples.filter_of [])).
Proof.
  intros w request_data.
  destruct (HTTPParser.parse_request request_data) as [r |] eqn:Hparse;
    [| vm_compute in Hparse; discriminate].
  exists r.
  assert (ProxyServer._receive_request [ProxyServer.Data request_data]
          = ProxyServer.Returned (Some request_data) false []) as H1
    by (vm_compute; reflexivity).
  assert (FilterManager.is_blocked
            (fst (FilterManager.reload_if_changed (Examples.filter_of [])
                    (ProxyServer.rules_file w))) (HTTPParser.host r) = true) as H3.
  { vm_compute in Hparse. injection Hparse as <-. vm_compute. reflexivity. }
  assert (ProxyServer.client_writable w = true) as H4 by reflexivity.
  split; [exact H1 |]. split; [reflexivity |]. split; [exact H3 |]. split; [exact H4 |].
  rewrite (C2_blocked_request_gets_403 w _ [] (Examples.filter_of []) request_data
             false [] r H1 Hparse H3 H4).
  right. left. reflexivity.
Defined.

(** ** The request-line pattern *)

Section Pattern.
Import HTTPParser.
Context {A : Type}.

Lemma plus_greedy_inv p (s : string) (k : string -> option A) r :
  plus_greedy p s k = Some r ->
  exists a rest, s = a +:+ rest /\ a <> EmptyString
                 /\ forallb_string p a = true /\ k rest = Some r.
Proof.
  induction s as [|c s IH]; simpl; [done |].
  destruct (p c) eqn:Hc; [| done].
  destruct (plus_greedy p s k) as [r' |] eqn:Hrec.
  - intros [= ->]. destruct (IH eq_refl) as (a & rest & -> & _ & Ha & Hk).
    exists (String c a), rest. simpl. by rewrite Hc, Ha.
  - intros Hk. exists (String c EmptyString), s. simpl. by rewrite Hc.
Qed.

Lemma group_greedy_inv p (s : string) (k : string -> string -> option A) r :
  group_greedy p s k = Some r ->
  exists g rest, s = g +:+ rest /\ g <> EmptyString
                 /\ forallb_string p g = true /\ k g rest = Some r.
Proof.
  revert k. induction s as [|c s IH]; intros k; simpl; [done |].
  destruct (p c) eqn:Hc; [| done].
  destruct (group_greedy p s _) as [r' |] eqn:Hrec.
  - intros [= ->]. destruct (IH _ Hrec) as (g & rest & -> & _ & Hg & Hk).
    exists (String c g), rest. simpl. by rewrite Hc, Hg.
  - intros Hk. exists (String c EmptyString), s. simpl. by rewrite Hc.
Qed.

Lemma group_lazy_inv p (s : string) (k : string -> string -> option A) r :
  group_lazy p s k = Some r ->
  exists g rest, s = g +:+ rest /\ g <> EmptyString
                 /\ forallb_string p g = true /\ k g rest = Some r.
Proof.
  revert k. induction s as [|c s IH]; intros k; simpl; [done |].
  destruct (p c) eqn:Hc; [| done].
  destruct (k (String c EmptyString) s) as [r' |] eqn:Hk.
  - intros [= ->]. exists (String c EmptyString), s. simpl. by rewrite Hc.
  - intros Hrec. destruct (IH _ Hrec) as (g & rest & -> & _ & Hg & Hk').
    exists (String c g), rest. simpl. by rewrite Hc, Hg.
Qed.

End Pattern.

(** A match splits the line into letters, white space, the target, white
    space and the version. *)
Lemma match_request_line_inv line g1 target g3 :
  HTTPParser.match_request_line line = Some (g1, target, g3) ->
  exists w1 w2 tail,
    line = g1 +:+ w1 +:+ target +:+ w2 +:+ tail
    /\ g1 <> EmptyString /\ forallb_string is_letter g1 = true
    /\ w1 <> EmptyString /\ forallb_string isspace w1 = true
    /\ target <> EmptyString /\ forallb_string HTTPParser.re_dot target = true.
Proof.
  unfold HTTPParser.match_request_line. intros H.
  apply group_greedy_inv in H as (g & r1 & -> & Hg & Hgl & H).
  apply plus_greedy_inv in H as (w1 & r2 & -> & Hw1 & Hw1s & H).
  apply group_lazy_inv in H as (t & r3 & -> & Ht & Htd & H).
  apply plus_greedy_inv in H as (w2 & r4 & -> & _ & _ & H).
  destruct (HTTPParser.version_at_end r4); [| done].
  injection H as <- <- <-. by exists w1, w2, r4.
Qed.

(** ** Characters *)

Ltac each_character c :=
  destruct c as [[] [] [] [] [] [] [] []]; vm_compute;
  try congruence; auto; try (intuition congruence).

Lemma letter_not_space c : is_letter c = true -> isspace c = false.
Proof. each_character c. Qed.

Lemma upper_char_letter c : is_letter c = true -> is_upper_az (upper_char c) = true.
Proof. each_character c. Qed.

Lemma lower_char_idempotent c : lower_char (lower_char c) = lower_char c.
Proof. each_character c. Qed.

Lemma lower_char_eqb_percent c : Ascii.eqb (lower_char c) "%" = Ascii.eqb c "%".
Proof. each_character c. Qed.

Lemma digit_not_int_space c : is_digit c = true -> int_space c = false.
Proof. each_character c. Qed.

Lemma digit_not_sign c :
  is_digit c = true -> (code c =? 45)%N = false /\ (code c =? 43)%N = false.
Proof. each_character c. Qed.

Lemma digit_not_colon c : is_digit c = true -> Ascii.eqb c ":" = false.
Proof. each_character c. Qed.

Lemma digit_code c : is_digit c = true -> (48 <= code c)%N.
Proof.
  unfold is_digit, between. intros [H _]%andb_true_iff. by apply N.leb_le.
Qed.

Lemma lower_idempotent (s : string) : lower (lower s) = lower s.
Proof.
  induction s as [|c s IH]; [done |].
  unfold lower in *. simpl. by rewrite lower_char_idempotent, IH.
Qed.

Lemma upper_letters (g : string) :
  forallb_string is_letter g = true -> forallb_string is_upper_az (upper g) = true.
Proof.
  unfold upper. induction g as [|c g IH]; [done |]. simpl.
  intros [Hc Hg]%andb_true_iff. by rewrite (upper_char_letter _ Hc), (IH Hg).
Qed.

(** The method token of a line that starts with letters and white space. *)
Lemma method_token_letters (g : string) c (rest : string) :
  forallb_string is_letter g = true -> isspace c = true ->
  Spec.method_token (g +:+ String c rest) = g.
Proof.
  intros Hg Hc. induction g as [|d g IH].
  - simpl. by rewrite Hc.
  - rewrite append_cons. simpl in *. apply andb_true_iff in Hg as [Hd Hg].
    by rewrite (letter_not_space _ Hd), (IH Hg).
Qed.

Lemma forallb_existsb_string p (s : string) :
  forallb_string p s = true -> existsb_string (fun c => negb (p c)) s = false.
Proof.
  induction s as [|c s IH]; [done |]. simpl.
  intros [-> Hs]%andb_true_iff. by apply IH.
Qed.

(** ** [parse_request] *)

Section Parser.
Import HTTPParser.

(** What a record tells about the request it was parsed from. *)
Lemma parse_request_inv request_text r :
  parse_request_text request_text = Some r ->
  exists g1 target g3,
    match_request_line (Spec.request_line_of request_text) = Some (g1, target, g3)
    /\ method r = upper g1
    /\ request_line r = Spec.request_line_of request_text
    /\ headers r = parse_headers request_text
    /\ host r <> EmptyString
    /\ (if is_absolute target then resolve_absolute target
        else Some (resolve_relative (headers r) target))
       = Some (Some (host r), port r, path r).
Proof.
  unfold parse_request_text, Spec.request_line_of.
  destruct (split request_text CRLF) as [|line lines]; [done |]. simpl.
  destruct (match_request_line line) as [[[g1 target] g3] |]; [| done].
  intros H. exists g1, target, g3. split; [done |].
  destruct (if is_absolute target then _ else _) as [[[[h |] p] pa] |] eqn:Hres;
    [| done | done].
  destruct (is_empty h) eqn:Hh; [done |].
  injection H as <-. simpl. apply is_empty_false in Hh. done.
Qed.

(** The record of a request whose line matches the pattern. *)
Lemma parse_request_matched request_text g1 target g3 :
  match_request_line (Spec.request_line_of request_text) = Some (g1, target, g3) ->
  parse_request_text request_text =
  match (if is_absolute target then resolve_absolute target
         else Some (resolve_relative (parse_headers request_text) target)) with
  | Some (Some host, port, path) =>
      if is_empty host then None
      else Some {| method := upper g1; host := host; port := port; path := path;
                   request_line := Spec.request_line_of request_text;
                   headers := parse_headers request_text;
                   version := g3 |}
  | _ => None
  end.
Proof.
  unfold parse_request_text, Spec.request_line_of.
  destruct (split request_text CRLF) as [|line lines]; [done |]. simpl.
  intros ->. by destruct (if is_absolute target then _ else _) as [[[[h |] p] pa] |].
Qed.

End Parser.

(** ** C6: the method token *)

(** The handler on a request that does not parse: it logs the failure and
    closes the client socket, without any reply. *)
Lemma unparsed_request_is_rejected
    (w : ProxyServer.world) (client_socket origin_socket : ProxyServer.socket)
    (fm : FilterManager.t) (request_data : string) (logged : bool)
    (rest : ProxyServer.socket) :
  ProxyServer._receive_request client_socket
    = ProxyServer.Returned (Some request_data) logged rest ->
  HTTPParser.parse_request request_data = None ->
  ProxyServer.handle w client_socket origin_socket fm =
  [ ProxyServer.log_error (ProxyServer.ParseFailed (ProxyServer.client_address w));
    ProxyServer.client_close; ProxyServer.client_close;
    ProxyServer.semaphore_release ].
Proof.
  intros Hrecv Hparse.
  assert (logged = false) as -> by (eapply receive_loop_some; exact Hrecv).
  unfold ProxyServer.handle, ProxyServer._handle_client, ProxyServer.finally,
    ProxyServer.try_except, ProxyServer.receive_request.
  unfold mbind, ProxyServer.M_bind, ProxyServer.bind, ProxyServer.get,
    ProxyServer.set_client_in, ProxyServer.emit, ProxyServer.ret.
  simpl. rewrite Hrecv. simpl. by rewrite Hparse.
Qed.

(** C6, as stated, fails: the request line [get / HTTP/1.1], whose method
    token has no uppercase letter at all, is accepted, and the record's
    method is [GET]. *)
Lemma C6_lowercase_method_is_accepted :
  let request_data := Examples.http_request ["get / HTTP/1.1"; "Host: example.test"] in
  Spec.method_token (Spec.request_line_of (HTTPParser.decode request_data)) = "get"
  /\ existsb_string (fun c => negb (is_upper_az c)) "get" = true
  /\ (HTTPParser.method <$> HTTPParser.parse_request request_data) = Some "GET"
  /\ (HTTPParser.host <$> HTTPParser.parse_request request_data) = Some "example.test".
Proof. repeat split; vm_compute; reflexivity. Qed.

(** C6, amended: for a request whose bytes have no character above U+00FF,
    the pattern is matched without regard to case, so [parse_request]
    accepts a request line only when its method token is made of the
    letters A-Z and a-z: a request whose token has any other character
    gives no record, and the handler then rejects the connection: it logs
    the failure and closes the client socket without a reply; the method
    of a record is the token in upper case. *)
Theorem C6_method_is_a_token_of_letters (request_data : string) :
  HTTPParser.in_range request_data = true ->
  let token :=
    Spec.method_token (Spec.request_line_of (HTTPParser.decode request_data)) in
  (existsb_string (fun c => negb (is_letter c)) token = true ->
   HTTPParser.parse_request request_data = None
   /\ forall w client_socket origin_socket fm logged rest,
        ProxyServer._receive_request client_socket
          = ProxyServer.Returned (Some request_data) logged rest ->
        ProxyServer.handle w client_socket origin_socket fm =
        [ ProxyServer.log_error (ProxyServer.ParseFailed (ProxyServer.client_address w));
          ProxyServer.client_close; ProxyServer.client_close;
          ProxyServer.semaphore_release ])
  /\ (forall r, HTTPParser.parse_request request_data = Some r ->
        token <> EmptyString
        /\ forallb_string is_letter token = true
        /\ HTTPParser.method r = upper token
        /\ forallb_string is_upper_az (HTTPParser.method r) = true).
Proof.
  intros _ token.
  assert (forall r, HTTPParser.parse_request request_data = Some r ->
            token <> EmptyString /\ forallb_string is_letter token = true
            /\ HTTPParser.method r = upper token
            /\ forallb_string is_upper_az (HTTPParser.method r) = true) as Hsome.
  { unfold HTTPParser.parse_request.
    intros r (g1 & target & g3 & Hm & Hmethod & _)%parse_request_inv.
    apply match_request_line_inv in Hm
      as (w1 & w2 & tail & Hline & Hg1 & Hletters & Hw1 & Hspace & _).
    destruct w1 as [|c w1]; [done |]. simpl in Hspace.
    apply andb_true_iff in Hspace as [Hc _].
    assert (token = g1) as ->.
    { unfold token. rewrite Hline, append_cons. by apply method_token_letters. }
    rewrite Hmethod. repeat split; try done. by apply upper_letters. }
  split; [| exact Hsome].
  intros Hbad.
  assert (HTTPParser.parse_request request_data = None) as Hnone.
  { destruct (HTTPParser.parse_request request_data) as [r |] eqn:Hparse; [| done].
    destruct (Hsome r eq_refl) as (_ & Hletters & _).
    by rewrite (forallb_existsb_string _ _ Hletters) in Hbad. }
  split; [exact Hnone |].
  intros w client_socket origin_socket fm logged rest Hrecv.
  by eapply unparsed_request_is_rejected.
Qed.

(** The amended C6 at the method [G], U+00C9, [T], sent as the bytes
    47 C3 89 54: its second character is no letter of the pattern. *)
Lemma C6_method_is_a_token_of_letters_witness :
  let request_data :=
    Examples.http_request
      [String "G" (String (chr 195) (String (chr 137) "T / HTTP/1.1"));
       "Host: example.test"] in
  let w := {| ProxyServer.client_address := ("10.0.0.7", 50123);
              ProxyServer.client_writable := true;
              ProxyServer.rules_file := Examples.rules_file 5000 [];
              ProxyServer.connecting := ProxyServer.Connected;
              ProxyServer.selects := [] |} in
  HTTPParser.in_range request_data = true
  /\ Spec.method_token (Spec.request_line_of (HTTPParser.decode request_data))
     = String "G" (String (chr 201) "T")
  /\ HTTPParser.parse_request request_data = None
  /\ ProxyServer.handle w [ProxyServer.Data request_data] [] (Examples.filter_of [])
     = [ ProxyServer.log_error (ProxyServer.ParseFailed ("10.0.0.7", 50123));
         ProxyServer.client_close; ProxyServer.client_close;
         ProxyServer.semaphore_release ].
Proof.
  intros request_data w.
  assert (HTTPParser.in_range request_data = true) as Hrange by (vm_compute; reflexivity).
  assert (existsb_string (fun c => negb (is_letter c))
            (Spec.method_token (Spec.request_line_of (HTTPParser.decode request_data)))
          = true) as Hbad by (vm_compute; reflexivity).
  assert (ProxyServer._receive_request [ProxyServer.Data request_data]
          = ProxyServer.Returned (Some request_data) false []) as Hrecv
    by (vm_compute; reflexivity).
  destruct (proj1 (C6_method_is_a_token_of_letters request_data Hrange) Hbad)
    as [Hnone Hrejected].
  split; [exact Hrange |]. split; [vm_compute; reflexivity |].
  split; [exact Hnone |].
  exact (Hrejected w [ProxyServer.Data request_data] [] (Examples.filter_of []) false []
           Hrecv).
Defined.

(** ** Splitting at a character, and [int] on digits *)

Lemma partition_absent c (a : string) :
  forallb_string (fun x => negb (Ascii.eqb x c)) a = true ->
  partition c a = (a, false, EmptyString).
Proof.
  induction a as [|x a IH]; [done |]. simpl.
  intros [Hx Ha]%andb_true_iff. apply negb_true_iff in Hx. by rewrite Hx, (IH Ha).
Qed.

Lemma partition_present c (a b : string) :
  forallb_string (fun x => negb (Ascii.eqb x c)) a = true ->
  partition c (a +:+ String c b) = (a, true, b).
Proof.
  induction a as [|x a IH].
  - intros _. simpl. by rewrite Ascii.eqb_refl.
  - rewrite append_cons. simpl.
    intros [Hx Ha]%andb_true_iff. apply negb_true_iff in Hx. by rewrite Hx, (IH Ha).
Qed.

(** What [partition] returns: the separator is not in the first part. *)
Lemma partition_inv c (s a b : string) found :
  partition c s = (a, found, b) ->
  forallb_string (fun x => negb (Ascii.eqb x c)) a = true
  /\ (if found then s = a +:+ String c b else s = a /\ b = EmptyString).
Proof.
  revert a. induction s as [|x s IH]; intros a; simpl.
  - by intros [= <- <- <-].
  - destruct (Ascii.eqb x c) eqn:Hx.
    + apply Ascii.eqb_eq in Hx as ->. by intros [= <- <- <-].
    + destruct (partition c s) as [[a' found'] b'].
      intros [= <- <- <-]. destruct (IH a' eq_refl) as [Ha Hs].
      simpl. rewrite Hx, Ha. split; [done |].
      destruct found'; [by rewrite Hs | by destruct Hs as [-> ->]].
Qed.

Lemma rpartition_absent c (p : string) :
  forallb_string (fun x => negb (Ascii.eqb x c)) p = true ->
  rpartition c p = (EmptyString, false, p).
Proof.
  induction p as [|x p IH]; [done |]. simpl.
  intros [Hx Hp]%andb_true_iff. apply negb_true_iff in Hx. by rewrite (IH Hp), Hx.
Qed.

Lemma rpartition_last c (a p : string) :
  forallb_string (fun x => negb (Ascii.eqb x c)) p = true ->
  rpartition c (a +:+ String c p) = (a, true, p).
Proof.
  intros Hp. induction a as [|x a IH].
  - simpl. by rewrite (rpartition_absent _ _ Hp), Ascii.eqb_refl.
  - rewrite append_cons. simpl. by rewrite IH.
Qed.

(** What [rpartition] returns: the separator is not in the last part. *)
Lemma rpartition_inv c (s a b : string) found :
  rpartition c s = (a, found, b) ->
  has_char c b = false
  /\ (if found then s = a +:+ String c b else a = EmptyString /\ b = s).
Proof.
  unfold has_char. revert a found b. induction s as [|x s IH]; intros a found b; simpl.
  - by intros [= <- <- <-].
  - destruct (rpartition c s) as [[a' found'] b'].
    destruct (IH a' found' b' eq_refl) as [Hb' Hs]. destruct found'.
    + intros [= <- <- <-]. split; [done |]. by rewrite Hs.
    + destruct Hs as [-> ->]. destruct (Ascii.eqb x c) eqn:Hx.
      * apply Ascii.eqb_eq in Hx as ->. by intros [= <- <- <-].
      * intros [= <- <- <-]. simpl. by rewrite (Ascii.eqb_sym c x), Hx, Hb'.
Qed.

Lemma has_char_false c (s : string) :
  has_char c s = false -> forallb_string (fun x => negb (Ascii.eqb x c)) s = true.
Proof.
  unfold has_char. induction s as [| a s IH]; [done |]. simpl.
  intros [Ha Hs]%orb_false_iff. by rewrite (Ascii.eqb_sym a c), Ha, (IH Hs).
Qed.

Lemma has_char_append c (a b : string) : has_char c (a +:+ String c b) = true.
Proof.
  unfold has_char. induction a as [|x a IH].
  - simpl. by rewrite Ascii.eqb_refl.
  - rewrite append_cons. simpl. by rewrite IH, orb_true_r.
Qed.

Lemma digits_without_colon (p : string) :
  forallb_string is_digit p = true ->
  forallb_string (fun x => negb (Ascii.eqb x ":")) p = true.
Proof.
  induction p as [|c p IH]; [done |]. simpl.
  intros [Hc Hp]%andb_true_iff. by rewrite (digit_not_colon _ Hc), (IH Hp).
Qed.

Lemma rstrip_digits (s : string) :
  forallb_string is_digit s = true -> rstrip_by int_space s = s.
Proof.
  induction s as [|c s IH]; [done |]. simpl.
  intros [Hc Hs]%andb_true_iff. rewrite (IH Hs).
  destruct s; [by rewrite (digit_not_int_space _ Hc) | done].
Qed.

Lemma strip_digits (s : string) :
  forallb_string is_digit s = true -> strip_by int_space s = s.
Proof.
  intros Hs. unfold strip_by.
  replace (lstrip_by int_space s) with s; [by apply rstrip_digits |].
  destruct s as [|c s]; [done |]. simpl in *.
  apply andb_true_iff in Hs as [Hc _]. by rewrite (digit_not_int_space _ Hc).
Qed.

Lemma int_digits_value (s : string) (a : N) (n : nat) :
  forallb_string is_digit s = true ->
  int_digits s false (Z.of_N a) n
  = Some (Z.of_N (ipaddress.decimal_value s a), (n + String.length s)%nat).
Proof.
  revert a n. induction s as [|c s IH]; intros a n; simpl.
  - intros _. do 2 f_equal. lia.
  - intros [Hc Hs]%andb_true_iff. rewrite Hc.
    replace (10 * Z.of_N a + digit_value c) with (Z.of_N (10 * a + (code c - 48))).
    + rewrite (IH _ _ Hs). do 2 f_equal. lia.
    + pose proof (digit_code _ Hc). unfold digit_value. lia.
Qed.

(** [int] on a string of digits is its decimal value, up to the limit
    on the number of digits. *)
Lemma int_all_digits (p : string) :
  Spec.all_digits p = true ->
  int p = if (int_max_str_digits <? String.length p)%nat then None
          else Some (Spec.number p).
Proof.
  unfold Spec.all_digits, Spec.number.
  intros [Hne Hd]%andb_true_iff. apply negb_true_iff, is_empty_false in Hne.
  unfold int. rewrite (strip_digits _ Hd).
  destruct p as [|c p]; [done |].
  assert (is_digit c = true) as Hc by (simpl in Hd; by apply andb_true_iff in Hd as [? _]).
  destruct (digit_not_sign _ Hc) as [-> ->]. rewrite Hc.
  change 0 with (Z.of_N 0). by rewrite (int_digits_value _ _ _ Hd).
Qed.

(** ** Absolute-URI targets *)

Section Absolute.
Import HTTPParser.

Lemma lower_without_percent (h : string) :
  forallb_string (fun x => negb (Ascii.eqb x "%")) h = true ->
  forallb_string (fun x => negb (Ascii.eqb x "%")) (lower h) = true.
Proof.
  unfold lower. induction h as [|c h IH]; [done |]. simpl.
  intros [Hc Hh]%andb_true_iff. by rewrite lower_char_eqb_percent, Hc, (IH Hh).
Qed.

(** The [hostname] property is lower case up to a zone. *)
Lemma hostname_lower_case parsed h :
  urllib.hostname parsed = Some h -> Spec.lower_case_host h.
Proof.
  unfold urllib.hostname.
  destruct (is_empty _); [done |].
  destruct (partition "%" (fst (urllib.hostinfo (urllib.netloc parsed))))
    as [[name percent] zone] eqn:Hpart.
  apply partition_inv in Hpart as [Hname Hs].
  apply lower_without_percent in Hname.
  intros [= <-]. unfold Spec.lower_case_host. destruct percent.
  - change (lower name +:+ "%" +:+ zone) with (lower name +:+ String "%" zone).
    rewrite (partition_present _ _ _ Hname). apply lower_idempotent.
  - destruct Hs as [_ ->]. rewrite !append_empty_r.
    rewrite (partition_absent _ _ Hname). apply lower_idempotent.
Qed.

(** The [port] property is in 0..65535 when it is a number. *)
Lemma port_property_range parsed p :
  urllib.port parsed = Some (Some p) -> 0 <= p <= 65535.
Proof.
  unfold urllib.port.
  destruct (snd (urllib.hostinfo (urllib.netloc parsed))) as [text |]; [| done].
  destruct (forallb_string is_digit text); [| done].
  destruct (int text) as [v |]; [| done].
  destruct ((0 <=? v) && (v <=? 65535)) eqn:Hrange; [| done].
  intros [= <-]. apply andb_true_iff in Hrange as [?%Z.leb_le ?%Z.leb_le]. lia.
Qed.

Lemma resolve_absolute_inv target h p pa :
  resolve_absolute target = Some (Some h, p, pa) ->
  1 <= p <= 65535 /\ Spec.lower_case_host h.
Proof.
  unfold resolve_absolute.
  destruct (urllib.urlparse target) as [parsed |]; [| done].
  destruct (urllib.port parsed) as [parsed_port |] eqn:Hport; [| done].
  intros [= Hh <- _]. split; [| by eapply hostname_lower_case].
  destruct parsed_port as [q |].
  - apply port_property_range in Hport.
    destruct (q =? 0) eqn:Hq; [by destruct (String.eqb _ _) |].
    apply Z.eqb_neq in Hq. lia.
  - by destruct (String.eqb _ _).
Qed.

(** A written port above 65535 makes the [port] property raise. *)
Lemma resolve_absolute_large_port target p :
  Spec.written_port target = Some p ->
  Spec.all_digits p = true ->
  65535 < Spec.number p ->
  resolve_absolute target = None.
Proof.
  unfold Spec.written_port, resolve_absolute. intros Hw Hd Hlarge.
  destruct (urllib.urlparse target) as [parsed |]; [| done].
  unfold urllib.port. rewrite Hw.
  pose proof Hd as [_ ->]%andb_true_iff.
  rewrite (int_all_digits _ Hd).
  destruct (_ <? _)%nat; [done |].
  replace (Spec.number p <=? 65535) with false by (symmetry; apply Z.leb_gt; lia).
  by rewrite andb_false_r.
Qed.

End Absolute.

(** ** The written port of a URI *)

Section WrittenPort.
Import urllib.

Lemma digit_plain c : is_digit c = true -> Spec.plain_host_char c = true.
Proof. each_character c. Qed.

Lemma plain_host_facts c :
  Spec.plain_host_char c = true ->
  Spec.plain_netloc_char c = true
  /\ Ascii.eqb c "@" = false /\ Ascii.eqb c ":" = false.
Proof. each_character c. Qed.

Lemma plain_netloc_facts c :
  Spec.plain_netloc_char c = true ->
  is_delim c = false /\ unsafe_url_byte c = false
  /\ Ascii.eqb c "[" = false /\ Ascii.eqb "[" c = false /\ Ascii.eqb "]" c = false.
Proof. each_character c. Qed.

Lemma delim_not_unsafe c : is_delim c = true -> unsafe_url_byte c = false.
Proof. each_character c. Qed.

Lemma forallb_string_impl (p q : ascii -> bool) (s : string) :
  (forall c, p c = true -> q c = true) ->
  forallb_string p s = true -> forallb_string q s = true.
Proof.
  intros Hpq. induction s as [|c s IH]; [done |]. simpl.
  intros [Hc Hs]%andb_true_iff. by rewrite (Hpq _ Hc), (IH Hs).
Qed.

Lemma remove_chars_append p (a b : string) :
  remove_chars p (a +:+ b) = remove_chars p a +:+ remove_chars p b.
Proof.
  induction a as [|c a IH]; [done |].
  rewrite append_cons. simpl. destruct (p c); [done |]. by rewrite append_cons, IH.
Qed.

Lemma remove_chars_none p (s : string) :
  forallb_string (fun c => negb (p c)) s = true -> remove_chars p s = s.
Proof.
  induction s as [|c s IH]; [done |]. simpl.
  intros [Hc Hs]%andb_true_iff. apply negb_true_iff in Hc. by rewrite Hc, (IH Hs).
Qed.

Lemma starts_path_remove (rest : string) :
  Spec.starts_path rest = true ->
  Spec.starts_path (remove_chars unsafe_url_byte rest) = true.
Proof.
  destruct rest as [|c rest]; [done |]. simpl. intros Hc.
  by rewrite (delim_not_unsafe _ Hc).
Qed.

Lemma splitnetloc_plain (n rest : string) :
  forallb_string Spec.plain_netloc_char n = true ->
  Spec.starts_path rest = true ->
  splitnetloc (n +:+ rest) = (n, rest).
Proof.
  intros Hn Hrest. induction n as [|c n IH].
  - rewrite append_nil. destruct rest as [|c rest]; [done |].
    simpl in *. by rewrite Hrest.
  - rewrite append_cons. simpl in *. apply andb_true_iff in Hn as [Hc Hn].
    destruct (plain_netloc_facts _ Hc) as (-> & _). by rewrite (IH Hn).
Qed.

Lemma has_char_absent c (s : string) :
  forallb_string (fun x => negb (Ascii.eqb c x)) s = true -> has_char c s = false.
Proof.
  unfold has_char. induction s as [|x s IH]; [done |]. simpl.
  intros [Hx Hs]%andb_true_iff. apply negb_true_iff in Hx. by rewrite Hx, (IH Hs).
Qed.


Lemma find_char_first c (a b : string) :
  forallb_string (fun x => negb (Ascii.eqb c x)) a = true ->
  find (a +:+ String c b) (String c EmptyString) = Some (String.length a).
Proof.
  induction a as [|x a IH].
  - intros _. rewrite append_nil. unfold find.
    by rewrite startswith_cons, Ascii.eqb_refl, startswith_nil.
  - rewrite append_cons. simpl forallb_string.
    intros [Hx Ha]%andb_true_iff. apply negb_true_iff in Hx.
    change (find (String x (a +:+ String c b)) (String c EmptyString))
      with (if startswith (String x (a +:+ String c b)) (String c EmptyString)
            then Some O else S <$> find (a +:+ String c b) (String c EmptyString)).
    by rewrite startswith_cons, Hx, (IH Ha).
Qed.

Lemma urlsplit_plain scheme n rest :
  scheme = "http" \/ scheme = "https" ->
  forallb_string Spec.plain_netloc_char n = true ->
  Spec.starts_path rest = true ->
  exists path query fragment,
    urlsplit (scheme +:+ "://" +:+ n +:+ rest) = Some (scheme, n, path, query, fragment).
Proof.
  intros Hscheme Hn Hrest. unfold urlsplit.
  assert (lstrip_by c0_control_or_space (scheme +:+ "://" +:+ n +:+ rest)
          = scheme +:+ "://" +:+ n +:+ rest) as ->
    by (destruct Hscheme as [-> | ->]; reflexivity).
  rewrite !remove_chars_append.
  rewrite (remove_chars_none _ n)
    by (revert Hn; apply forallb_string_impl; intros c Hc;
        by destruct (plain_netloc_facts _ Hc) as (_ & -> & _)).
  apply starts_path_remove in Hrest.
  set (rest' := remove_chars unsafe_url_byte rest) in *. clearbody rest'.
  assert (has_char "[" n = false) as Hopen.
  { apply has_char_absent. revert Hn. apply forallb_string_impl. intros c Hc.
    by destruct (plain_netloc_facts _ Hc) as (_ & _ & _ & -> & _). }
  assert (has_char "]" n = false) as Hclose.
  { apply has_char_absent. revert Hn. apply forallb_string_impl. intros c Hc.
    by destruct (plain_netloc_facts _ Hc) as (_ & _ & _ & _ & ->). }
  destruct Hscheme as [-> | ->].
  - change (remove_chars unsafe_url_byte "http" +:+ remove_chars unsafe_url_byte "://"
            +:+ n +:+ rest')
      with ("http" +:+ String ":" ("//" +:+ n +:+ rest')).
    rewrite (find_char_first ":" "http" _ eq_refl).
    change (String.length "http") with 4%nat. cbv iota beta.
    change (take 4 ("http" +:+ String ":" ("//" +:+ n +:+ rest'))) with "http".
    change (drop 5 ("http" +:+ String ":" ("//" +:+ n +:+ rest')))
      with ("//" +:+ n +:+ rest').
    change (match "http" +:+ String ":" ("//" +:+ n +:+ rest') with
            | String c _ => is_letter c | _ => false end) with true.
    change (true && forallb_string scheme_char "http") with true. cbv iota beta.
    change (startswith ("//" +:+ n +:+ rest') "//") with (startswith (n +:+ rest') "").
    rewrite startswith_nil.
    change (drop 2 ("//" +:+ n +:+ rest')) with (n +:+ rest').
    rewrite (splitnetloc_plain _ _ Hn Hrest), Hopen, Hclose. simpl.
    destruct (split_once "#" rest') as [u f]. destruct (split_once "?" u) as [u' q].
    by exists u', q, f.
  - change (remove_chars unsafe_url_byte "https" +:+ remove_chars unsafe_url_byte "://"
            +:+ n +:+ rest')
      with ("https" +:+ String ":" ("//" +:+ n +:+ rest')).
    rewrite (find_char_first ":" "https" _ eq_refl).
    change (String.length "https") with 5%nat. cbv iota beta.
    change (take 5 ("https" +:+ String ":" ("//" +:+ n +:+ rest'))) with "https".
    change (drop 6 ("https" +:+ String ":" ("//" +:+ n +:+ rest')))
      with ("//" +:+ n +:+ rest').
    change (match "https" +:+ String ":" ("//" +:+ n +:+ rest') with
            | String c _ => is_letter c | _ => false end) with true.
    change (true && forallb_string scheme_char "https") with true. cbv iota beta.
    change (startswith ("//" +:+ n +:+ rest') "//") with (startswith (n +:+ rest') "").
    rewrite startswith_nil.
    change (drop 2 ("//" +:+ n +:+ rest')) with (n +:+ rest').
    rewrite (splitnetloc_plain _ _ Hn Hrest), Hopen, Hclose. simpl.
    destruct (split_once "#" rest') as [u f]. destruct (split_once "?" u) as [u' q].
    by exists u', q, f.
Qed.

(** [_hostinfo] on [host:port]. *)
Lemma hostinfo_host_port (h p : string) :
  Spec.plain_host h = true ->
  Spec.all_digits p = true ->
  hostinfo (h +:+ ":" +:+ p) = (h, Some p).
Proof.
  intros Hh [Hne Hp]%andb_true_iff. unfold hostinfo.
  assert (forallb_string (fun x => negb (Ascii.eqb x "@")) (h +:+ ":" +:+ p) = true) as Hat.
  { rewrite !forallb_string_append, !andb_true_iff. split; [| split].
    - revert Hh. apply forallb_string_impl. intros c Hc.
      by destruct (plain_host_facts _ Hc) as (_ & -> & _).
    - done.
    - revert Hp. apply forallb_string_impl. intros c Hc.
      by destruct (plain_host_facts _ (digit_plain _ Hc)) as (_ & -> & _). }
  rewrite (rpartition_absent _ _ Hat).
  assert (forallb_string (fun x => negb (Ascii.eqb x "[")) (h +:+ ":" +:+ p) = true) as Hbr.
  { rewrite !forallb_string_append, !andb_true_iff. split; [| split].
    - revert Hh. apply forallb_string_impl. intros c Hc.
      destruct (plain_host_facts _ Hc) as (Hn & _).
      by destruct (plain_netloc_facts _ Hn) as (_ & _ & -> & _).
    - done.
    - revert Hp. apply forallb_string_impl. intros c Hc.
      destruct (plain_host_facts _ (digit_plain _ Hc)) as (Hn & _).
      by destruct (plain_netloc_facts _ Hn) as (_ & _ & -> & _). }
  rewrite (partition_absent _ _ Hbr).
  change (h +:+ ":" +:+ p) with (h +:+ String ":" p).
  rewrite partition_present.
  - apply negb_true_iff in Hne. by rewrite Hne.
  - revert Hh. apply forallb_string_impl. intros c Hc.
    by destruct (plain_host_facts _ Hc) as (_ & _ & ->).
Qed.

(** The written port of [scheme://host:port...] is [port]. *)
Lemma written_port_of_uri (scheme h p rest : string) :
  scheme = "http" \/ scheme = "https" ->
  Spec.plain_host h = true ->
  Spec.all_digits p = true ->
  Spec.starts_path rest = true ->
  Spec.written_port (scheme +:+ "://" +:+ h +:+ ":" +:+ p +:+ rest) = Some p.
Proof.
  intros Hscheme Hh Hp Hrest. unfold Spec.written_port, urlparse.
  assert (forallb_string Spec.plain_netloc_char (h +:+ ":" +:+ p) = true) as Hn.
  { pose proof Hp as [_ Hd]%andb_true_iff.
    rewrite !forallb_string_append, !andb_true_iff. split; [| split].
    - revert Hh. apply forallb_string_impl. intros c Hc.
      by destruct (plain_host_facts _ Hc) as (-> & _).
    - done.
    - revert Hd. apply forallb_string_impl. intros c Hc.
      by destruct (plain_host_facts _ (digit_plain _ Hc)) as (-> & _). }
  replace (scheme +:+ "://" +:+ h +:+ ":" +:+ p +:+ rest)
    with (scheme +:+ "://" +:+ (h +:+ ":" +:+ p) +:+ rest)
    by (by rewrite !append_assoc).
  destruct (urlsplit_plain scheme _ rest Hscheme Hn Hrest) as (pa & q & f & ->).
  destruct (existsb _ _ && _); [destruct (splitparams pa) |]; simpl;
    by rewrite (hostinfo_host_port _ _ Hh Hp).
Qed.

End WrittenPort.

(** ** C7: the invariants of a request record *)

(** C7, as stated, fails: the origin-form request with the header
    [Host: Example.COM:99999] gives a record whose host [Example.COM] is
    not lower case and whose port 99999 is above 65535. *)
Lemma C7_host_header_is_kept_as_written :
  let request_data :=
    Examples.http_request ["GET / HTTP/1.1"; "Host: Example.COM:99999"] in
  (HTTPParser.host <$> HTTPParser.parse_request request_data) = Some "Example.COM"
  /\ lower "Example.COM" <> "Example.COM"
  /\ (HTTPParser.port <$> HTTPParser.parse_request request_data) = Some 99999
  /\ ~ (1 <= 99999 <= 65535).
Proof.
  split; [vm_compute; reflexivity |].
  split; [vm_compute; discriminate |].
  split; [vm_compute; reflexivity | lia].
Qed.

(** The [Host]-header branch, read back from its result: the header is
    there, and host and port are its two sides at the last colon. *)
Lemma resolve_relative_inv (headers : gmap string string) (target h pa : string) (p : Z) :
  HTTPParser.resolve_relative headers target = (Some h, p, pa) ->
  h <> EmptyString ->
  pa = target
  /\ exists host_header,
       headers !! "host" = Some host_header
       /\ if has_char ":" host_header
          then exists port_str,
                 host_header = h +:+ ":" +:+ port_str
                 /\ has_char ":" port_str = false
                 /\ p = default 80 (int port_str)
          else h = host_header /\ p = 80.
Proof.
  unfold HTTPParser.resolve_relative. intros Hres Hne.
  destruct (headers !! "host") as [host_header |] eqn:Hhost; simpl in Hres.
  - destruct (has_char ":" host_header) eqn:Hcolon.
    + destruct (rpartition ":" host_header) as [[a found] b] eqn:Hpart.
      injection Hres as -> <- <-. split; [done |].
      exists host_header. split; [done |]. rewrite Hcolon.
      destruct (rpartition_inv _ _ _ _ _ Hpart) as [Hb Hs]. destruct found.
      * by exists b.
      * destruct Hs as [-> ->]. by rewrite Hb in Hcolon.
    + injection Hres as <- <- <-. split; [done |].
      exists host_header. by rewrite Hcolon.
  - injection Hres as <- _ _. by destruct Hne.
Qed.

(** C7, amended: every record has a non-empty host.  For an absolute-URI
    target the port lies in 1..65535 and the host is lower case (up to an
    IPv6 zone, the text after a [%], which [urlparse] keeps as written).
    For any other target the path is the target, the [Host] header is
    there, and host and port are what it says: without a colon the host
    is its value as written and the port is 80; with one, the host is the
    text before its last colon as written, and the port is [int] of the
    text after it, 80 when [int] does not take that text: for a text of
    digits (no more than [int] takes) its decimal value, whatever it
    is. *)
Theorem C7_record_invariants (request_text : string) (r : HTTPParser.request) :
  HTTPParser.parse_request_text request_text = Some r ->
  HTTPParser.host r <> EmptyString
  /\ exists target,
       Spec.request_target request_text = Some target
       /\ (HTTPParser.is_absolute target = true ->
           1 <= HTTPParser.port r <= 65535 /\ Spec.lower_case_host (HTTPParser.host r))
       /\ (HTTPParser.is_absolute target = false ->
           HTTPParser.path r = target
           /\ exists host_header,
                Spec.host_header request_text = Some host_header
                /\ if has_char ":" host_header
                   then exists port_str,
                          host_header = HTTPParser.host r +:+ ":" +:+ port_str
                          /\ has_char ":" port_str = false
                          /\ HTTPParser.port r = default 80 (int port_str)
                          /\ (Spec.all_digits port_str = true ->
                              (String.length port_str <= int_max_str_digits)%nat ->
                              HTTPParser.port r = Spec.number port_str)
                   else HTTPParser.host r = host_header /\ HTTPParser.port r = 80).
Proof.
  intros (g1 & target & g3 & Hm & _ & _ & Hheaders & Hhost & Hres)%parse_request_inv.
  split; [exact Hhost |]. exists target.
  split; [unfold Spec.request_target; by rewrite Hm |].
  split; intros Habs; rewrite Habs in Hres.
  - by eapply resolve_absolute_inv.
  - injection Hres as Hres.
    destruct (resolve_relative_inv _ _ _ _ _ Hres Hhost) as (Hpath & hh & Hhh & Hsplit).
    split; [exact Hpath |]. exists hh.
    split; [unfold Spec.host_header; by rewrite <- Hheaders |].
    destruct (has_char ":" hh); [| exact Hsplit].
    destruct Hsplit as (q & Hq & Hcolon & Hport). exists q.
    do 3 (split; [done |]). intros Hdigits Hlen.
    rewrite Hport, (int_all_digits _ Hdigits).
    by destruct (Nat.ltb_spec int_max_str_digits (String.length q)); [lia |].
Qed.

(** The amended C7 at an origin-form request, whose [Host] header has
    upper-case letters and a port above 65535, and at an absolute-URI
    request. *)
Lemma C7_record_invariants_witness :
  (let request_text :=
     Examples.http_request ["GET /index HTTP/1.1"; "Host: Example.COM:99999"] in
   exists r,
     HTTPParser.parse_request_text request_text = Some r
     /\ HTTPParser.host r = "Example.COM"
     /\ HTTPParser.port r = 99999
     /\ HTTPParser.path r = "/index")
  /\ (let request_text :=
        Examples.http_request
          ["GET http://Example.COM:8080/x HTTP/1.1"; "Host: example.com"] in
      exists r,
        HTTPParser.parse_request_text request_text = Some r
        /\ HTTPParser.host r <> EmptyString
        /\ 1 <= HTTPParser.port r <= 65535
        /\ Spec.lower_case_host (HTTPParser.host r)).
Proof.
  split; intros request_text.
  - destruct (HTTPParser.parse_request_text request_text) as [r |] eqn:Hparse;
      [| vm_compute in Hparse; discriminate].
    exists r. split; [reflexivity |].
    destruct (C7_record_invariants request_text r Hparse)
      as (_ & target & Htarget & _ & Hrelative).
    assert (target = "/index") as -> by (vm_compute in Htarget; by injection Htarget).
    destruct (Hrelative eq_refl) as (Hpath & hh & Hhh & Hsplit).
    assert (hh = "Example.COM:99999") as -> by (vm_compute in Hhh; by injection Hhh).
    change (has_char ":" "Example.COM:99999") with true in Hsplit.
    destruct Hsplit as (q & Hq & Hcolon & _ & Hport).
    pose proof (rpartition_last ":" (HTTPParser.host r) q) as Hlast.
    change (HTTPParser.host r +:+ ":" +:+ q)
      with (HTTPParser.host r +:+ String ":" q) in Hq.
    rewrite <- Hq in Hlast. vm_compute in Hlast.
    injection (Hlast (has_char_false _ _ Hcolon)) as Hh Hp. subst q.
    split; [symmetry; exact Hh |]. split; [| exact Hpath].
    apply Hport; [reflexivity | vm_compute; lia].
  - destruct (HTTPParser.parse_request_text request_text) as [r |] eqn:Hparse;
      [| vm_compute in Hparse; discriminate].
    exists r. split; [reflexivity |].
    destruct (C7_record_invariants request_text r Hparse)
      as (Hhost & target & Htarget & Habsolute & _).
    assert (target = "http://Example.COM:8080/x") as ->
      by (vm_compute in Htarget; by injection Htarget).
    split; [exact Hhost |]. exact (Habsolute eq_refl).
Defined.

(** ** C8: ports out of range in an absolute URI *)

(** C8, as stated, fails: the target [http://example.com:0/] with the
    written port 0 gives a record; its port is the default 80. *)
Lemma C8_port_zero_is_accepted :
  let request_data := Examples.http_request ["GET http://example.com:0/ HTTP/1.1"] in
  Spec.request_target (HTTPParser.decode request_data) = Some "http://example.com:0/"
  /\ Spec.written_port "http://example.com:0/" = Some "0"
  /\ (HTTPParser.host <$> HTTPParser.parse_request request_data) = Some "example.com"
  /\ (HTTPParser.port <$> HTTPParser.parse_request request_data) = Some 80.
Proof. repeat split; vm_compute; reflexivity. Qed.

(** C8, amended: for every absolute-URI request-target whose written port
    is a number above 65535, [parse_request] returns no record.  The written
    port is the port text of the URI's authority; for a target of the shape
    [scheme://host:port...] it is [port], by [written_port_of_uri]. *)
Theorem C8_port_above_65535_fails (request_text target p : string) :
  Spec.request_target request_text = Some target ->
  HTTPParser.is_absolute target = true ->
  Spec.written_port target = Some p ->
  Spec.all_digits p = true ->
  65535 < Spec.number p ->
  HTTPParser.parse_request_text request_text = None.
Proof.
  intros Htarget Habs Hport Hdigits Hlarge.
  destruct (HTTPParser.parse_request_text request_text) as [r |] eqn:Hparse; [| done].
  apply parse_request_inv in Hparse as (g1 & t & g3 & Hm & _ & _ & _ & _ & Hres).
  unfold Spec.request_target in Htarget. rewrite Hm in Htarget.
  injection Htarget as ->. rewrite Habs in Hres.
  by rewrite (resolve_absolute_large_port _ _ Hport Hdigits Hlarge) in Hres.
Qed.

(** The amended C8 at the written port 65536. *)
Lemma C8_port_above_65535_fails_witness :
  let request_text := Examples.http_request ["GET http://example.com:65536/ HTTP/1.1"] in
  Spec.request_target request_text = Some "http://example.com:65536/"
  /\ HTTPParser.is_absolute "http://example.com:65536/" = true
  /\ Spec.written_port "http://example.com:65536/" = Some "65536"
  /\ Spec.all_digits "65536" = true
  /\ 65535 < Spec.number "65536"
  /\ HTTPParser.parse_request_text request_text = None.
Proof.
  intros request_text.
  assert (Spec.request_target request_text = Some "http://example.com:65536/") as H1
    by (vm_compute; reflexivity).
  assert (HTTPParser.is_absolute "http://example.com:65536/" = true) as H2
    by (vm_compute; reflexivity).
  assert (Spec.written_port "http://example.com:65536/" = Some "65536") as H3
    by (vm_compute; reflexivity).
  assert (Spec.all_digits "65536" = true) as H4 by (vm_compute; reflexivity).
  assert (65535 < Spec.number "65536") as H5 by (vm_compute; reflexivity).
  repeat (split; [assumption |]).
  exact (C8_port_above_65535_fails request_text _ _ H1 H2 H3 H4 H5).
Defined.

(** ** C9: a bracketed IPv6 literal in the Host header *)

(** C9, as stated, fails: for [Host: [::1]:8080] the port is 8080 but the
    record's host is [[::1]], brackets included, not [::1]. *)
Lemma C9_brackets_are_kept :
  let request_data := Examples.http_request ["GET / HTTP/1.1"; "Host: [::1]:8080"] in
  (HTTPParser.host <$> HTTPParser.parse_request request_data) = Some "[::1]"
  /\ "[::1]" <> "::1"
  /\ (HTTPParser.port <$> HTTPParser.parse_request request_data) = Some 8080.
Proof.
  split; [vm_compute; reflexivity |].
  split; [discriminate | vm_compute; reflexivity].
Qed.

(** C9, amended: for every origin-form request whose Host header is a
    bracketed literal with a port, [[literal]:port], the header is split at
    its last colon: the request parses, the record's host is [[literal]]
    with the brackets, and the port is the number written (of at most 4300
    digits, the most that [int] takes). *)
Theorem C9_bracketed_host_keeps_brackets (request_text target literal p : string) :
  Spec.request_target request_text = Some target ->
  HTTPParser.is_absolute target = false ->
  Spec.host_header request_text = Some ("[" +:+ literal +:+ "]:" +:+ p) ->
  Spec.all_digits p = true ->
  (String.length p <= int_max_str_digits)%nat ->
  exists r,
    HTTPParser.parse_request_text request_text = Some r
    /\ HTTPParser.host r = "[" +:+ literal +:+ "]"
    /\ HTTPParser.host r <> literal
    /\ HTTPParser.port r = Spec.number p.
Proof.
  intros Htarget Habs Hhost Hdigits Hlen.
  unfold Spec.request_target in Htarget.
  destruct (HTTPParser.match_request_line _) as [[[g1 t] g3] |] eqn:Hm; [| done].
  injection Htarget as ->.
  rewrite (parse_request_matched _ _ _ _ Hm), Habs.
  unfold HTTPParser.resolve_relative. unfold Spec.host_header in Hhost. rewrite Hhost.
  cbv beta iota delta [default from_option id].
  replace ("[" +:+ literal +:+ "]:" +:+ p)
    with (("[" +:+ literal +:+ "]") +:+ String ":" p)
    by (by rewrite !append_assoc).
  pose proof Hdigits as [_ Hd]%andb_true_iff.
  rewrite has_char_append, (rpartition_last _ _ _ (digits_without_colon _ Hd)).
  rewrite (int_all_digits _ Hdigits).
  replace (int_max_str_digits <? String.length p)%nat with false
    by (symmetry; apply Nat.ltb_ge; lia).
  eexists. split; [reflexivity |]. simpl. repeat split.
  intros Heq. apply (f_equal String.length) in Heq.
  rewrite append_cons, append_nil in Heq. simpl in Heq.
  rewrite length_append in Heq. simpl in Heq. lia.
Qed.

(** The amended C9 at [Host: [::1]:8080]. *)
Lemma C9_bracketed_host_keeps_brackets_witness :
  let request_text := Examples.http_request ["GET / HTTP/1.1"; "Host: [::1]:8080"] in
  Spec.request_target request_text = Some "/"
  /\ HTTPParser.is_absolute "/" = false
  /\ Spec.host_header request_text = Some ("[" +:+ "::1" +:+ "]:" +:+ "8080")
  /\ Spec.all_digits "8080" = true
  /\ (String.length "8080" <= int_max_str_digits)%nat
  /\ exists r,
       HTTPParser.parse_request_text request_text = Some r
       /\ HTTPParser.host r = "[" +:+ "::1" +:+ "]"
       /\ HTTPParser.host r <> "::1"
       /\ HTTPParser.port r = Spec.number "8080".
Proof.
  intros request_text.
  assert (Spec.request_target request_text = Some "/") as H1 by (vm_compute; reflexivity).
  assert (HTTPParser.is_absolute "/" = false) as H2 by (vm_compute; reflexivity).
  assert (Spec.host_header request_text = Some ("[" +:+ "::1" +:+ "]:" +:+ "8080")) as H3
    by (vm_compute; reflexivity).
  assert (Spec.all_digits "8080" = true) as H4 by (vm_compute; reflexivity).
  assert (String.length "8080" <= int_max_str_digits)%nat as H5
    by (apply Nat.leb_le; vm_compute; reflexivity).
  repeat (split; [assumption |]).
  exact (C9_bracketed_host_keeps_brackets request_text "/" "::1" "8080" H1 H2 H3 H4 H5).
Defined.

(** * Further properties of the code *)

(** ** Normal forms of hosts *)

Lemma isspace_lower_char c : isspace (lower_char c) = isspace c.
Proof. each_character c. Qed.

Lemma lstrip_map p f (s : string) :
  (forall c, p (f c) = p c) ->
  lstrip_by p (map_string f s) = map_string f (lstrip_by p s).
Proof.
  intros Hp. induction s as [| c s IH]; [reflexivity |].
  simpl. rewrite Hp. by destruct (p c).
Qed.

Lemma rstrip_map p f (s : string) :
  (forall c, p (f c) = p c) ->
  rstrip_by p (map_string f s) = map_string f (rstrip_by p s).
Proof.
  intros Hp. induction s as [| c s IH]; [reflexivity |].
  simpl. rewrite IH, Hp.
  destruct (rstrip_by p s); simpl; [by destruct (p c) | reflexivity].
Qed.

Lemma lower_strip (s : string) : lower (strip s) = strip (lower s).
Proof.
  unfold strip, strip_by, lower.
  rewrite lstrip_map, rstrip_map; auto using isspace_lower_char.
Qed.

Lemma rstrip_idempotent p (s : string) : rstrip_by p (rstrip_by p s) = rstrip_by p s.
Proof.
  induction s as [| c s IH]; [reflexivity |].
  simpl. destruct (rstrip_by p s) as [| a r] eqn:Hr.
  - destruct (p c) eqn:Hc; [reflexivity |]. simpl. by rewrite Hc.
  - change (rstrip_by p (String c (String a r))) with
      (match rstrip_by p (String a r) with
       | EmptyString => if p c then EmptyString else String c EmptyString
       | x => String c x
       end).
    by rewrite IH.
Qed.

Lemma lstrip_head p (s : string) :
  lstrip_by p s = EmptyString
  \/ exists c r, lstrip_by p s = String c r /\ p c = false.
Proof.
  induction s as [| c s IH]; [by left |].
  simpl. destruct (p c) eqn:Hc; [exact IH | right; eauto].
Qed.

Lemma strip_idempotent p (s : string) : strip_by p (strip_by p s) = strip_by p s.
Proof.
  unfold strip_by.
  destruct (lstrip_head p s) as [-> | (c & r & -> & Hc)]; [reflexivity |].
  destruct (rstrip_keeps_head p c r Hc) as [r' Hr'].
  rewrite Hr'. simpl lstrip_by. rewrite Hc, <- Hr'. apply rstrip_idempotent.
Qed.

Lemma normalise_idempotent (host : string) :
  Spec.normalise (Spec.normalise host) = Spec.normalise host.
Proof.
  unfold Spec.normalise.
  rewrite (lower_strip (lower host)), lower_idempotent.
  apply strip_idempotent.
Qed.

(** ** [src/filter_manager.py]: rules added, loaded and reloaded *)

Section FilterRules.
Import FilterManager.

Lemma existsb_suffix_mono (l l' : list string) (f : string -> bool) :
  (forall s, s ∈ l -> s ∈ l') -> existsb f l = true -> existsb f l' = true.
Proof.
  intros Hsub H. apply existsb_exists in H as (s & Hin & Hs).
  apply existsb_exists. exists s. split; [| exact Hs].
  apply list_elem_of_In, Hsub, list_elem_of_In, Hin.
Qed.

(** A host that is blocked stays blocked when the three collections grow. *)
Lemma is_blocked_mono fm fm' host :
  blocked_ips fm ⊆ blocked_ips fm' ->
  blocked_domains fm ⊆ blocked_domains fm' ->
  (forall s, s ∈ blocked_suffixes fm -> s ∈ blocked_suffixes fm') ->
  is_blocked fm host = true -> is_blocked fm' host = true.
Proof.
  intros Hi Hd Hs. unfold is_blocked.
  destruct (is_empty host); [done |].
  set (h := strip (lower host)).
  destruct (bool_decide_reflect (h ∈ blocked_ips fm')) as [| Hn']; [done |].
  destruct (bool_decide_reflect (h ∈ blocked_ips fm)) as [Hin |]; [set_solver |].
  destruct (ipaddress.ip_address h) as [ip |].
  - destruct (bool_decide_reflect (ipaddress.str ip ∈ blocked_ips fm')); [done |].
    destruct (bool_decide_reflect (ipaddress.str ip ∈ blocked_ips fm)); [set_solver |].
    destruct (bool_decide_reflect (h ∈ blocked_domains fm')); [done |].
    destruct (bool_decide_reflect (h ∈ blocked_domains fm)); [set_solver |].
    by apply existsb_suffix_mono.
  - destruct (bool_decide_reflect (h ∈ blocked_domains fm')); [done |].
    destruct (bool_decide_reflect (h ∈ blocked_domains fm)); [set_solver |].
    by apply existsb_suffix_mono.
Qed.

(** A host whose normal form is an entry of [blocked_domains] is blocked. *)
Lemma is_blocked_domain_entry fm host :
  host <> EmptyString ->
  Spec.normalise host ∈ blocked_domains fm ->
  is_blocked fm host = true.
Proof.
  intros Hne Hin. unfold is_blocked. apply is_empty_false in Hne. rewrite Hne.
  fold (Spec.normalise host).
  destruct (bool_decide (Spec.normalise host ∈ blocked_ips fm)); [done |].
  destruct (match ipaddress.ip_address (Spec.normalise host) with
            | Some ip => bool_decide (ipaddress.str ip ∈ blocked_ips fm)
            | None => false
            end); [done |].
  by rewrite bool_decide_eq_true_2.
Qed.

(** A host whose normal form, or the canonical text of the address it
    parses to, is an entry of [blocked_ips] is blocked. *)
Lemma is_blocked_ip_entry fm host ip :
  host <> EmptyString ->
  ip ∈ blocked_ips fm ->
  Spec.normalise host = ip \/ Spec.canonical (Spec.normalise host) = Some ip ->
  is_blocked fm host = true.
Proof.
  intros Hne Hin Hip. unfold is_blocked. apply is_empty_false in Hne. rewrite Hne.
  fold (Spec.normalise host).
  destruct (bool_decide_reflect (Spec.normalise host ∈ blocked_ips fm)) as [| Hn];
    [done |].
  destruct Hip as [Heq | Hcan]; [by rewrite Heq in Hn |].
  unfold Spec.canonical in Hcan.
  destruct (ipaddress.ip_address (Spec.normalise host)) as [a |]; [| done].
  simpl in Hcan. injection Hcan as <-. by rewrite bool_decide_eq_true_2.
Qed.

(** A host whose normal form is a suffix entry, or ends with a dot and a
    suffix entry, is blocked. *)
Lemma is_blocked_suffix_entry fm host s :
  host <> EmptyString ->
  s ∈ blocked_suffixes fm ->
  Spec.normalise host = s \/ Spec.under_suffix (Spec.normalise host) s ->
  is_blocked fm host = true.
Proof.
  intros Hne Hin Hs. unfold is_blocked. apply is_empty_false in Hne. rewrite Hne.
  fold (Spec.normalise host).
  destruct (bool_decide (Spec.normalise host ∈ blocked_ips fm)); [done |].
  destruct (match ipaddress.ip_address (Spec.normalise host) with
            | Some ip => bool_decide (ipaddress.str ip ∈ blocked_ips fm)
            | None => false
            end); [done |].
  destruct (bool_decide (Spec.normalise host ∈ blocked_domains fm)); [done |].
  apply suffix_blocked_spec. exists s. by split.
Qed.

(** The collections after a load do not depend on the ones before it. *)
Lemma fold_add_line_rules lines fm fm' :
  blocked_domains fm = blocked_domains fm' ->
  blocked_ips fm = blocked_ips fm' ->
  blocked_suffixes fm = blocked_suffixes fm' ->
  blocked_domains (fold_left add_line lines fm)
  = blocked_domains (fold_left add_line lines fm')
  /\ blocked_ips (fold_left add_line lines fm)
     = blocked_ips (fold_left add_line lines fm')
  /\ blocked_suffixes (fold_left add_line lines fm)
     = blocked_suffixes (fold_left add_line lines fm').
Proof.
  revert fm fm'. induction lines as [| line lines IH]; intros fm fm' Hd Hi Hs;
    [done |].
  simpl. apply IH; rewrite !add_line_rule;
    destruct (Spec.rule_of line) as [[] |]; simpl; congruence.
Qed.

Lemma load_filters_rules fm fm' fs :
  blocked_domains (fst (load_filters fm fs)) = blocked_domains (fst (load_filters fm' fs))
  /\ blocked_ips (fst (load_filters fm fs)) = blocked_ips (fst (load_filters fm' fs))
  /\ blocked_suffixes (fst (load_filters fm fs))
     = blocked_suffixes (fst (load_filters fm' fs)).
Proof.
  unfold load_filters. destruct (read fs) as [| lines complete]; [done |].
  destruct (fold_add_line_rules lines (clear fm) (clear fm')) as (Hd & Hi & Hs);
    [done .. |].
  destruct complete, (file_exists fs), (mtime fs); simpl; done.
Qed.

Lemma load_filters_is_blocked fm fm' fs host :
  is_blocked (fst (load_filters fm fs)) host
  = is_blocked (fst (load_filters fm' fs)) host.
Proof.
  destruct (load_filters_rules fm fm' fs) as (Hd & Hi & Hs).
  apply is_blocked_ext; [done | done |]. intros s. by rewrite Hs.
Qed.

End FilterRules.

(** X1: [add_blocked_domain] then [is_blocked]: once a domain is added, every
    non-empty host with the same lower-cased, trimmed text is blocked,
    whatever the rules were before. *)
Theorem added_domain_is_blocked (fm : FilterManager.t) (domain host : string) :
  host <> EmptyString ->
  Spec.normalise host = Spec.normalise domain ->
  FilterManager.is_blocked (FilterManager.add_blocked_domain fm domain) host = true.
Proof.
  intros Hne Heq. apply is_blocked_domain_entry; [exact Hne |].
  rewrite Heq. unfold FilterManager.add_blocked_domain, Spec.normalise. simpl.
  set_solver.
Qed.

Lemma added_domain_is_blocked_witness :
  "WWW.Example.Test " <> EmptyString
  /\ Spec.normalise "WWW.Example.Test " = Spec.normalise " www.example.TEST"
  /\ FilterManager.is_blocked
       (FilterManager.add_blocked_domain (Examples.filter_of []) " www.example.TEST")
       "WWW.Example.Test " = true.
Proof.
  assert ("WWW.Example.Test " <> EmptyString) as H1 by discriminate.
  assert (Spec.normalise "WWW.Example.Test " = Spec.normalise " www.example.TEST")
    as H2 by (vm_compute; reflexivity).
  split; [exact H1 |]. split; [exact H2 |].
  exact (added_domain_is_blocked (Examples.filter_of []) " www.example.TEST"
           "WWW.Example.Test " H1 H2).
Defined.

(** X2: [add_blocked_ip] then [is_blocked]: the call succeeds exactly on the
    texts [ip_address] accepts; the text is stored as given, so the hosts
    it blocks are those whose normal form is that very text or parses to
    an address whose canonical text it is. *)
Theorem added_ip_is_blocked (fm fm' : FilterManager.t) (ip host : string) :
  FilterManager.add_blocked_ip fm ip = Some fm' ->
  host <> EmptyString ->
  Spec.normalise host = ip \/ Spec.canonical (Spec.normalise host) = Some ip ->
  is_Some (ipaddress.ip_address ip)
  /\ FilterManager.is_blocked fm' host = true.
Proof.
  unfold FilterManager.add_blocked_ip. intros Hadd Hne Hip.
  destruct (ipaddress.ip_address ip) as [a |] eqn:Ha; [| done].
  injection Hadd as <-. split; [by eexists |].
  apply (is_blocked_ip_entry _ host ip); [exact Hne | simpl; set_solver | exact Hip].
Qed.

Lemma added_ip_is_blocked_witness :
  exists fm',
    FilterManager.add_blocked_ip (Examples.filter_of []) "::1" = Some fm'
    /\ "0:0:0:0:0:0:0:1" <> EmptyString
    /\ FilterManager.is_blocked fm' "0:0:0:0:0:0:0:1" = true.
Proof.
  destruct (FilterManager.add_blocked_ip (Examples.filter_of []) "::1") as [fm' |] eqn:Hadd;
    [| vm_compute in Hadd; discriminate].
  exists fm'.
  assert ("0:0:0:0:0:0:0:1" <> EmptyString) as Hne by discriminate.
  split; [reflexivity |]. split; [exact Hne |].
  refine (proj2 (added_ip_is_blocked (Examples.filter_of []) fm' "::1"
                   "0:0:0:0:0:0:0:1" Hadd Hne _)).
  right. vm_compute. reflexivity.
Defined.

(** X3: Adding a rule never unblocks: a host that [is_blocked] reports before
    [add_blocked_domain] or a successful [add_blocked_ip] is still
    reported after it. *)
Theorem adding_never_unblocks (fm : FilterManager.t) (entry host : string) :
  FilterManager.is_blocked fm host = true ->
  FilterManager.is_blocked (FilterManager.add_blocked_domain fm entry) host = true
  /\ forall fm', FilterManager.add_blocked_ip fm entry = Some fm' ->
                 FilterManager.is_blocked fm' host = true.
Proof.
  intros Hb. split.
  - revert Hb. apply is_blocked_mono; simpl; [set_solver | set_solver | done].
  - unfold FilterManager.add_blocked_ip.
    destruct (ipaddress.ip_address entry); [| done].
    intros fm' [= <-]. revert Hb.
    apply is_blocked_mono; simpl; [set_solver | set_solver | done].
Qed.

Lemma adding_never_unblocks_witness :
  FilterManager.is_blocked (Examples.filter_of ["*.ads.test"]) "x.ads.test" = true
  /\ FilterManager.is_blocked
       (FilterManager.add_blocked_domain (Examples.filter_of ["*.ads.test"]) "other.test")
       "x.ads.test" = true.
Proof.
  assert (FilterManager.is_blocked (Examples.filter_of ["*.ads.test"]) "x.ads.test" = true)
    as H by (vm_compute; reflexivity).
  split; [exact H |].
  exact (proj1 (adding_never_unblocks (Examples.filter_of ["*.ads.test"]) "other.test"
                  "x.ads.test" H)).
Defined.

(** X4: [is_blocked] looks at the host through its normal form only: the
    answer for a host is the answer for its lower-cased, trimmed text,
    unless that text is empty (an empty host is never blocked, a host of
    white space is looked up as the empty text). *)
Theorem is_blocked_of_normal_form (fm : FilterManager.t) (host : string) :
  Spec.normalise host <> EmptyString ->
  FilterManager.is_blocked fm (Spec.normalise host) = FilterManager.is_blocked fm host.
Proof.
  intros Hn. unfold FilterManager.is_blocked.
  fold (Spec.normalise host). fold (Spec.normalise (Spec.normalise host)).
  rewrite normalise_idempotent.
  apply is_empty_false in Hn. rewrite Hn.
  destruct host; [done |]. reflexivity.
Qed.

Lemma is_blocked_of_normal_form_witness :
  Spec.normalise " Blocked.TEST " <> EmptyString
  /\ FilterManager.is_blocked (Examples.filter_of ["blocked.test"])
       (Spec.normalise " Blocked.TEST ")
     = FilterManager.is_blocked (Examples.filter_of ["blocked.test"]) " Blocked.TEST ".
Proof.
  assert (Spec.normalise " Blocked.TEST " <> EmptyString) as H
    by (vm_compute; discriminate).
  split; [exact H |].
  exact (is_blocked_of_normal_form (Examples.filter_of ["blocked.test"])
           " Blocked.TEST " H).
Defined.

(** X5: A load replaces the rules: the three collections after [load_filters]
    are the same whatever they held before, so a rule added with
    [add_blocked_domain] or [add_blocked_ip] does not survive the next
    load, and [is_blocked] answers as for any other filter loaded from
    the same file. *)
Theorem load_replaces_rules (fm fm' : FilterManager.t) (fs : FilterManager.file_state) :
  let loaded := fst (FilterManager.load_filters fm fs) in
  let loaded' := fst (FilterManager.load_filters fm' fs) in
  FilterManager.blocked_domains loaded = FilterManager.blocked_domains loaded'
  /\ FilterManager.blocked_ips loaded = FilterManager.blocked_ips loaded'
  /\ FilterManager.blocked_suffixes loaded = FilterManager.blocked_suffixes loaded'
  /\ forall host, FilterManager.is_blocked loaded host
                  = FilterManager.is_blocked loaded' host.
Proof.
  intros loaded loaded'.
  destruct (load_filters_rules fm fm' fs) as (Hd & Hi & Hs).
  repeat split; try done.
  intros host. apply load_filters_is_blocked.
Qed.

(** X6: A reload that takes place gives the filter of a restart: after
    [force_reload] on an existing file, and after [reload_if_changed] on
    a file whose modification time is more than the tolerance past the
    recorded one, [is_blocked] answers as a [FilterManager] constructed
    anew from the file does. *)
Theorem reload_is_restart (fm : FilterManager.t) (fs : FilterManager.file_state)
    (host : string) :
  FilterManager.file_exists fs = true ->
  FilterManager.is_blocked (fst (FilterManager.force_reload fm fs)) host
  = FilterManager.is_blocked (FilterManager.init fs) host
  /\ (forall m, FilterManager.mtime fs = Some m ->
                FilterManager._last_modified fm + FilterManager.tolerance < m ->
                FilterManager.reload_if_changed fm fs
                = (fst (FilterManager.load_filters fm fs), true)
                /\ FilterManager.is_blocked
                     (fst (FilterManager.reload_if_changed fm fs)) host
                   = FilterManager.is_blocked (FilterManager.init fs) host).
Proof.
  intros Hex.
  unfold FilterManager.force_reload, FilterManager.reload_if_changed,
    FilterManager.init.
  rewrite Hex. simpl. split.
  - apply load_filters_is_blocked.
  - intros m -> Hlt. apply Z.ltb_lt in Hlt. rewrite Hlt. simpl.
    split; [reflexivity | apply load_filters_is_blocked].
Qed.

Lemma reload_is_restart_witness :
  let fm := FilterManager.add_blocked_domain (Examples.filter_of ["old.test"]) "added.test" in
  let fs := Examples.rules_file 5000 ["new.test"] in
  FilterManager.file_exists fs = true
  /\ FilterManager.is_blocked (fst (FilterManager.force_reload fm fs)) "added.test"
     = FilterManager.is_blocked (FilterManager.init fs) "added.test".
Proof.
  intros fm fs.
  assert (FilterManager.file_exists fs = true) as H by reflexivity.
  split; [exact H |].
  exact (proj1 (reload_is_restart fm fs "added.test" H)).
Defined.

(** X7: [reload_if_changed] settles: once a call has gone through on a file
    that is read to its end, a second call on the unchanged file does
    nothing and returns [False]. *)
Theorem reload_if_changed_settles (fm : FilterManager.t) (fs : FilterManager.file_state)
    (lines : list string) :
  Spec.readable lines fs ->
  let fm' := fst (FilterManager.reload_if_changed fm fs) in
  FilterManager.reload_if_changed fm' fs = (fm', false).
Proof.
  unfold Spec.readable. intros Hread. simpl.
  unfold FilterManager.reload_if_changed at 2 3.
  destruct (FilterManager.file_exists fs) eqn:Hex; simpl;
    [| unfold FilterManager.reload_if_changed; by rewrite Hex].
  destruct (FilterManager.mtime fs) as [m |] eqn:Hm;
    [| unfold FilterManager.reload_if_changed; by rewrite Hex, Hm].
  destruct (FilterManager._last_modified fm + FilterManager.tolerance <? m) eqn:Hlt.
  - unfold FilterManager.reload_if_changed. rewrite Hex, Hm. simpl.
    unfold FilterManager.load_filters. rewrite Hread, Hex, Hm. simpl.
    assert ((m + FilterManager.tolerance <? m) = false) as ->
      by (apply Z.ltb_ge; unfold FilterManager.tolerance; lia).
    reflexivity.
  - unfold FilterManager.reload_if_changed. rewrite Hex, Hm. simpl. by rewrite Hlt.
Qed.

Lemma reload_if_changed_settles_witness :
  let fm := Examples.filter_of ["old.test"] in
  let fs := Examples.rules_file 5000 ["new.test"] in
  Spec.readable ["new.test"] fs
  /\ FilterManager.reload_if_changed (fst (FilterManager.reload_if_changed fm fs)) fs
     = (fst (FilterManager.reload_if_changed fm fs), false).
Proof.
  intros fm fs.
  assert (Spec.readable ["new.test"] fs) as H by reflexivity.
  split; [exact H |].
  exact (reload_if_changed_settles fm fs ["new.test"] H).
Defined.

(** X8: Rules files only add: a host blocked after loading one file is
    blocked after loading any file that has all of its lines, in whatever
    order and with whatever lines besides. *)
Theorem more_lines_never_unblock
    (fm fm' : FilterManager.t) (fs fs' : FilterManager.file_state)
    (lines lines' : list string) (host : string) :
  Spec.readable lines fs ->
  Spec.readable lines' fs' ->
  (forall line, line ∈ lines -> line ∈ lines') ->
  FilterManager.is_blocked (fst (FilterManager.load_filters fm fs)) host = true ->
  FilterManager.is_blocked (fst (FilterManager.load_filters fm' fs')) host = true.
Proof.
  intros Hr Hr' Hsub.
  destruct (load_readable fm fs lines Hr) as (Hd & Hi & Hs).
  destruct (load_readable fm' fs' lines' Hr') as (Hd' & Hi' & Hs').
  apply is_blocked_mono.
  - rewrite Hi, Hi'. intros x. rewrite !loaded_ips. naive_solver.
  - rewrite Hd, Hd'. intros x. rewrite !loaded_domains. naive_solver.
  - rewrite Hs, Hs'. intros x. rewrite !loaded_suffixes. naive_solver.
Qed.

Lemma more_lines_never_unblock_witness :
  let lines := ["blocked.test"; "*.ads.test"] in
  let lines' := ["# more"; "*.ads.test"; "10.0.0.1"; "blocked.test"] in
  Spec.readable lines (Examples.rules_file 5000 lines)
  /\ Spec.readable lines' (Examples.rules_file 7000 lines')
  /\ (forall line, line ∈ lines -> line ∈ lines')
  /\ FilterManager.is_blocked
       (fst (FilterManager.load_filters (Examples.filter_of [])
               (Examples.rules_file 7000 lines'))) "x.ads.test" = true.
Proof.
  intros lines lines'.
  assert (Spec.readable lines (Examples.rules_file 5000 lines)) as H1 by reflexivity.
  assert (Spec.readable lines' (Examples.rules_file 7000 lines')) as H2 by reflexivity.
  assert (forall line, line ∈ lines -> line ∈ lines') as H3.
  { intros line Hin. subst lines lines'.
    rewrite !elem_of_cons in Hin. rewrite !elem_of_cons.
    destruct Hin as [-> | [-> | Hin]]; [tauto | tauto |].
    by apply elem_of_nil in Hin. }
  split; [exact H1 |]. split; [exact H2 |]. split; [exact H3 |].
  refine (more_lines_never_unblock (Examples.filter_of []) (Examples.filter_of [])
            _ _ lines lines' "x.ads.test" H1 H2 H3 _).
  vm_compute. reflexivity.
Defined.

(** X9: A rule line blocks the host it spells: after a load that reads the
    file to its end, [is_blocked] is true on the text of every domain
    line and every wildcard line, and on the text of every IP line
    written without capital letters (an IP line is stored as written,
    while the host is lower-cased before it is looked up). *)
Theorem rule_line_blocks_its_text
    (fm : FilterManager.t) (fs : FilterManager.file_state)
    (lines : list string) (line : string) (r : Spec.rule) :
  Spec.readable lines fs ->
  line ∈ lines ->
  Spec.rule_of line = Some r ->
  (forall text, r = Spec.ip_rule text -> lower text = text) ->
  FilterManager.is_blocked (fst (FilterManager.load_filters fm fs)) line = true.
Proof.
  intros Hr Hin Hrule Hlow.
  destruct (load_readable fm fs lines Hr) as (Hd & Hi & Hs).
  assert (line <> EmptyString) as Hne by (intros ->; vm_compute in Hrule; done).
  assert (Spec.normalise line = lower (strip line)) as Hnorm
    by (unfold Spec.normalise; by rewrite lower_strip).
  destruct r as [text | s | d].
  - apply (is_blocked_ip_entry _ line text); [exact Hne | |].
    + rewrite Hi. apply loaded_ips. right. eauto.
    + left. destruct (rule_of_ip _ _ Hrule) as (-> & _ & _).
      rewrite Hnorm. by apply Hlow.
  - apply (is_blocked_suffix_entry _ line s); [exact Hne | |].
    + rewrite Hs. apply loaded_suffixes. right. eauto.
    + right. exists "*". rewrite Hnorm. apply (rule_of_suffix _ _ Hrule).
  - apply is_blocked_domain_entry; [exact Hne |].
    rewrite Hd. apply loaded_domains. right. exists line. split; [exact Hin |].
    destruct (rule_of_domain _ _ Hrule) as (-> & _). by rewrite Hnorm.
Qed.

Lemma rule_line_blocks_its_text_witness :
  let lines := ["# ads"; " *.Ads.Test "; "Blocked.Test"] in
  Spec.readable lines (Examples.rules_file 5000 lines)
  /\ " *.Ads.Test " ∈ lines
  /\ Spec.rule_of " *.Ads.Test " = Some (Spec.suffix_rule "ads.test")
  /\ FilterManager.is_blocked
       (fst (FilterManager.load_filters (Examples.filter_of [])
               (Examples.rules_file 5000 lines))) " *.Ads.Test " = true.
Proof.
  intros lines.
  assert (Spec.readable lines (Examples.rules_file 5000 lines)) as H1 by reflexivity.
  assert (" *.Ads.Test " ∈ lines) as H2 by (subst lines; rewrite !elem_of_cons; tauto).
  assert (Spec.rule_of " *.Ads.Test " = Some (Spec.suffix_rule "ads.test")) as H3
    by (vm_compute; reflexivity).
  split; [exact H1 |]. split; [exact H2 |]. split; [exact H3 |].
  refine (rule_line_blocks_its_text (Examples.filter_of []) _ lines " *.Ads.Test "
            _ H1 H2 H3 _).
  intros text Heq. discriminate Heq.
Defined.

(** ** [src/http_parser.py]: request lines, headers, hosts and ports *)

Section PatternRuns.

Context {A : Type}.

Lemma plus_greedy_stop p (s : string) (k : string -> option A) :
  (forall c r, s = String c r -> p c = false) ->
  HTTPParser.plus_greedy p s k = None.
Proof. destruct s as [| c s]; [done |]. intros H. simpl. by rewrite (H c s). Qed.

Lemma group_greedy_stop p (s : string) (k : string -> string -> option A) :
  (forall c r, s = String c r -> p c = false) ->
  HTTPParser.group_greedy p s k = None.
Proof. destruct s as [| c s]; [done |]. intros H. simpl. by rewrite (H c s). Qed.

Lemma plus_greedy_run p (a rest : string) (k : string -> option A) r :
  a <> EmptyString -> forallb_string p a = true ->
  (forall c r', rest = String c r' -> p c = false) ->
  k rest = Some r ->
  HTTPParser.plus_greedy p (a +:+ rest) k = Some r.
Proof.
  intros Hne Hall Hstop Hk. induction a as [| c a IH]; [done |].
  simpl in Hall. apply andb_true_iff in Hall as [Hc Hall].
  rewrite append_cons. simpl. rewrite Hc.
  destruct a as [| c' a].
  - rewrite append_nil, plus_greedy_stop by exact Hstop. exact Hk.
  - by rewrite IH.
Qed.

Lemma group_greedy_run p (g rest : string) (k : string -> string -> option A) r :
  g <> EmptyString -> forallb_string p g = true ->
  (forall c r', rest = String c r' -> p c = false) ->
  k g rest = Some r ->
  HTTPParser.group_greedy p (g +:+ rest) k = Some r.
Proof.
  intros Hne Hall Hstop. revert k. induction g as [| c g IH]; [done |].
  intros k Hk. simpl in Hall. apply andb_true_iff in Hall as [Hc Hall].
  rewrite append_cons. simpl. rewrite Hc.
  destruct g as [| c' g].
  - rewrite append_nil, group_greedy_stop by exact Hstop. exact Hk.
  - by rewrite (IH ltac:(done) Hall (fun g rest => k (String c g) rest)).
Qed.

Lemma group_lazy_run p (t rest : string) (k : string -> string -> option A) r :
  t <> EmptyString -> forallb_string p t = true ->
  (forall a b, t = a +:+ b -> a <> EmptyString -> b <> EmptyString ->
               k a (b +:+ rest) = None) ->
  k t rest = Some r ->
  HTTPParser.group_lazy p (t +:+ rest) k = Some r.
Proof.
  intros Hne Hall. revert k. induction t as [| c t IH]; [done |].
  intros k Hnone Hk. simpl in Hall. apply andb_true_iff in Hall as [Hc Hall].
  rewrite append_cons. simpl. rewrite Hc.
  destruct t as [| c' t].
  - rewrite append_nil. by rewrite Hk.
  - rewrite (Hnone (String c EmptyString) (String c' t)) by done.
    apply (IH ltac:(done) Hall (fun g rest => k (String c g) rest)); [| exact Hk].
    intros a b Heq Ha Hb. apply (Hnone (String c a) b); [| done | done].
    by rewrite append_cons, Heq.
Qed.

End PatternRuns.

Lemma head_of_append (a b : string) c r :
  a <> EmptyString -> a +:+ b = String c r -> exists a', a = String c a'.
Proof.
  destruct a as [| c' a]; [done |]. rewrite append_cons. intros _ [= -> _]. eauto.
Qed.

Lemma not_space_not_letter c : isspace c = true -> is_letter c = false.
Proof. each_character c. Qed.

Lemma version_at_end_http major minor :
  is_digit major = true -> is_digit minor = true ->
  HTTPParser.version_at_end (Wire.http_version major minor)
  = Some (Wire.http_version major minor).
Proof.
  intros H1 H2. unfold HTTPParser.version_at_end, Wire.http_version,
    HTTPParser.re_digit. simpl. by rewrite H1, H2.
Qed.

Lemma match_request_line_complete
    (method w1 target w2 : string) (major minor : ascii) :
  method <> EmptyString -> forallb_string is_letter method = true ->
  w1 <> EmptyString -> forallb_string isspace w1 = true ->
  target <> EmptyString -> Wire.no_space target = true ->
  w2 <> EmptyString -> forallb_string isspace w2 = true ->
  is_digit major = true -> is_digit minor = true ->
  HTTPParser.match_request_line
    (Wire.request_line method w1 target w2 (Wire.http_version major minor))
  = Some (method, target, Wire.http_version major minor).
Proof.
  intros Hm Hml Hw1 Hw1s Ht Hts Hw2 Hw2s Hd1 Hd2.
  unfold HTTPParser.match_request_line, Wire.request_line.
  assert (forall (x y : string) c r, x <> EmptyString ->
            forallb_string isspace x = true -> x +:+ y = String c r ->
            isspace c = true) as Hspace.
  { intros x y c r Hx Hxs Heq. destruct (head_of_append x y c r Hx Heq) as [x' ->].
    simpl in Hxs. by apply andb_true_iff in Hxs as [? _]. }
  assert (forall (x y : string) c r, x <> EmptyString ->
            Wire.no_space x = true -> x +:+ y = String c r ->
            isspace c = false) as Hnospace.
  { intros x y c r Hx Hxs Heq. destruct (head_of_append x y c r Hx Heq) as [x' ->].
    unfold Wire.no_space in Hxs. simpl in Hxs.
    apply andb_true_iff in Hxs as [Hc _]. by apply negb_true_iff in Hc. }
  apply group_greedy_run; [exact Hm | exact Hml | |].
  { intros c r Heq. apply not_space_not_letter.
    exact (Hspace w1 _ c r Hw1 Hw1s Heq). }
  apply plus_greedy_run; [exact Hw1 | exact Hw1s | |].
  { intros c r Heq. exact (Hnospace target _ c r Ht Hts Heq). }
  apply group_lazy_run; [exact Ht | | |].
  - unfold Wire.no_space in Hts. revert Hts. apply forallb_string_impl.
    intros c Hc. unfold HTTPParser.re_dot. revert Hc. each_character c.
  - intros a b -> Ha Hb. apply plus_greedy_stop. intros c r Heq.
    unfold Wire.no_space in Hts. rewrite forallb_string_append in Hts.
    apply andb_true_iff in Hts as [_ Hbs].
    exact (Hnospace b _ c r Hb Hbs Heq).
  - apply plus_greedy_run; [exact Hw2 | exact Hw2s | |].
    + intros c r [= <- _]. reflexivity.
    + by rewrite version_at_end_http.
Qed.

(** X10: The request-line pattern accepts every line written as a method of
    letters, white space, a target without white space, white space and
    [HTTP/d.d], and captures exactly these three parts. *)
Theorem well_formed_request_line_matches
    (method w1 target w2 : string) (major minor : ascii) :
  method <> EmptyString -> forallb_string is_letter method = true ->
  w1 <> EmptyString -> forallb_string isspace w1 = true ->
  target <> EmptyString -> Wire.no_space target = true ->
  w2 <> EmptyString -> forallb_string isspace w2 = true ->
  is_digit major = true -> is_digit minor = true ->
  HTTPParser.match_request_line
    (Wire.request_line method w1 target w2 (Wire.http_version major minor))
  = Some (method, target, Wire.http_version major minor).
Proof. apply match_request_line_complete. Qed.

Lemma well_formed_request_line_matches_witness :
  HTTPParser.match_request_line
    (Wire.request_line "Get" "  " "http://example.test/a?b" (String TAB " ")
       (Wire.http_version "1" "0"))
  = Some ("Get", "http://example.test/a?b", "HTTP/1.0").
Proof.
  apply (well_formed_request_line_matches "Get" "  " "http://example.test/a?b"
           (String TAB " ") "1" "0"); (reflexivity || discriminate).
Defined.

(** *** Lines of a request *)

Lemma split_go_skip sep (a rest : string) :
  split_go sep (String.length a) (a +:+ rest) = split_go sep O rest.
Proof. induction a as [| c a IH]; [reflexivity |]. rewrite append_cons. exact IH. Qed.

(** [(line + sep + rest).split(sep)] when the first character of [sep]
    does not occur in [line]. *)
Lemma split_first_line c0 (sep' line rest : string) :
  forallb_string (fun c => negb (Ascii.eqb c0 c)) line = true ->
  split (line +:+ String c0 sep' +:+ rest) (String c0 sep')
  = line :: split rest (String c0 sep').
Proof.
  intros Hline. unfold split. induction line as [| c line IH].
  - rewrite append_nil, append_cons.
    change (split_go (String c0 sep') 0 (String c0 (sep' +:+ rest)))
      with (if startswith (String c0 (sep' +:+ rest)) (String c0 sep')
            then EmptyString :: split_go (String c0 sep')
                                  (String.length (String c0 sep') - 1) (sep' +:+ rest)
            else cons_head c0 (split_go (String c0 sep') 0 (sep' +:+ rest))).
    assert (startswith (String c0 (sep' +:+ rest)) (String c0 sep') = true) as ->.
    { apply startswith_spec. exists rest. by rewrite append_cons. }
    replace (String.length (String c0 sep') - 1)%nat with (String.length sep')
      by (simpl; lia).
    by rewrite split_go_skip.
  - simpl in Hline. apply andb_true_iff in Hline as [Hc Hline].
    apply negb_true_iff in Hc. rewrite append_cons.
    change (split_go (String c0 sep') 0 (String c (line +:+ String c0 sep' +:+ rest)))
      with (if startswith (String c (line +:+ String c0 sep' +:+ rest)) (String c0 sep')
            then EmptyString :: split_go (String c0 sep')
                                  (String.length (String c0 sep') - 1)
                                  (line +:+ String c0 sep' +:+ rest)
            else cons_head c (split_go (String c0 sep') 0
                                (line +:+ String c0 sep' +:+ rest))).
    rewrite startswith_cons, Hc. simpl. by rewrite (IH Hline).
Qed.

Lemma split_one_line c0 (sep' line : string) :
  forallb_string (fun c => negb (Ascii.eqb c0 c)) line = true ->
  split line (String c0 sep') = [line].
Proof.
  intros Hline. unfold split. induction line as [| c line IH]; [reflexivity |].
  simpl in Hline. apply andb_true_iff in Hline as [Hc Hline].
  apply negb_true_iff in Hc.
  change (split_go (String c0 sep') 0 (String c line))
    with (if startswith (String c line) (String c0 sep')
          then EmptyString :: split_go (String c0 sep')
                                (String.length (String c0 sep') - 1) line
          else cons_head c (split_go (String c0 sep') 0 line)).
  rewrite startswith_cons, Hc. simpl. by rewrite (IH Hline).
Qed.

Lemma join_cons sep (x y : string) (l : list string) :
  join sep (x :: y :: l) = x +:+ sep +:+ join sep (y :: l).
Proof. reflexivity. Qed.

(** [sep.join(lines).split(sep)] gives the lines back. *)
Lemma split_join_lines (line : string) (lines : list string) :
  Wire.no_CR line = true ->
  Forall (fun l => Wire.no_CR l = true) lines ->
  split (join CRLF (line :: lines)) CRLF = line :: lines.
Proof.
  intros Hline Hlines. revert line Hline.
  induction Hlines as [| l lines Hl Hlines IH]; intros line Hline.
  - by apply split_one_line.
  - rewrite join_cons. unfold CRLF at 1 3.
    rewrite split_first_line by exact Hline.
    f_equal. exact (IH l Hl).
Qed.

(** [text.find(x)] passes over a prefix without the first character of
    [x]. *)
Lemma find_past c0 (x' a s : string) :
  forallb_string (fun c => negb (Ascii.eqb c0 c)) a = true ->
  find (a +:+ s) (String c0 x') = (fun i => (String.length a + i)%nat) <$> find s (String c0 x').
Proof.
  intros Ha. induction a as [| c a IH].
  - rewrite append_nil. by destruct (find s (String c0 x')).
  - simpl in Ha. apply andb_true_iff in Ha as [Hc Ha]. apply negb_true_iff in Hc.
    rewrite append_cons, find_unfold, startswith_cons, Hc. simpl andb. cbv iota.
    rewrite (IH Ha). by destruct (find s (String c0 x')).
Qed.

Lemma header_line_head (l : string) :
  Wire.header_line l = true ->
  exists c r, l = String c r /\ Ascii.eqb CR c = false /\ Wire.no_CR r = true.
Proof.
  unfold Wire.header_line, Wire.no_CR. destruct l as [| c r]; [done |].
  simpl. intros H. apply andb_true_iff in H as [Hc Hr].
  apply negb_true_iff in Hc. eauto.
Qed.

Lemma find_blank_line_here (s : string) : find (CRLFCRLF +:+ s) CRLFCRLF = Some O.
Proof.
  rewrite find_unfold.
  assert (startswith (CRLFCRLF +:+ s) CRLFCRLF = true) as ->
    by (apply startswith_spec; eauto).
  reflexivity.
Qed.

Lemma find_blank_line_later c (r : string) :
  Ascii.eqb CR c = false ->
  find (CRLF +:+ String c r) CRLFCRLF
  = (fun i => (2 + i)%nat) <$> find (String c r) CRLFCRLF.
Proof.
  intros Hc.
  change CRLFCRLF with (String CR (String LF (String CR (String LF EmptyString)))).
  change CRLF with (String CR (String LF EmptyString)).
  rewrite !append_cons, append_nil.
  rewrite find_unfold.
  rewrite (startswith_cons CR CR), (startswith_cons LF LF), (startswith_cons CR c), Hc.
  rewrite andb_false_r. cbv iota.
  rewrite (find_unfold (String LF (String c r))).
  rewrite (startswith_cons CR LF). simpl andb. cbv iota.
  by destruct (find (String c r)
                 (String CR (String LF (String CR (String LF EmptyString))))).
Qed.

(** The first blank line of a request ends its header lines. *)
Lemma find_header_end (line : string) (lines : list string) (body : string) :
  Wire.no_CR line = true ->
  Forall (fun l => Wire.header_line l = true) lines ->
  find (Wire.request line lines body) CRLFCRLF
  = Some (String.length (join CRLF (line :: lines))).
Proof.
  unfold Wire.request. intros Hline Hlines. revert line Hline.
  induction Hlines as [| l lines Hl Hlines IH]; intros line Hline.
  - simpl join.
    change CRLFCRLF with (String CR (String LF (String CR (String LF EmptyString)))) at 2.
    rewrite find_past by exact Hline.
    change (String CR (String LF (String CR (String LF EmptyString)))) with CRLFCRLF.
    rewrite find_blank_line_here. simpl. f_equal. lia.
  - rewrite join_cons, !append_assoc.
    change CRLFCRLF with (String CR (String LF (String CR (String LF EmptyString)))) at 2.
    rewrite find_past by exact Hline.
    change (String CR (String LF (String CR (String LF EmptyString)))) with CRLFCRLF.
    destruct (header_line_head l Hl) as (c & r & -> & Hc & Hr).
    assert (exists r', join CRLF (String c r :: lines) +:+ CRLFCRLF +:+ body
                       = String c r') as [r' Hr'].
    { destruct lines; [simpl join | rewrite join_cons]; rewrite append_cons; eauto. }
    rewrite Hr', find_blank_line_later, <- Hr' by exact Hc.
    rewrite IH by (by apply andb_true_iff in Hl as [_ ?]).
    simpl. f_equal. rewrite !length_append. simpl. lia.
Qed.

Lemma take_all (a b : string) : take (String.length a) (a +:+ b) = a.
Proof.
  induction a as [| c a IH]; [by destruct b |].
  rewrite append_cons. simpl. by rewrite IH.
Qed.

Lemma request_line_of_request (line : string) (lines : list string) (body : string) :
  Wire.no_CR line = true ->
  Spec.request_line_of (Wire.request line lines body) = line.
Proof.
  intros Hline. unfold Spec.request_line_of, Wire.request.
  assert (exists rest, join CRLF (line :: lines) +:+ CRLFCRLF +:+ body
                       = line +:+ CRLF +:+ rest) as [rest ->].
  { destruct lines as [| l lines].
    - exists (CRLF +:+ body). simpl join. unfold CRLFCRLF. by rewrite !append_assoc.
    - eexists. rewrite join_cons, !append_assoc. reflexivity. }
  change CRLF with (String CR (String LF EmptyString)).
  by rewrite split_first_line.
Qed.

Lemma header_lines_no_CR (lines : list string) :
  Forall (fun l => Wire.header_line l = true) lines ->
  Forall (fun l => Wire.no_CR l = true) lines.
Proof.
  intros Hall. eapply Forall_impl; [exact Hall |].
  intros l H. by apply andb_true_iff in H as [_ ?].
Qed.

Lemma parse_headers_request (line : string) (lines : list string) (body : string) :
  Wire.no_CR line = true ->
  Forall (fun l => Wire.header_line l = true) lines ->
  HTTPParser.parse_headers (Wire.request line lines body)
  = fold_left HTTPParser.add_header lines ∅.
Proof.
  intros Hline Hlines. unfold HTTPParser.parse_headers.
  rewrite (find_header_end _ _ _ Hline Hlines).
  unfold Wire.request. rewrite take_all.
  by rewrite (split_join_lines _ _ Hline (header_lines_no_CR _ Hlines)).
Qed.

Lemma add_header_lookup (m : gmap string string) (line k : string) :
  HTTPParser.add_header m line !! k
  = match Wire.header_entry line with
    | Some (key, value) => if String.eqb key k then Some value else m !! k
    | None => m !! k
    end.
Proof.
  unfold HTTPParser.add_header, Wire.header_entry.
  destruct (has_char ":" line); [| done].
  destruct (partition ":" line) as [[key found] value].
  destruct (String.eqb_spec (lower (strip key)) k) as [-> | Hne].
  - by rewrite lookup_insert_eq.
  - by rewrite lookup_insert_ne.
Qed.

Lemma fold_add_header_lookup (lines : list string) (m : gmap string string) (k : string) :
  fold_left HTTPParser.add_header lines m !! k
  = match Wire.last_entry k lines with
    | Some v => Some v
    | None => m !! k
    end.
Proof.
  revert m. induction lines as [| line lines IH]; intros m; [done |].
  simpl. rewrite IH, add_header_lookup.
  destruct (Wire.last_entry k lines); [done |].
  destruct (Wire.header_entry line) as [[key value] |]; [| done].
  by destruct (String.eqb key k).
Qed.

(** X11: The header dictionary of a request: under a key, the value of the
    last header line that has this key once the text before its first
    colon is trimmed and lower-cased; nothing under a key that no line
    has.  Lines without a colon make no entry. *)
Theorem headers_keep_last_value
    (line : string) (lines : list string) (body k : string) :
  Wire.no_CR line = true ->
  Forall (fun l => Wire.header_line l = true) lines ->
  HTTPParser.parse_headers (Wire.request line lines body) !! k
  = Wire.last_entry k lines.
Proof.
  intros Hline Hlines.
  rewrite (parse_headers_request _ _ _ Hline Hlines), fold_add_header_lookup.
  by destruct (Wire.last_entry k lines).
Qed.

Lemma headers_keep_last_value_witness :
  let lines := ["Host: first.test"; "no colon here"; " HOST : second.test:8080 "] in
  HTTPParser.parse_headers (Wire.request "GET / HTTP/1.1" lines "body") !! "host"
  = Some "second.test:8080".
Proof.
  intros lines.
  rewrite (headers_keep_last_value "GET / HTTP/1.1" lines "body" "host");
    [reflexivity | reflexivity |].
  subst lines. repeat constructor.
Defined.

Section Resolution.
Import HTTPParser.

Lemma request_target_matched text target :
  Spec.request_target text = Some target ->
  exists g1 g3, match_request_line (Spec.request_line_of text) = Some (g1, target, g3).
Proof.
  unfold Spec.request_target.
  destruct (match_request_line _) as [[[g1 t] g3] |]; [| done].
  intros [= <-]. eauto.
Qed.

End Resolution.

(** X12: A request whose target is not an absolute URI needs a [Host] header:
    without one, or with an empty one, the parser returns [None],
    whatever the target says (a CONNECT target names the host, and is not
    looked at). *)
Theorem relative_target_needs_host_header (request_text target : string) :
  Spec.request_target request_text = Some target ->
  HTTPParser.is_absolute target = false ->
  Spec.host_header request_text = None
  \/ Spec.host_header request_text = Some EmptyString ->
  HTTPParser.parse_request_text request_text = None.
Proof.
  intros Htarget Habs Hhost.
  destruct (request_target_matched _ _ Htarget) as (g1 & g3 & Hm).
  rewrite (parse_request_matched _ _ _ _ Hm), Habs.
  unfold HTTPParser.resolve_relative. unfold Spec.host_header in Hhost.
  by destruct Hhost as [-> | ->].
Qed.

Lemma relative_target_needs_host_header_witness :
  let request_text :=
    Wire.request "CONNECT example.test:443 HTTP/1.1" ["User-Agent: x"] "" in
  Spec.request_target request_text = Some "example.test:443"
  /\ HTTPParser.is_absolute "example.test:443" = false
  /\ Spec.host_header request_text = None
  /\ HTTPParser.parse_request_text request_text = None.
Proof.
  intros request_text.
  assert (Spec.request_target request_text = Some "example.test:443") as H1
    by (vm_compute; reflexivity).
  assert (HTTPParser.is_absolute "example.test:443" = false) as H2
    by (vm_compute; reflexivity).
  assert (Spec.host_header request_text = None) as H3 by (vm_compute; reflexivity).
  repeat (split; [assumption |]).
  exact (relative_target_needs_host_header request_text "example.test:443" H1 H2
           (or_introl H3)).
Defined.

(** X13: The [Host] header without a colon: the record's host is the header
    value as written, the port is 80 and the path is the target as
    written. *)
Theorem host_header_without_port (request_text target hh : string) :
  Spec.request_target request_text = Some target ->
  HTTPParser.is_absolute target = false ->
  Spec.host_header request_text = Some hh ->
  has_char ":" hh = false ->
  hh <> EmptyString ->
  exists r,
    HTTPParser.parse_request_text request_text = Some r
    /\ HTTPParser.host r = hh
    /\ HTTPParser.port r = 80
    /\ HTTPParser.path r = target.
Proof.
  intros Htarget Habs Hhost Hcolon Hne.
  destruct (request_target_matched _ _ Htarget) as (g1 & g3 & Hm).
  rewrite (parse_request_matched _ _ _ _ Hm), Habs.
  unfold HTTPParser.resolve_relative. unfold Spec.host_header in Hhost. rewrite Hhost.
  cbv beta iota delta [default from_option id]. rewrite Hcolon.
  apply is_empty_false in Hne. rewrite Hne. by eexists.
Qed.

Lemma host_header_without_port_witness :
  let request_text := Wire.request "POST /submit?x=1 HTTP/1.1" ["Host: Example.Test"] "a=b" in
  exists r,
    HTTPParser.parse_request_text request_text = Some r
    /\ HTTPParser.host r = "Example.Test"
    /\ HTTPParser.port r = 80
    /\ HTTPParser.path r = "/submit?x=1".
Proof.
  intros request_text.
  apply (host_header_without_port request_text "/submit?x=1" "Example.Test");
    first [vm_compute; reflexivity | discriminate].
Defined.

(** X14: The [Host] header with a colon is split at its last colon: the text
    before it is the record's host, and the port is [int] of the text
    after it, or 80 when [int] does not take that text. *)
Theorem host_header_with_port (request_text target h q : string) :
  Spec.request_target request_text = Some target ->
  HTTPParser.is_absolute target = false ->
  Spec.host_header request_text = Some (h +:+ ":" +:+ q) ->
  has_char ":" q = false ->
  h <> EmptyString ->
  exists r,
    HTTPParser.parse_request_text request_text = Some r
    /\ HTTPParser.host r = h
    /\ HTTPParser.port r = default 80 (int q)
    /\ HTTPParser.path r = target.
Proof.
  intros Htarget Habs Hhost Hcolon Hne.
  destruct (request_target_matched _ _ Htarget) as (g1 & g3 & Hm).
  rewrite (parse_request_matched _ _ _ _ Hm), Habs.
  unfold HTTPParser.resolve_relative. unfold Spec.host_header in Hhost. rewrite Hhost.
  cbv beta iota delta [default from_option id].
  change (h +:+ ":" +:+ q) with (h +:+ String ":" q).
  rewrite has_char_append, (rpartition_last _ _ _ (has_char_false _ _ Hcolon)).
  apply is_empty_false in Hne. rewrite Hne. by eexists.
Qed.

Lemma host_header_with_port_witness :
  let request_text := Wire.request "GET / HTTP/1.1" ["Host: example.test:http"] "" in
  exists r,
    HTTPParser.parse_request_text request_text = Some r
    /\ HTTPParser.host r = "example.test"
    /\ HTTPParser.port r = 80
    /\ HTTPParser.path r = "/".
Proof.
  intros request_text.
  apply (host_header_with_port request_text "/" "example.test" "http");
    first [vm_compute; reflexivity | discriminate].
Defined.

Section AbsoluteTargets.
Import urllib HTTPParser.

(** [_hostinfo] on a host without a port. *)
Lemma hostinfo_host_only (h : string) :
  Spec.plain_host h = true -> hostinfo h = (h, None).
Proof.
  intros Hh. unfold hostinfo.
  assert (forallb_string (fun x => negb (Ascii.eqb x "@")) h = true) as Hat.
  { revert Hh. apply forallb_string_impl. intros c Hc.
    by destruct (plain_host_facts _ Hc) as (_ & -> & _). }
  rewrite (rpartition_absent _ _ Hat).
  assert (forallb_string (fun x => negb (Ascii.eqb x "[")) h = true) as Hbr.
  { revert Hh. apply forallb_string_impl. intros c Hc.
    destruct (plain_host_facts _ Hc) as (Hn & _).
    by destruct (plain_netloc_facts _ Hn) as (_ & _ & -> & _). }
  rewrite (partition_absent _ _ Hbr).
  assert (forallb_string (fun x => negb (Ascii.eqb x ":")) h = true) as Hco.
  { revert Hh. apply forallb_string_impl. intros c Hc.
    by destruct (plain_host_facts _ Hc) as (_ & _ & ->). }
  by rewrite (partition_absent _ _ Hco).
Qed.

Lemma plain_host_netloc (h : string) :
  Spec.plain_host h = true -> forallb_string Spec.plain_netloc_char h = true.
Proof.
  apply forallb_string_impl. intros c Hc. by destruct (plain_host_facts _ Hc) as (-> & _).
Qed.

Lemma hostname_plain parsed (h : string) (p : option string) :
  hostinfo (netloc parsed) = (h, p) ->
  h <> EmptyString -> has_char "%" h = false ->
  hostname parsed = Some (lower h).
Proof.
  intros Hinfo Hne Hpercent. unfold hostname. rewrite Hinfo. simpl fst.
  apply is_empty_false in Hne. rewrite Hne.
  rewrite (partition_absent _ _ (has_char_false _ _ Hpercent)).
  by rewrite !append_empty_r.
Qed.

Lemma is_absolute_scheme (scheme rest : string) :
  scheme = "http" \/ scheme = "https" ->
  is_absolute (scheme +:+ "://" +:+ rest) = true.
Proof.
  unfold is_absolute. intros [-> | ->].
  - assert (startswith ("http" +:+ "://" +:+ rest) "http://" = true) as ->; [| done].
    apply startswith_spec. by exists rest.
  - assert (startswith ("https" +:+ "://" +:+ rest) "https://" = true) as ->;
      [| by rewrite orb_true_r].
    apply startswith_spec. by exists rest.
Qed.

Lemma urlparse_plain (scheme n rest : string) :
  scheme = "http" \/ scheme = "https" ->
  forallb_string Spec.plain_netloc_char n = true ->
  Spec.starts_path rest = true ->
  exists parsed,
    urlparse (scheme +:+ "://" +:+ n +:+ rest) = Some parsed
    /\ netloc parsed = n /\ urllib.scheme parsed = scheme.
Proof.
  intros Hscheme Hn Hrest. unfold urlparse.
  destruct (urlsplit_plain scheme n rest Hscheme Hn Hrest) as (pa & q & f & ->).
  destruct (existsb _ _ && _); [destruct (splitparams pa) |]; by eexists.
Qed.

(** The absolute-URI branch on [scheme://host] and then a path, a query,
    a fragment or nothing. *)
Lemma resolve_absolute_host (scheme h rest : string) :
  scheme = "http" \/ scheme = "https" ->
  Spec.plain_host h = true -> h <> EmptyString -> has_char "%" h = false ->
  Spec.starts_path rest = true ->
  exists pa,
    resolve_absolute (scheme +:+ "://" +:+ h +:+ rest)
    = Some (Some (lower h), if String.eqb scheme "https" then 443 else 80, pa).
Proof.
  intros Hscheme Hh Hne Hpercent Hrest. unfold resolve_absolute.
  destruct (urlparse_plain scheme h rest Hscheme (plain_host_netloc _ Hh) Hrest)
    as (parsed & -> & Hn & Hs).
  assert (hostinfo (netloc parsed) = (h, None)) as Hinfo
    by (rewrite Hn; by apply hostinfo_host_only).
  unfold urllib.port. rewrite Hinfo. simpl snd. cbv iota.
  rewrite (hostname_plain _ _ _ Hinfo Hne Hpercent), Hs. eauto.
Qed.

(** The same with a written port of digits, at most 65535. *)
Lemma resolve_absolute_host_port (scheme h p rest : string) :
  scheme = "http" \/ scheme = "https" ->
  Spec.plain_host h = true -> h <> EmptyString -> has_char "%" h = false ->
  Spec.all_digits p = true ->
  (String.length p <= int_max_str_digits)%nat ->
  Spec.number p <= 65535 ->
  Spec.starts_path rest = true ->
  exists pa,
    resolve_absolute (scheme +:+ "://" +:+ h +:+ ":" +:+ p +:+ rest)
    = Some (Some (lower h),
            if Spec.number p =? 0
            then (if String.eqb scheme "https" then 443 else 80)
            else Spec.number p, pa).
Proof.
  intros Hscheme Hh Hne Hpercent Hp Hlen Hrange Hrest.
  unfold resolve_absolute.
  assert (forallb_string Spec.plain_netloc_char (h +:+ ":" +:+ p) = true) as Hn.
  { pose proof Hp as [_ Hd]%andb_true_iff.
    rewrite !forallb_string_append, !andb_true_iff. split; [| split].
    - by apply plain_host_netloc.
    - done.
    - revert Hd. apply forallb_string_impl. intros c Hc.
      by destruct (plain_host_facts _ (digit_plain _ Hc)) as (-> & _). }
  replace (scheme +:+ "://" +:+ h +:+ ":" +:+ p +:+ rest)
    with (scheme +:+ "://" +:+ (h +:+ ":" +:+ p) +:+ rest)
    by (by rewrite !append_assoc).
  destruct (urlparse_plain scheme _ rest Hscheme Hn Hrest) as (parsed & -> & Hnl & Hs).
  assert (hostinfo (netloc parsed) = (h, Some p)) as Hinfo
    by (rewrite Hnl; by apply hostinfo_host_port).
  unfold urllib.port. rewrite Hinfo. simpl snd. cbv iota.
  pose proof Hp as [_ ->]%andb_true_iff.
  rewrite (int_all_digits _ Hp).
  replace (int_max_str_digits <? String.length p)%nat with false
    by (symmetry; apply Nat.ltb_ge; lia).
  assert (0 <= Spec.number p) as Hpos by (unfold Spec.number; lia).
  replace (0 <=? Spec.number p) with true by (symmetry; apply Z.leb_le; lia).
  replace (Spec.number p <=? 65535) with true by (symmetry; apply Z.leb_le; lia).
  simpl andb. cbv iota.
  rewrite (hostname_plain _ _ _ Hinfo Hne Hpercent), Hs.
  destruct (Spec.number p =? 0); eauto.
Qed.

End AbsoluteTargets.

(** X15: An absolute URI [http://host...] or [https://host...] as target: the
    record's host is the URI's host in lower case and the port is 443
    for [https] and 80 for [http], whatever the [Host] header says. *)
Theorem absolute_uri_default_port (request_text scheme h rest : string) :
  Spec.request_target request_text = Some (scheme +:+ "://" +:+ h +:+ rest) ->
  scheme = "http" \/ scheme = "https" ->
  Spec.plain_host h = true ->
  h <> EmptyString ->
  has_char "%" h = false ->
  Spec.starts_path rest = true ->
  exists r,
    HTTPParser.parse_request_text request_text = Some r
    /\ HTTPParser.host r = lower h
    /\ HTTPParser.port r = (if String.eqb scheme "https" then 443 else 80).
Proof.
  intros Htarget Hscheme Hh Hne Hpercent Hrest.
  destruct (request_target_matched _ _ Htarget) as (g1 & g3 & Hm).
  rewrite (parse_request_matched _ _ _ _ Hm), (is_absolute_scheme _ _ Hscheme).
  destruct (resolve_absolute_host scheme h rest Hscheme Hh Hne Hpercent Hrest)
    as (pa & ->).
  assert (lower h <> EmptyString) as Hl
    by (intros Hl; by apply map_string_empty in Hl).
  apply is_empty_false in Hl. rewrite Hl. by eexists.
Qed.

Lemma absolute_uri_default_port_witness :
  let request_text :=
    Wire.request "GET https://WWW.Example.Test/a?b HTTP/1.1" ["Host: other.test:81"] "" in
  exists r,
    HTTPParser.parse_request_text request_text = Some r
    /\ HTTPParser.host r = "www.example.test"
    /\ HTTPParser.port r = 443.
Proof.
  intros request_text.
  apply (absolute_uri_default_port request_text "https" "WWW.Example.Test" "/a?b");
    first [vm_compute; reflexivity | discriminate | by right].
Defined.

(** X16: An absolute URI with a written port, [scheme://host:port...]: the
    record's port is the number written when it is in 1..65535, and the
    scheme's default when the number written is 0. *)
Theorem absolute_uri_written_port (request_text scheme h p rest : string) :
  Spec.request_target request_text
  = Some (scheme +:+ "://" +:+ h +:+ ":" +:+ p +:+ rest) ->
  scheme = "http" \/ scheme = "https" ->
  Spec.plain_host h = true ->
  h <> EmptyString ->
  has_char "%" h = false ->
  Spec.all_digits p = true ->
  (String.length p <= int_max_str_digits)%nat ->
  Spec.number p <= 65535 ->
  Spec.starts_path rest = true ->
  exists r,
    HTTPParser.parse_request_text request_text = Some r
    /\ HTTPParser.host r = lower h
    /\ HTTPParser.port r
       = (if Spec.number p =? 0
          then (if String.eqb scheme "https" then 443 else 80)
          else Spec.number p).
Proof.
  intros Htarget Hscheme Hh Hne Hpercent Hp Hlen Hrange Hrest.
  destruct (request_target_matched _ _ Htarget) as (g1 & g3 & Hm).
  rewrite (parse_request_matched _ _ _ _ Hm), (is_absolute_scheme _ _ Hscheme).
  destruct (resolve_absolute_host_port scheme h p rest Hscheme Hh Hne Hpercent Hp
              Hlen Hrange Hrest) as (pa & ->).
  assert (lower h <> EmptyString) as Hl
    by (intros Hl; by apply map_string_empty in Hl).
  apply is_empty_false in Hl. rewrite Hl. by eexists.
Qed.

Lemma absolute_uri_written_port_witness :
  let request_text :=
    Wire.request "GET http://Example.Test:8080/a HTTP/1.1" ["Host: other.test"] "" in
  exists r,
    HTTPParser.parse_request_text request_text = Some r
    /\ HTTPParser.host r = "example.test"
    /\ HTTPParser.port r = 8080.
Proof.
  intros request_text.
  apply (absolute_uri_written_port request_text "http" "Example.Test" "8080" "/a");
    first [vm_compute; reflexivity | discriminate | by left
          | apply Nat.leb_le; vm_compute; reflexivity
          | apply Z.leb_le; vm_compute; reflexivity].
Defined.

Lemma no_CR_append (a b : string) :
  Wire.no_CR (a +:+ b) = Wire.no_CR a && Wire.no_CR b.
Proof. apply forallb_string_append. Qed.

Lemma letter_not_CR c : is_letter c = true -> negb (Ascii.eqb CR c) = true.
Proof. each_character c. Qed.

Lemma not_space_not_CR c : negb (isspace c) = true -> negb (Ascii.eqb CR c) = true.
Proof. each_character c. Qed.

Lemma digit_not_CR c : is_digit c = true -> Ascii.eqb CR c = false.
Proof. each_character c. Qed.

Lemma request_line_no_CR (method target : string) (major minor : ascii) :
  forallb_string is_letter method = true ->
  Wire.no_space target = true ->
  is_digit major = true -> is_digit minor = true ->
  Wire.no_CR (Wire.request_line method " " target " " (Wire.http_version major minor))
  = true.
Proof.
  intros Hm Ht H1 H2. unfold Wire.request_line, Wire.http_version.
  rewrite !no_CR_append, !andb_true_iff. repeat split; try reflexivity.
  - revert Hm. apply forallb_string_impl, letter_not_CR.
  - revert Ht. apply forallb_string_impl, not_space_not_CR.
  - change (Wire.no_CR (String major (String "." (String minor EmptyString))))
      with (negb (Ascii.eqb CR major)
            && (negb (Ascii.eqb CR ".") && (negb (Ascii.eqb CR minor) && true))).
    by rewrite (digit_not_CR _ H1), (digit_not_CR _ H2).
Qed.

(** X17: A request written in the usual way is parsed in full: a method of
    letters, one space, an origin-form target without white space, one
    space and [HTTP/d.d], then header lines of which the last with the
    key [host] has a value without colon.  The record has the method in
    upper case, that value as host, port 80, the target as path, the
    request line as written and the header dictionary of the lines;
    the body plays no part. *)
Theorem well_formed_request_is_parsed
    (method target hh : string) (major minor : ascii)
    (lines : list string) (body : string) :
  method <> EmptyString -> forallb_string is_letter method = true ->
  target <> EmptyString -> Wire.no_space target = true ->
  HTTPParser.is_absolute target = false ->
  is_digit major = true -> is_digit minor = true ->
  Forall (fun l => Wire.header_line l = true) lines ->
  Wire.last_entry "host" lines = Some hh ->
  hh <> EmptyString -> has_char ":" hh = false ->
  let line := Wire.request_line method " " target " " (Wire.http_version major minor) in
  HTTPParser.parse_request_text (Wire.request line lines body)
  = Some {| HTTPParser.method := upper method;
            HTTPParser.host := hh;
            HTTPParser.port := 80;
            HTTPParser.path := target;
            HTTPParser.request_line := line;
            HTTPParser.headers := fold_left HTTPParser.add_header lines ∅;
            HTTPParser.version := Wire.http_version major minor |}.
Proof.
  intros Hm Hml Ht Hts Habs H1 H2 Hlines Hlast Hne Hcolon line.
  assert (Wire.no_CR line = true) as Hline by (by apply request_line_no_CR).
  assert (HTTPParser.match_request_line
            (Spec.request_line_of (Wire.request line lines body))
          = Some (method, target, Wire.http_version major minor)) as Hmatch.
  { rewrite (request_line_of_request _ _ _ Hline).
    by apply match_request_line_complete. }
  rewrite (parse_request_matched _ _ _ _ Hmatch), Habs.
  rewrite (request_line_of_request _ _ _ Hline).
  rewrite (parse_headers_request _ _ _ Hline Hlines).
  unfold HTTPParser.resolve_relative.
  rewrite fold_add_header_lookup, Hlast.
  cbv beta iota delta [default from_option id]. rewrite Hcolon.
  apply is_empty_false in Hne. by rewrite Hne.
Qed.

Lemma well_formed_request_is_parsed_witness :
  (HTTPParser.host <$>
     HTTPParser.parse_request_text
       (Wire.request (Wire.request_line "post" " " "/submit" " " (Wire.http_version "1" "1"))
          ["Host: first.test"; "Content-Length: 3"; "HOST: Second.Test"] "a=b"))
  = Some "Second.Test".
Proof.
  rewrite (well_formed_request_is_parsed "post" "/submit" "Second.Test" "1" "1"
             ["Host: first.test"; "Content-Length: 3"; "HOST: Second.Test"] "a=b");
    first [reflexivity | discriminate | repeat constructor].
Defined.

(** *** The request line *)

Lemma hd_cons_head c (l : list string) :
  hd EmptyString (cons_head c l) = String c (hd EmptyString l).
Proof. by destruct l. Qed.

(** [text.split(sep)[0]] is the text before the first [sep]. *)
Lemma split_first (s sep : string) :
  sep <> EmptyString ->
  find (hd EmptyString (split s sep)) sep = None
  /\ (s = hd EmptyString (split s sep)
      \/ exists rest, s = hd EmptyString (split s sep) +:+ sep +:+ rest).
Proof.
  intros Hsep. unfold split. induction s as [| c s [IHf IHs]].
  - cbn [split_go hd]. split; [| by left]. rewrite find_unfold. by destruct sep.
  - change (split_go sep 0 (String c s))
      with (if startswith (String c s) sep
            then EmptyString :: split_go sep (String.length sep - 1) s
            else cons_head c (split_go sep 0 s)).
    destruct (startswith (String c s) sep) eqn:Hstart.
    + simpl hd. split; [rewrite find_unfold; by destruct sep |].
      right. apply startswith_spec in Hstart as [rest ->]. by exists rest.
    + rewrite hd_cons_head. revert IHf IHs.
      generalize (hd EmptyString (split_go sep 0 s)). intros h IHf IHs.
      assert (startswith (String c h) sep = false) as Hh.
      { destruct (startswith (String c h) sep) eqn:Hh; [| done].
        destruct IHs as [Hs | [rest Hs]].
        - by rewrite Hs, Hh in Hstart.
        - rewrite Hs, <- append_cons, (startswith_append _ _ _ Hh) in Hstart. done. }
      split.
      * by rewrite find_unfold, Hh, IHf.
      * destruct IHs as [-> | [rest ->]]; [by left |].
        right. exists rest. by rewrite append_cons.
Qed.

(** X18: The request line of a parsed request is the text before the first
    CRLF: it holds no CRLF, and the decoded request is that line alone or
    that line, CRLF and more. *)
Theorem request_line_is_first_line (request_text : string) (r : HTTPParser.request) :
  HTTPParser.parse_request_text request_text = Some r ->
  find (HTTPParser.request_line r) CRLF = None
  /\ (request_text = HTTPParser.request_line r
      \/ exists rest, request_text = HTTPParser.request_line r +:+ CRLF +:+ rest).
Proof.
  intros Hparse.
  destruct (parse_request_inv _ _ Hparse) as (g1 & target & g3 & _ & _ & -> & _).
  apply split_first. discriminate.
Qed.

Lemma request_line_is_first_line_witness :
  exists r,
    HTTPParser.parse_request_text (Wire.request "GET / HTTP/1.1" ["Host: a.test"] "")
    = Some r
    /\ find (HTTPParser.request_line r) CRLF = None.
Proof.
  destruct (HTTPParser.parse_request_text
              (Wire.request "GET / HTTP/1.1" ["Host: a.test"] "")) as [r |] eqn:Hparse;
    [| vm_compute in Hparse; discriminate].
  exists r. split; [reflexivity |].
  exact (proj1 (request_line_is_first_line _ r Hparse)).
Defined.

(** *** Decoding *)

Lemma decode_go_ascii (data : string) :
  forallb_string (fun c => (code c <? 128)%N) data = true ->
  HTTPParser.decode_go O data = data.
Proof.
  induction data as [| c data IH]; [done |].
  cbn [forallb_string HTTPParser.decode_go].
  intros [Hc Hd]%andb_true_iff. by rewrite Hc, (IH Hd).
Qed.

(** X19: Request bytes that are all ASCII are parsed as they are: decoding
    changes nothing, so what holds of the decoded text holds of the
    bytes. *)
Theorem ascii_request_is_parsed_as_written (request_data : string) :
  forallb_string (fun c => (code c <? 128)%N) request_data = true ->
  HTTPParser.decode request_data = request_data
  /\ HTTPParser.parse_request request_data
     = HTTPParser.parse_request_text request_data.
Proof.
  intros Hascii. unfold HTTPParser.parse_request, HTTPParser.decode.
  by rewrite (decode_go_ascii _ Hascii).
Qed.

Lemma ascii_request_is_parsed_as_written_witness :
  let request_data := Wire.request "GET / HTTP/1.1" ["Host: a.test"] "" in
  HTTPParser.parse_request request_data = HTTPParser.parse_request_text request_data.
Proof.
  intros request_data.
  refine (proj2 (ascii_request_is_parsed_as_written request_data _)).
  vm_compute. reflexivity.
Defined.

(** ** [src/proxy_server.py]: the request reader *)

Section ReaderStream.
Import ProxyServer.

Lemma take_append_drop n (s : string) : take n s +:+ drop n s = s.
Proof.
  revert s. induction n as [| n IH]; intros [| c s]; try reflexivity.
  simpl take. simpl drop. by rewrite append_cons, IH.
Qed.

Lemma recv_received n sock r sock' :
  recv n sock = (r, sock') ->
  match r with
  | Received chunk => Wire.received sock = chunk +:+ Wire.received sock'
  | TimedOut => Wire.received sock = Wire.received sock'
  | Failed => True
  end.
Proof.
  destruct sock as [| [bytes | |] rest]; simpl.
  - by intros [= <- <-].
  - destruct (String.length bytes <=? n)%nat; intros [= <- <-]; [done |].
    simpl. by rewrite <- append_assoc, take_append_drop.
  - by intros [= <- <-].
  - by intros [= <- <-].
Qed.

Lemma finish_received data sock o logged rest :
  finish data sock = Returned o logged rest ->
  match o with
  | Some d => data +:+ Wire.received sock = d +:+ Wire.received rest
  | None => logged = false -> data +:+ Wire.received sock = Wire.received rest
  end.
Proof.
  unfold finish. destruct data as [| c data]; simpl; by intros [= <- <- <-].
Qed.

Lemma read_body_received fuel sock data body_received content_length o logged rest :
  read_body fuel sock data body_received content_length = Returned o logged rest ->
  match o with
  | Some d => data +:+ Wire.received sock = d +:+ Wire.received rest
  | None => logged = false -> data +:+ Wire.received sock = Wire.received rest
  end.
Proof.
  revert sock data body_received.
  induction fuel as [| fuel IH]; intros sock data body_received; simpl.
  - destruct (_ <? _); [done | apply finish_received].
  - destruct (_ <? _); [| apply finish_received].
    destruct (recv _ sock) as [[chunk | |] sock'] eqn:Hrecv;
      apply recv_received in Hrecv; rewrite ?Hrecv.
    + destruct chunk as [| c chunk]; [apply finish_received |].
      cbn [is_empty]. intros H%IH. by rewrite append_assoc in H.
    + apply finish_received.
    + intros [= <- <- <-]. done.
Qed.

Lemma receive_loop_received fuel max_size sock data o logged rest :
  receive_loop fuel max_size sock data = Returned o logged rest ->
  match o with
  | Some d => data +:+ Wire.received sock = d +:+ Wire.received rest
  | None => logged = false -> data +:+ Wire.received sock = Wire.received rest
  end.
Proof.
  revert sock data.
  induction fuel as [| fuel IH]; intros sock data; simpl.
  - destruct (_ <? _)%nat; [done | apply finish_received].
  - destruct (_ <? _)%nat; [| apply finish_received].
    destruct (recv 4096 sock) as [[chunk | |] sock'] eqn:Hrecv;
      apply recv_received in Hrecv; rewrite ?Hrecv.
    + destruct chunk as [| c chunk]; [apply finish_received |].
      cbn [is_empty].
      destruct (find _ _).
      * destruct (0 <? _).
        -- intros H%read_body_received. by rewrite append_assoc in H.
        -- intros H%finish_received. by rewrite append_assoc in H.
      * intros H%IH. by rewrite append_assoc in H.
    + destruct data as [| c data]; [| apply finish_received].
      cbn [is_empty]. by intros [= <- <- <-].
    + intros [= <- <- <-]. done.
Qed.

End ReaderStream.

(** X20: The reader neither loses nor reorders bytes: when it returns a
    request, the bytes of the client's script are the request followed by
    the bytes still on the socket; and it returns [None] without logging
    an error only when it has taken no byte at all. *)
Theorem reader_keeps_the_byte_stream
    (client_socket rest : ProxyServer.socket) (data : option string) (logged : bool) :
  ProxyServer._receive_request client_socket = ProxyServer.Returned data logged rest ->
  match data with
  | Some d => Wire.received client_socket = d +:+ Wire.received rest
  | None => logged = false -> Wire.received client_socket = Wire.received rest
  end.
Proof.
  unfold ProxyServer._receive_request. intros H%receive_loop_received.
  by rewrite append_nil in H.
Qed.

Lemma reader_keeps_the_byte_stream_witness :
  let client_socket :=
    [ProxyServer.Data "GET / HT"; ProxyServer.Data ("TP/1.1" +:+ CRLFCRLF +:+ "GET /next");
     ProxyServer.Timeout; ProxyServer.Data " HTTP/1.1"] in
  exists d rest,
    ProxyServer._receive_request client_socket = ProxyServer.Returned (Some d) false rest
    /\ Wire.received client_socket = d +:+ Wire.received rest.
Proof.
  intros client_socket.
  destruct (ProxyServer._receive_request client_socket) as [[d |] logged rest |] eqn:H;
    [| vm_compute in H; discriminate | vm_compute in H; discriminate].
  exists d, rest.
  assert (logged = false) as -> by (vm_compute in H; by injection H as _ <- _).
  split; [reflexivity |].
  exact (reader_keeps_the_byte_stream client_socket rest (Some d) false H).
Defined.

Section ReaderBound.
Import ProxyServer.

Lemma read_body_length fuel sock data body_received content_length d logged rest :
  read_body fuel sock data body_received content_length = Returned (Some d) logged rest ->
  Z.of_nat (String.length d)
  <= Z.of_nat (String.length data) + Z.max 0 (content_length - body_received).
Proof.
  revert sock data body_received.
  induction fuel as [| fuel IH]; intros sock data body_received; simpl.
  - destruct (_ <? _); [done |]. intros ->%finish_some. lia.
  - destruct (body_received <? content_length) eqn:Hlt;
      [| intros ->%finish_some; lia].
    apply Z.ltb_lt in Hlt.
    destruct (recv _ sock) as [[chunk | |] sock'] eqn:Hrecv;
      [| intros ->%finish_some; lia | done].
    apply recv_length in Hrecv.
    destruct (is_empty chunk); [intros ->%finish_some; lia |].
    intros H%IH. rewrite length_append in H. lia.
Qed.

Lemma declared_end_extends (data more : string) header_end :
  find data CRLFCRLF = Some header_end ->
  Wire.declared_end (data +:+ more) = Wire.declared_end data.
Proof.
  intros Hfind. unfold Wire.declared_end.
  rewrite (find_append _ more _ _ Hfind), Hfind, take_append; [done |].
  apply find_length in Hfind. lia.
Qed.

Lemma receive_loop_length fuel max_size sock data d logged rest :
  Z.of_nat (String.length data) <= Z.of_nat max_size + 4095 ->
  find data CRLFCRLF = None ->
  receive_loop fuel max_size sock data = Returned (Some d) logged rest ->
  Z.of_nat (String.length d)
  <= Z.max (Z.of_nat max_size + 4095) (Wire.declared_end d).
Proof.
  revert sock data.
  induction fuel as [| fuel IH]; intros sock data Hlen Hnone; simpl.
  - destruct (_ <? _)%nat; [done |]. intros ->%finish_some. lia.
  - destruct (String.length data <? max_size)%nat eqn:Hroom;
      [| intros ->%finish_some; lia].
    apply Nat.ltb_lt in Hroom.
    destruct (recv 4096 sock) as [[chunk | |] sock'] eqn:Hrecv; [| | done].
    + apply recv_length in Hrecv.
      destruct (is_empty chunk); [intros ->%finish_some; lia |].
      assert (Z.of_nat (String.length (data +:+ chunk)) <= Z.of_nat max_size + 4095)
        as Hlen'.
      { rewrite length_append.
        assert (Z.of_nat (String.length chunk) <= 4096) as Hchunk
          by (apply Nat2Z.inj_le in Hrecv; exact Hrecv).
        lia. }
      destruct (find (data +:+ chunk) CRLFCRLF) as [header_end |] eqn:Hfind;
        [| by apply IH].
      destruct (0 <? _) eqn:Hbody; [| intros ->%finish_some; lia].
      apply Z.ltb_lt in Hbody.
      intros Hread. pose proof (read_body_length _ _ _ _ _ _ _ _ Hread) as Hd.
      apply read_body_extends in Hread as (more & ->).
      rewrite (declared_end_extends _ more _ Hfind).
      unfold Wire.declared_end. rewrite Hfind.
      pose proof (find_length _ _ _ Hfind) as Hend. simpl in Hend. lia.
    + destruct (is_empty data); [done | intros ->%finish_some; lia].
Qed.

End ReaderBound.

(** X21: How much the reader returns: at most 8191 + 4096 bytes, or, when the
    header block declares a body, up to the end of that body if it lies
    further; the body loop never takes a byte past the declared
    [Content-Length]. *)
Theorem reader_stops_at_declared_end
    (client_socket rest : ProxyServer.socket) (d : string) (logged : bool) :
  ProxyServer._receive_request client_socket
    = ProxyServer.Returned (Some d) logged rest ->
  Z.of_nat (String.length d) <= Z.max (8191 + 4096) (Wire.declared_end d).
Proof.
  unfold ProxyServer._receive_request. intros H.
  apply receive_loop_length in H; [| done | done].
  unfold ProxyServer.MAX_REQUEST in H. rewrite Z2Nat.id in H; lia.
Qed.

Lemma reader_stops_at_declared_end_witness :
  let head := "POST / HTTP/1.1" +:+ CRLF +:+ "Content-Length: 3" +:+ CRLFCRLF in
  let client_socket := [ProxyServer.Data head; ProxyServer.Data "abcdef"] in
  exists d,
    ProxyServer._receive_request client_socket
      = ProxyServer.Returned (Some d) false [ProxyServer.Data "def"]
    /\ Wire.declared_end d = 41
    /\ Z.of_nat (String.length d) <= Z.max (8191 + 4096) (Wire.declared_end d).
Proof.
  intros head client_socket.
  destruct (ProxyServer._receive_request client_socket) as [[d |] logged rest |] eqn:H;
    [| vm_compute in H; discriminate | vm_compute in H; discriminate].
  exists d.
  assert (logged = false /\ rest = [ProxyServer.Data "def"]) as [-> ->]
    by (vm_compute in H; by injection H as _ <- <-).
  split; [reflexivity |].
  split; [vm_compute in H; injection H as <-; vm_compute; reflexivity |].
  exact (reader_stops_at_declared_end client_socket _ d false H).
Defined.

Section ReaderWhole.
Import ProxyServer.

Lemma find_in_prefix (data more x : string) i :
  find (data +:+ more) x = Some i ->
  (i + String.length x <= String.length data)%nat ->
  find data x = Some i.
Proof.
  revert i. induction data as [| c data IH]; intros i.
  - rewrite append_nil. simpl String.length. intros Hfind Hlen.
    assert (i = O /\ x = EmptyString) as [-> ->] by (destruct x; simpl in Hlen; split; [lia | done | lia | lia]).
    reflexivity.
  - rewrite append_cons, (find_unfold (String c (data +:+ more))), (find_unfold (String c data)).
    rewrite <- append_cons.
    destruct (startswith (String c data +:+ more) x) eqn:Hstart.
    + intros [= <-] Hlen. by rewrite (startswith_append_inv _ _ _ Hstart).
    + destruct (find (data +:+ more) x) as [j |] eqn:Hj; [| done].
      change (S <$> Some j) with (Some (S j)). intros [= <-] Hlen.
      destruct (startswith (String c data) x) eqn:Hs;
        [by rewrite (startswith_append _ more _ Hs) in Hstart |].
      simpl in Hlen. by rewrite (IH j eq_refl ltac:(lia)).
Qed.

Lemma find_not_in_prefix (data more x : string) i :
  find (data +:+ more) x = Some i ->
  (String.length data < i + String.length x)%nat ->
  find data x = None.
Proof.
  intros Hfind Hlen. destruct (find data x) as [j |] eqn:Hj; [| done].
  pose proof (find_length _ _ _ Hj).
  rewrite (find_append _ more _ _ Hj) in Hfind. injection Hfind as <-. lia.
Qed.

Lemma streaming_empty sock :
  Wire.streaming sock -> Wire.received sock = EmptyString -> sock = [].
Proof.
  destruct sock as [| [bytes | |] rest]; [done | | |]; intros H; inversion H as [| ? ? Hb];
    subst; [| done | done].
  simpl. destruct bytes; [done | by rewrite append_cons].
Qed.

Lemma length_zero_empty (s : string) : String.length s = O -> s = EmptyString.
Proof. by destruct s. Qed.

(** A [recv] on the socket of a peer that only sends. *)
Lemma recv_streaming n sock r sock' :
  (0 < n)%nat -> Wire.streaming sock -> recv n sock = (r, sock') ->
  exists chunk,
    r = Received chunk /\ Wire.streaming sock'
    /\ Wire.received sock = chunk +:+ Wire.received sock'
    /\ (chunk = EmptyString -> sock = [] /\ sock' = []).
Proof.
  intros Hn Hs Hrecv. pose proof (recv_received _ _ _ _ Hrecv) as Hbytes.
  destruct sock as [| [bytes | |] rest]; simpl in Hrecv;
    [| | exfalso; by inversion Hs | exfalso; by inversion Hs].
  - injection Hrecv as <- <-. by exists EmptyString.
  - inversion Hs as [| ? ? Hb Hrest]; subst.
    destruct (String.length bytes <=? n)%nat eqn:Hlen; injection Hrecv as <- <-.
    + exists bytes. repeat split; done.
    + apply Nat.leb_gt in Hlen. exists (take n bytes). repeat split; try done.
      * constructor; [| done]. intros Hd. apply (f_equal String.length) in Hd.
        rewrite length_drop in Hd. simpl in Hd. lia.
      * destruct n; [lia |]. destruct bytes; [done | discriminate].
      * destruct n; [lia |]. destruct bytes; [done | discriminate].
Qed.

Lemma read_body_whole fuel sock data body_received content_length :
  Wire.streaming sock -> (pending sock < fuel)%nat ->
  data <> EmptyString ->
  Z.of_nat (String.length (Wire.received sock))
  <= Z.max 0 (content_length - body_received) ->
  read_body fuel sock data body_received content_length
  = Returned (Some (data +:+ Wire.received sock)) false [].
Proof.
  assert (forall data, data <> EmptyString ->
            finish data [] = Returned (Some data) false []) as Hfinish.
  { intros d Hd. unfold finish. apply is_empty_false in Hd. by rewrite Hd. }
  revert sock data body_received.
  induction fuel as [| fuel IH]; intros sock data body_received Hs Hfuel Hne Hlen;
    [lia |].
  simpl. destruct (body_received <? content_length) eqn:Hlt.
  - apply Z.ltb_lt in Hlt.
    assert (0 < Z.to_nat (Z.min 4096 (content_length - body_received)))%nat as Hn
      by lia.
    destruct (recv _ sock) as [r sock'] eqn:Hrecv.
    pose proof (recv_progress _ _ _ _ Hn Hrecv) as Hprogress.
    destruct (recv_streaming _ _ _ _ Hn Hs Hrecv)
      as (chunk & -> & Hs' & Hbytes & Hclosed).
    destruct chunk as [| c chunk].
    + destruct (Hclosed eq_refl) as [-> ->]. cbn [is_empty].
      simpl Wire.received. rewrite append_empty_r. by apply Hfinish.
    + cbn [is_empty]. rewrite Hbytes, <- append_assoc.
      apply IH; [done | | by destruct data |].
      * destruct Hprogress as [[_ [=]] | ?]. lia.
      * rewrite Hbytes, length_append in Hlen. lia.
  - apply Z.ltb_ge in Hlt.
    assert (Wire.received sock = EmptyString) as Hnone by (apply length_zero_empty; lia).
    rewrite (streaming_empty _ Hs Hnone). simpl Wire.received. rewrite append_empty_r.
    by apply Hfinish.
Qed.

Lemma receive_loop_whole fuel max_size sock data header_end :
  Wire.streaming sock -> (pending sock < fuel)%nat ->
  find (data +:+ Wire.received sock) CRLFCRLF = Some header_end ->
  (header_end + 4 <= max_size)%nat ->
  find data CRLFCRLF = None ->
  Z.of_nat (String.length (data +:+ Wire.received sock))
  <= Wire.declared_end (data +:+ Wire.received sock) ->
  receive_loop fuel max_size sock data
  = Returned (Some (data +:+ Wire.received sock)) false [].
Proof.
  revert sock data.
  induction fuel as [| fuel IH]; intros sock data Hs Hfuel Hfind Hmax Hnone Hend;
    [lia |].
  simpl.
  assert (String.length data < header_end + 4)%nat as Hshort.
  { destruct (Nat.lt_ge_cases (String.length data) (header_end + 4)) as [| Hge];
      [done |].
    rewrite (find_in_prefix _ _ _ _ Hfind) in Hnone; [done | simpl; lia]. }
  replace (String.length data <? max_size)%nat with true
    by (symmetry; apply Nat.ltb_lt; lia).
  assert (0 < 4096)%nat as Hn by lia.
  destruct (recv 4096 sock) as [r sock'] eqn:Hrecv.
  pose proof (recv_progress _ _ _ _ Hn Hrecv) as Hprogress.
  destruct (recv_streaming _ _ _ _ Hn Hs Hrecv)
    as (chunk & -> & Hs' & Hbytes & Hclosed).
  destruct chunk as [| c chunk].
  { destruct (Hclosed eq_refl) as [-> ->]. simpl Wire.received in Hfind.
    rewrite append_empty_r in Hfind. congruence. }
  cbn [is_empty]. rewrite Hbytes, <- append_assoc in Hfind, Hend |- *.
  set (data' := data +:+ String c chunk) in *.
  destruct (Nat.lt_ge_cases (String.length data') (header_end + 4)) as [Hlt | Hge].
  - rewrite (find_not_in_prefix _ _ _ _ Hfind) by (simpl; lia).
    apply IH; try done.
    + destruct Hprogress as [[_ [=]] | ?]. lia.
    + apply (find_not_in_prefix _ _ _ _ Hfind). simpl. lia.
  - pose proof (find_in_prefix _ _ _ _ Hfind ltac:(simpl; lia)) as Hhere.
    rewrite Hhere. rewrite (declared_end_extends _ _ _ Hhere) in Hend.
    unfold Wire.declared_end in Hend. rewrite Hhere in Hend.
    rewrite length_append in Hend.
    assert (data' <> EmptyString) as Hne by (subst data'; by destruct data).
    destruct (0 <? _) eqn:Hbody.
    + apply read_body_whole; [done | | done | lia].
      destruct Hprogress as [[_ [=]] | ?]. lia.
    + apply Z.ltb_ge in Hbody.
      assert (Wire.received sock' = EmptyString) as Hnone'
        by (apply length_zero_empty; lia).
      rewrite (streaming_empty _ Hs' Hnone'). simpl Wire.received.
      rewrite append_empty_r. unfold finish.
      apply is_empty_false in Hne. by rewrite Hne.
Qed.

End ReaderWhole.

(** X22: Segmentation does not matter: when a client sends a request and
    closes, with the blank line within the first 8192 bytes and no byte
    past the end the request declares, the reader returns the request
    whole and leaves nothing on the socket, however the bytes were cut
    into segments. *)
Theorem complete_request_is_read_whole
    (client_socket : ProxyServer.socket) (header_end : nat) :
  Wire.streaming client_socket ->
  find (Wire.received client_socket) CRLFCRLF = Some header_end ->
  Z.of_nat header_end + 4 <= 8192 ->
  Z.of_nat (String.length (Wire.received client_socket))
  <= Wire.declared_end (Wire.received client_socket) ->
  ProxyServer._receive_request client_socket
  = ProxyServer.Returned (Some (Wire.received client_socket)) false [].
Proof.
  intros Hs Hfind Hmax Hend. unfold ProxyServer._receive_request.
  pose proof (receive_loop_whole (S (ProxyServer.pending client_socket))
                ProxyServer.MAX_REQUEST client_socket EmptyString header_end) as H.
  rewrite append_nil in H. apply H; try done.
  - lia.
  - unfold ProxyServer.MAX_REQUEST. lia.
Qed.

Lemma complete_request_is_read_whole_witness :
  let client_socket :=
    [ProxyServer.Data "POST / HT"; ProxyServer.Data ("TP/1.1" +:+ CRLF +:+ "Content-Len");
     ProxyServer.Data ("gth: 6" +:+ CRLF); ProxyServer.Data (CRLF +:+ "ab");
     ProxyServer.Data "cdef"] in
  ProxyServer._receive_request client_socket
  = ProxyServer.Returned
      (Some ("POST / HTTP/1.1" +:+ CRLF +:+ "Content-Length: 6" +:+ CRLFCRLF +:+ "abcdef"))
      false [].
Proof.
  intros client_socket.
  apply (complete_request_is_read_whole client_socket 34).
  - subst client_socket. repeat constructor; discriminate.
  - vm_compute. reflexivity.
  - lia.
  - vm_compute. discriminate.
Defined.

(** ** [src/proxy_server.py]: the handler *)

Section HandlerSteps.
Import ProxyServer.
Variable w : world.
Variable P : event -> Prop.

Lemma emits_ret {A} (a : A) : Wire.emits P (ret a).
Proof. intros st. exists []. by rewrite app_nil_r. Qed.

Lemma emits_raise {A} e : Wire.emits P (@raise A e).
Proof. intros st. exists []. by rewrite app_nil_r. Qed.

Lemma emits_get {A} (f : state -> A) : Wire.emits P (get f).
Proof. intros st. exists []. by rewrite app_nil_r. Qed.

Lemma emits_set_origin_in sock : Wire.emits P (set_origin_in sock).
Proof. intros st. exists []. by rewrite app_nil_r. Qed.

Lemma emits_emit e : P e -> Wire.emits P (emit e).
Proof. intros He st. exists [e]. split; [done | by constructor]. Qed.

Lemma emits_bind {A B} (m : M A) (f : A -> M B) :
  Wire.emits P m -> (forall a, Wire.emits P (f a)) -> Wire.emits P (bind f m).
Proof.
  intros Hm Hf st. unfold bind. destruct (Hm st) as (ev1 & H1 & HP1).
  destruct (m st) as [[a | e] st1]; simpl in H1.
  - destruct (Hf a st1) as (ev2 & H2 & HP2). exists (ev1 ++ ev2).
    rewrite H2, H1, app_assoc. split; [done | by apply Forall_app].
  - by exists ev1.
Qed.

Lemma emits_try_except {A} (m : M A) (handler : exn -> M A) :
  Wire.emits P m -> (forall e, Wire.emits P (handler e)) ->
  Wire.emits P (try_except m handler).
Proof.
  intros Hm Hh st. unfold try_except. destruct (Hm st) as (ev1 & H1 & HP1).
  destruct (m st) as [[a | e] st1]; simpl in H1.
  - by exists ev1.
  - destruct (Hh e st1) as (ev2 & H2 & HP2). exists (ev1 ++ ev2).
    rewrite H2, H1, app_assoc. split; [done | by apply Forall_app].
Qed.

Lemma emits_finally {A} (m : M A) (cleanup : M unit) :
  Wire.emits P m -> Wire.emits P cleanup -> Wire.emits P (finally m cleanup).
Proof.
  intros Hm Hc st. unfold finally. destruct (Hm st) as (ev1 & H1 & HP1).
  destruct (m st) as [r st1]; simpl in H1.
  destruct (Hc st1) as (ev2 & H2 & HP2).
  destruct (cleanup st1) as [u st2]; simpl in *. exists (ev1 ++ ev2).
  rewrite H2, H1, app_assoc. split; [done | by apply Forall_app].
Qed.

Hypothesis client_data : forall data, P (client_sendall data).
Hypothesis origin_data : forall data, P (origin_sendall data).
Hypothesis logs : forall m, P (log_error m).

Lemma emits_client_send data : Wire.emits P (client_send w data).
Proof.
  unfold client_send. destruct (client_writable w);
    [by apply emits_emit | apply emits_raise].
Qed.

Lemma emits_origin_recv : Wire.emits P origin_recv.
Proof.
  unfold origin_recv. apply emits_bind; [apply emits_get |]. intros sock.
  destruct (recv 4096 sock) as [r sock'].
  apply emits_bind; [apply emits_set_origin_in |]. intros _.
  destruct r; [apply emits_ret | apply emits_raise | apply emits_raise].
Qed.

Lemma emits_forward_response fuel response_size status_code :
  Wire.emits P (forward_response w fuel response_size status_code).
Proof.
  revert response_size status_code.
  induction fuel as [| fuel IH]; intros response_size status_code;
    [apply emits_ret |].
  simpl. apply emits_bind; [apply emits_origin_recv |]. intros chunk.
  destruct (is_empty chunk); [apply emits_ret |].
  apply emits_bind; [apply emits_client_send |]. intros _. apply IH.
Qed.

Lemma emits_forward_ready ready : Wire.emits P (forward_ready w ready).
Proof.
  induction ready as [| [from r] ready IH]; [apply emits_ret |].
  simpl. destruct r as [data | |]; [| apply emits_raise | apply emits_raise].
  destruct (is_empty data); [apply emits_ret |].
  apply emits_bind; [| intros _; apply IH].
  destruct from; [by apply emits_emit | apply emits_client_send].
Qed.

Lemma tunnel_round read ready rounds :
  _tunnel_connection w (Readable (read :: ready) :: rounds) =
  (continue ← try_except (forward_ready w (read :: ready))
                (fun _ => emit (log_error TunnelError) ;; ret false);
   if (continue : bool) then _tunnel_connection w rounds else ret tt).
Proof. reflexivity. Qed.

Lemma emits_tunnel rounds : Wire.emits P (_tunnel_connection w rounds).
Proof.
  induction rounds as [| [| | ready] rounds IH]; try apply emits_ret.
  destruct ready as [| read ready]; [apply emits_ret |].
  rewrite tunnel_round. apply emits_bind.
  - apply emits_try_except; [apply emits_forward_ready |]. intros _.
    apply emits_bind; [by apply emits_emit | intros _; apply emits_ret].
  - intros [|]; [apply IH | apply emits_ret].
Qed.

End HandlerSteps.

Section HandlerRuns.
Import ProxyServer.
Variable w : world.

Lemma serves_client_data host port data : Wire.serves host port (client_sendall data).
Proof. done. Qed.

Lemma serves_origin_data host port data : Wire.serves host port (origin_sendall data).
Proof. done. Qed.

Lemma serves_logs host port m : Wire.serves host port (log_error m).
Proof. done. Qed.

Lemma emits_connect host port :
  Wire.emits (Wire.serves host port) (connect w host port).
Proof.
  unfold connect. apply emits_bind; [by apply emits_emit |]. intros _.
  destruct (connecting w); [apply emits_ret | apply emits_raise | apply emits_raise].
Qed.

Lemma emits_error_response host port (e : event) data :
  Wire.serves host port e ->
  Wire.emits (Wire.serves host port) (bind (fun _ => client_send w data) (emit e)).
Proof.
  intros He. apply emits_bind; [by apply emits_emit |]. intros _.
  by apply emits_client_send.
Qed.

(** Serving a request for [host:port] connects nowhere else and does not
    release the permit. *)
Lemma emits_handle_http_request host port parsed_request request_data :
  Wire.emits (Wire.serves host port)
    (_handle_http_request w host port parsed_request request_data).
Proof.
  unfold _handle_http_request.
  apply emits_finally; [| by apply emits_emit].
  apply emits_try_except.
  - apply emits_bind; [apply emits_connect |]. intros _.
    apply emits_bind; [by apply emits_emit |]. intros _.
    apply emits_bind; [apply emits_get |]. intros sock.
    apply emits_bind; [by apply emits_forward_response |]. intros r.
    by apply emits_emit.
  - intros []; by apply emits_error_response.
Qed.

Lemma emits_handle_connect host port parsed_request :
  Wire.emits (Wire.serves host port) (_handle_connect w host port parsed_request).
Proof.
  unfold _handle_connect.
  apply emits_finally; [| by apply emits_emit].
  apply emits_try_except.
  - apply emits_bind; [apply emits_connect |]. intros _.
    apply emits_bind; [by apply emits_client_send |]. intros _.
    apply emits_bind; [by apply emits_emit |]. intros _.
    by apply emits_tunnel.
  - intros []; by apply emits_error_response.
Qed.

End HandlerRuns.

Section HandlerCases.
Import ProxyServer.
Variable w : world.
Variables client_socket origin_socket : socket.
Variable fm : FilterManager.t.

Ltac run_handler :=
  unfold handle, _handle_client, finally, try_except, receive_request, client_send;
  unfold mbind, M_bind, bind, get, set_client_in, set_filter_manager, emit, ret, raise.

(** The handler when the reader returns nothing. *)
Lemma handle_no_request logged rest :
  _receive_request client_socket = Returned None logged rest ->
  handle w client_socket origin_socket fm =
  (if logged then [log_error ReceiveError] else []) ++ [client_close; semaphore_release].
Proof.
  intros Hrecv. run_handler. simpl. rewrite Hrecv. by destruct logged.
Qed.

(** The handler on a request for a blocked host. *)
Lemma handle_blocked request_data logged rest r :
  _receive_request client_socket = Returned (Some request_data) logged rest ->
  HTTPParser.parse_request request_data = Some r ->
  FilterManager.is_blocked
    (fst (FilterManager.reload_if_changed fm (rules_file w))) (HTTPParser.host r) = true ->
  handle w client_socket origin_socket fm =
  log_blocked (fst (client_address w)) (snd (client_address w))
    (HTTPParser.host r) (HTTPParser.port r) (HTTPParser.request_line r)
  :: (if client_writable w then [client_sendall RESPONSE_403; client_close]
      else [log_error (ClientError (client_address w))])
  ++ [client_close; semaphore_release].
Proof.
  intros Hrecv Hparse Hblocked.
  assert (logged = false) as -> by (eapply receive_loop_some; exact Hrecv).
  run_handler. simpl. rewrite Hrecv. simpl. rewrite Hparse. simpl. rewrite Hblocked.
  by destruct (client_writable w).
Qed.

(** The handler on a request for a host that is not blocked: the events
    of [_handle_connect] or [_handle_http_request], an error logged if
    that raises, and the end of every handler. *)
Lemma handle_allowed request_data logged rest r :
  _receive_request client_socket = Returned (Some request_data) logged rest ->
  HTTPParser.parse_request request_data = Some r ->
  FilterManager.is_blocked
    (fst (FilterManager.reload_if_changed fm (rules_file w))) (HTTPParser.host r) = false ->
  let st := {| trace := []; client_in := rest; origin_in := origin_socket;
               filter_manager := fst (FilterManager.reload_if_changed fm (rules_file w)) |} in
  let served :=
    (if String.eqb (HTTPParser.method r) "CONNECT"
     then _handle_connect w (HTTPParser.host r) (HTTPParser.port r) r
     else _handle_http_request w (HTTPParser.host r) (HTTPParser.port r) r request_data)
      st in
  handle w client_socket origin_socket fm =
  trace (snd served)
  ++ match fst served with
     | Ok _ => []
     | Raise _ => [log_error (ClientError (client_address w))]
     end
  ++ [client_close; semaphore_release].
Proof.
  intros Hrecv Hparse Hblocked st served.
  assert (logged = false) as -> by (eapply receive_loop_some; exact Hrecv).
  run_handler.
  cbn -[_handle_connect _handle_http_request FilterManager.reload_if_changed
        FilterManager.is_blocked HTTPParser.parse_request _receive_request String.eqb].
  rewrite Hrecv.
  cbn -[_handle_connect _handle_http_request FilterManager.reload_if_changed
        FilterManager.is_blocked HTTPParser.parse_request _receive_request String.eqb].
  rewrite Hparse.
  cbn -[_handle_connect _handle_http_request FilterManager.reload_if_changed
        FilterManager.is_blocked HTTPParser.parse_request _receive_request String.eqb].
  rewrite Hblocked.
  fold st. subst served.
  destruct (String.eqb (HTTPParser.method r) "CONNECT").
  - destruct (_handle_connect w (HTTPParser.host r) (HTTPParser.port r) r st)
      as [[[] | e] st']; simpl; by rewrite <- ?app_assoc.
  - destruct (_handle_http_request w (HTTPParser.host r) (HTTPParser.port r) r
                request_data st) as [[[] | e] st']; simpl; by rewrite <- ?app_assoc.
Qed.

End HandlerCases.

Lemma served_events (w : ProxyServer.world) (r : HTTPParser.request)
    (request_data : string) (rest origin_socket : ProxyServer.socket)
    (fm : FilterManager.t) :
  let st := {| ProxyServer.trace := []; ProxyServer.client_in := rest;
               ProxyServer.origin_in := origin_socket;
               ProxyServer.filter_manager := fm |} in
  Forall (Wire.serves (HTTPParser.host r) (HTTPParser.port r))
    (ProxyServer.trace
       (snd ((if String.eqb (HTTPParser.method r) "CONNECT"
              then ProxyServer._handle_connect w (HTTPParser.host r) (HTTPParser.port r) r
              else ProxyServer._handle_http_request w (HTTPParser.host r)
                     (HTTPParser.port r) r request_data) st))).
Proof.
  intros st. destruct (String.eqb (HTTPParser.method r) "CONNECT").
  - by destruct (emits_handle_connect w (HTTPParser.host r) (HTTPParser.port r) r st)
      as (events & -> & H).
  - by destruct (emits_handle_http_request w (HTTPParser.host r) (HTTPParser.port r) r
                   request_data st) as (events & -> & H).
Qed.

(** X23: Every handler ends by closing the client socket and releasing its
    permit, and releases the permit nowhere else: exactly one release per
    connection, whatever the client, the rules file and the origin do. *)
Theorem permit_is_released_exactly_once
    (w : ProxyServer.world) (client_socket origin_socket : ProxyServer.socket)
    (fm : FilterManager.t) :
  exists events,
    ProxyServer.handle w client_socket origin_socket fm
    = events ++ [ProxyServer.client_close; ProxyServer.semaphore_release]
    /\ ProxyServer.semaphore_release ∉ events.
Proof.
  destruct (ProxyServer._receive_request client_socket)
    as [[request_data |] logged rest |] eqn:Hrecv;
    [| | by apply receive_request_returns in Hrecv].
  - destruct (HTTPParser.parse_request request_data) as [r |] eqn:Hparse.
    + destruct (FilterManager.is_blocked
                  (fst (FilterManager.reload_if_changed fm (ProxyServer.rules_file w)))
                  (HTTPParser.host r)) eqn:Hblocked.
      * rewrite (handle_blocked _ _ _ _ _ _ _ _ Hrecv Hparse Hblocked).
        eexists (_ :: _). split; [reflexivity |].
        destruct (ProxyServer.client_writable w); rewrite !elem_of_cons;
          intros [? | [? | H]]; try done;
          [destruct H as [? | H]; [done | by apply elem_of_nil in H]
          | by apply elem_of_nil in H].
      * rewrite (handle_allowed _ _ _ _ _ _ _ _ Hrecv Hparse Hblocked).
        pose proof (served_events w r request_data rest origin_socket
                      (fst (FilterManager.reload_if_changed fm (ProxyServer.rules_file w))))
          as Hserved.
        eexists (_ ++ _). split; [by rewrite app_assoc |].
        rewrite elem_of_app. intros [Hin | Hin].
        -- rewrite Forall_forall in Hserved. exact (Hserved _ Hin).
        -- match type of Hin with
           | _ ∈ match ?x with _ => _ end => destruct x
           end; [by apply elem_of_nil in Hin |].
           apply list_elem_of_singleton in Hin. done.
    + rewrite (unparsed_request_is_rejected _ _ _ _ _ _ _ Hrecv Hparse).
      eexists [_; _]. split; [reflexivity |].
      rewrite !elem_of_cons. intros [? | [? | H]]; try done. by apply elem_of_nil in H.
  - rewrite (handle_no_request _ _ _ _ _ _ Hrecv). eexists. split; [reflexivity |].
    destruct logged; [| apply not_elem_of_nil].
    intros H. by apply list_elem_of_singleton in H.
Qed.

(** X24: The handler connects only where the filter lets it: a connection to
    an origin appears in the trace only for the host and port of the
    request that was read and parsed, and only when [is_blocked] has
    answered false for that host after [reload_if_changed]. *)
Theorem connects_only_to_unblocked_host
    (w : ProxyServer.world) (client_socket origin_socket : ProxyServer.socket)
    (fm : FilterManager.t) (host : string) (port : Z) :
  ProxyServer.origin_connect host port
    ∈ ProxyServer.handle w client_socket origin_socket fm ->
  exists request_data rest r,
    ProxyServer._receive_request client_socket
      = ProxyServer.Returned (Some request_data) false rest
    /\ HTTPParser.parse_request request_data = Some r
    /\ HTTPParser.host r = host /\ HTTPParser.port r = port
    /\ FilterManager.is_blocked
         (fst (FilterManager.reload_if_changed fm (ProxyServer.rules_file w))) host
       = false.
Proof.
  destruct (ProxyServer._receive_request client_socket)
    as [[request_data |] logged rest |] eqn:Hrecv;
    [| | by apply receive_request_returns in Hrecv].
  - assert (logged = false) as -> by (eapply receive_loop_some; exact Hrecv).
    destruct (HTTPParser.parse_request request_data) as [r |] eqn:Hparse.
    + destruct (FilterManager.is_blocked
                  (fst (FilterManager.reload_if_changed fm (ProxyServer.rules_file w)))
                  (HTTPParser.host r)) eqn:Hblocked.
      * rewrite (handle_blocked _ _ _ _ _ _ _ _ Hrecv Hparse Hblocked).
        destruct (ProxyServer.client_writable w); simpl; rewrite !elem_of_cons;
          intros H; exfalso;
          repeat (destruct H as [H | H]; [discriminate H |]); by apply elem_of_nil in H.
      * rewrite (handle_allowed _ _ _ _ _ _ _ _ Hrecv Hparse Hblocked).
        pose proof (served_events w r request_data rest origin_socket
                      (fst (FilterManager.reload_if_changed fm (ProxyServer.rules_file w))))
          as Hserved.
        rewrite !elem_of_app. intros [Hin | [Hin | Hin]].
        -- rewrite Forall_forall in Hserved. destruct (Hserved _ Hin) as [-> ->].
           by exists request_data, rest, r.
        -- exfalso.
           match type of Hin with
           | _ ∈ match ?x with _ => _ end => destruct x
           end; [by apply elem_of_nil in Hin |].
           by apply list_elem_of_singleton in Hin.
        -- exfalso. rewrite !elem_of_cons in Hin.
           repeat (destruct Hin as [Hin | Hin]; [discriminate Hin |]).
           by apply elem_of_nil in Hin.
    + rewrite (unparsed_request_is_rejected _ _ _ _ _ _ _ Hrecv Hparse).
      rewrite !elem_of_cons. intros H. exfalso.
      repeat (destruct H as [H | H]; [discriminate H |]). by apply elem_of_nil in H.
  - rewrite (handle_no_request _ _ _ _ _ _ Hrecv).
    destruct logged; simpl; rewrite !elem_of_cons; intros H; exfalso;
      repeat (destruct H as [H | H]; [discriminate H |]); by apply elem_of_nil in H.
Qed.

Lemma connects_only_to_unblocked_host_witness :
  let w := {| ProxyServer.client_address := ("10.0.0.7", 50123);
              ProxyServer.client_writable := true;
              ProxyServer.rules_file := Examples.rules_file 5000 ["blocked.test"];
              ProxyServer.connecting := ProxyServer.ConnectFails;
              ProxyServer.selects := [] |} in
  let client_socket :=
    [ProxyServer.Data (Wire.request "GET / HTTP/1.1" ["Host: open.test:8080"] "")] in
  ProxyServer.origin_connect "open.test" 8080
    ∈ ProxyServer.handle w client_socket [] (Examples.filter_of [])
  /\ FilterManager.is_blocked
       (fst (FilterManager.reload_if_changed (Examples.filter_of [])
               (ProxyServer.rules_file w))) "open.test" = false.
Proof.
  intros w client_socket.
  assert (ProxyServer.origin_connect "open.test" 8080
            ∈ ProxyServer.handle w client_socket [] (Examples.filter_of [])) as Hin.
  { assert (ProxyServer.handle w client_socket [] (Examples.filter_of [])
            = ProxyServer.origin_connect "open.test" 8080
              :: tl (ProxyServer.handle w client_socket [] (Examples.filter_of [])))
      as -> by (vm_compute; reflexivity).
    apply elem_of_cons. by left. }
  split; [exact Hin |].
  destruct (connects_only_to_unblocked_host w client_socket [] (Examples.filter_of [])
              "open.test" 8080 Hin) as (_ & _ & _ & _ & _ & _ & _ & H).
  exact H.
Defined.

(** X25: A request for a blocked host never reaches an origin: whether or not
    the client still takes the 403 response, the trace has no
    connection to, no write to and no close of an origin socket; when the
    client socket refuses the write, the handler logs the error and ends
    as every handler does. *)
Theorem blocked_request_never_reaches_origin
    (w : ProxyServer.world) (client_socket origin_socket : ProxyServer.socket)
    (fm : FilterManager.t) (request_data : string) (logged : bool)
    (rest : ProxyServer.socket) (r : HTTPParser.request) :
  ProxyServer._receive_request client_socket
    = ProxyServer.Returned (Some request_data) logged rest ->
  HTTPParser.parse_request request_data = Some r ->
  FilterManager.is_blocked
    (fst (FilterManager.reload_if_changed fm (ProxyServer.rules_file w)))
    (HTTPParser.host r) = true ->
  Forall (fun e => Wire.origin_event e = false)
    (ProxyServer.handle w client_socket origin_socket fm)
  /\ (ProxyServer.client_writable w = false ->
      ProxyServer.handle w client_socket origin_socket fm =
      [ ProxyServer.log_blocked
          (fst (ProxyServer.client_address w)) (snd (ProxyServer.client_address w))
          (HTTPParser.host r) (HTTPParser.port r) (HTTPParser.request_line r);
        ProxyServer.log_error (ProxyServer.ClientError (ProxyServer.client_address w));
        ProxyServer.client_close;
        ProxyServer.semaphore_release ]).
Proof.
  intros Hrecv Hparse Hblocked.
  rewrite (handle_blocked _ _ _ _ _ _ _ _ Hrecv Hparse Hblocked).
  split; [destruct (ProxyServer.client_writable w); repeat constructor | by intros ->].
Qed.

Lemma blocked_request_never_reaches_origin_witness :
  let w := {| ProxyServer.client_address := ("10.0.0.7", 50123);
              ProxyServer.client_writable := false;
              ProxyServer.rules_file := Examples.rules_file 5000 ["blocked.test"];
              ProxyServer.connecting := ProxyServer.Connected;
              ProxyServer.selects := [] |} in
  let request_data := Wire.request "GET / HTTP/1.1" ["Host: Blocked.Test"] "" in
  Forall (fun e => Wire.origin_event e = false)
    (ProxyServer.handle w [ProxyServer.Data request_data]
       [ProxyServer.Data "HTTP/1.1 200 OK"] (Examples.filter_of [])).
Proof.
  intros w request_data.
  destruct (HTTPParser.parse_request request_data) as [r |] eqn:Hparse;
    [| vm_compute in Hparse; discriminate].
  assert (ProxyServer._receive_request [ProxyServer.Data request_data]
          = ProxyServer.Returned (Some request_data) false []) as H1
    by (vm_compute; reflexivity).
  assert (FilterManager.is_blocked
            (fst (FilterManager.reload_if_changed (Examples.filter_of [])
                    (ProxyServer.rules_file w))) (HTTPParser.host r) = true) as H3.
  { vm_compute in Hparse. injection Hparse as <-. vm_compute. reflexivity. }
  exact (proj1 (blocked_request_never_reaches_origin w _ _ (Examples.filter_of [])
                  request_data false [] r H1 Hparse H3)).
Defined.

(** X26: A client that sends nothing gets nothing: when the reader returns
    [None] (the client closed or stayed silent, or the read failed), the
    handler sends no response and contacts no origin; it logs the read
    error if there was one, closes the socket and releases its permit. *)
Theorem no_request_no_response
    (w : ProxyServer.world) (client_socket origin_socket : ProxyServer.socket)
    (fm : FilterManager.t) (logged : bool) (rest : ProxyServer.socket) :
  ProxyServer._receive_request client_socket = ProxyServer.Returned None logged rest ->
  ProxyServer.handle w client_socket origin_socket fm =
  (if logged then [ProxyServer.log_error ProxyServer.ReceiveError] else [])
  ++ [ProxyServer.client_close; ProxyServer.semaphore_release].
Proof. apply handle_no_request. Qed.

Lemma no_request_no_response_witness :
  let w := {| ProxyServer.client_address := ("10.0.0.7", 50123);
              ProxyServer.client_writable := true;
              ProxyServer.rules_file := Examples.rules_file 5000 [];
              ProxyServer.connecting := ProxyServer.Connected;
              ProxyServer.selects := [] |} in
  ProxyServer.handle w [ProxyServer.Timeout; ProxyServer.Data "GET / HTTP/1.1"] []
    (Examples.filter_of [])
  = [ProxyServer.client_close; ProxyServer.semaphore_release].
Proof.
  intros w.
  apply (no_request_no_response w _ [] (Examples.filter_of []) false
           [ProxyServer.Data "GET / HTTP/1.1"]).
  vm_compute. reflexivity.
Defined.

Section Served.
Import ProxyServer.
Variable w : world.

Ltac run_served :=
  unfold _handle_http_request, _handle_connect, finally, try_except, connect, client_send;
  unfold mbind, M_bind, bind, get, emit, ret, raise.

(** [_handle_http_request] and [_handle_connect] when the connection to
    the origin is not made. *)
Lemma http_request_not_connected host port r request_data st :
  client_writable w = true ->
  connecting w <> Connected ->
  fst (_handle_http_request w host port r request_data st) = Ok tt
  /\ trace (snd (_handle_http_request w host port r request_data st))
     = trace st
       ++ origin_connect host port
          :: match connecting w with
             | ConnectTimesOut =>
                 [log_error (ConnectTimeout host port); client_sendall RESPONSE_504]
             | _ => [log_error (ForwardError host port); client_sendall RESPONSE_502]
             end
       ++ [origin_close].
Proof.
  intros Hw Hc. run_served. rewrite Hw.
  destruct (connecting w); [done | |]; simpl; by rewrite <- !app_assoc.
Qed.

Lemma connect_not_connected host port r st :
  client_writable w = true ->
  connecting w <> Connected ->
  fst (_handle_connect w host port r st) = Ok tt
  /\ trace (snd (_handle_connect w host port r st))
     = trace st
       ++ origin_connect host port
          :: match connecting w with
             | ConnectTimesOut =>
                 [log_error (ConnectTimeout host port); client_sendall RESPONSE_504]
             | _ => [log_error (ConnectError host port); client_sendall RESPONSE_502]
             end
       ++ [origin_close].
Proof.
  intros Hw Hc. run_served. rewrite Hw.
  destruct (connecting w); [done | |]; simpl; by rewrite <- !app_assoc.
Qed.

End Served.

(** X27: A connection to the origin that is not made is answered: for a
    request that is let through, with a client that takes the write, the
    handler tries the origin once, logs the error, answers [504 Gateway
    Timeout] when the connection timed out and [502 Bad Gateway] when it
    failed otherwise, closes the origin socket and ends; nothing is
    logged as allowed. *)
Theorem failed_connection_is_answered
    (w : ProxyServer.world) (client_socket origin_socket : ProxyServer.socket)
    (fm : FilterManager.t) (request_data : string) (logged : bool)
    (rest : ProxyServer.socket) (r : HTTPParser.request) :
  ProxyServer._receive_request client_socket
    = ProxyServer.Returned (Some request_data) logged rest ->
  HTTPParser.parse_request request_data = Some r ->
  FilterManager.is_blocked
    (fst (FilterManager.reload_if_changed fm (ProxyServer.rules_file w)))
    (HTTPParser.host r) = false ->
  ProxyServer.client_writable w = true ->
  ProxyServer.connecting w <> ProxyServer.Connected ->
  ProxyServer.handle w client_socket origin_socket fm =
  ProxyServer.origin_connect (HTTPParser.host r) (HTTPParser.port r)
  :: match ProxyServer.connecting w with
     | ProxyServer.ConnectTimesOut =>
         [ ProxyServer.log_error
             (ProxyServer.ConnectTimeout (HTTPParser.host r) (HTTPParser.port r));
           ProxyServer.client_sendall ("HTTP/1.1 504 Gateway Timeout" +:+ CRLF +:+ CRLF) ]
     | _ =>
         [ ProxyServer.log_error
             (if String.eqb (HTTPParser.method r) "CONNECT"
              then ProxyServer.ConnectError (HTTPParser.host r) (HTTPParser.port r)
              else ProxyServer.ForwardError (HTTPParser.host r) (HTTPParser.port r));
           ProxyServer.client_sendall ("HTTP/1.1 502 Bad Gateway" +:+ CRLF +:+ CRLF) ]
     end
  ++ [ProxyServer.origin_close; ProxyServer.client_close; ProxyServer.semaphore_release].
Proof.
  intros Hrecv Hparse Hblocked Hw Hc.
  rewrite (handle_allowed _ _ _ _ _ _ _ _ Hrecv Hparse Hblocked).
  destruct (String.eqb (HTTPParser.method r) "CONNECT").
  - destruct (connect_not_connected w (HTTPParser.host r) (HTTPParser.port r) r
                {| ProxyServer.trace := []; ProxyServer.client_in := rest;
                   ProxyServer.origin_in := origin_socket;
                   ProxyServer.filter_manager :=
                     fst (FilterManager.reload_if_changed fm (ProxyServer.rules_file w)) |}
                Hw Hc) as [-> ->].
    destruct (ProxyServer.connecting w); reflexivity.
  - destruct (http_request_not_connected w (HTTPParser.host r) (HTTPParser.port r) r
                request_data
                {| ProxyServer.trace := []; ProxyServer.client_in := rest;
                   ProxyServer.origin_in := origin_socket;
                   ProxyServer.filter_manager :=
                     fst (FilterManager.reload_if_changed fm (ProxyServer.rules_file w)) |}
                Hw Hc) as [-> ->].
    destruct (ProxyServer.connecting w); reflexivity.
Qed.

Lemma failed_connection_is_answered_witness :
  let w := {| ProxyServer.client_address := ("10.0.0.7", 50123);
              ProxyServer.client_writable := true;
              ProxyServer.rules_file := Examples.rules_file 5000 ["blocked.test"];
              ProxyServer.connecting := ProxyServer.ConnectTimesOut;
              ProxyServer.selects := [] |} in
  let request_data :=
    Wire.request "CONNECT open.test:443 HTTP/1.1" ["Host: open.test:443"] "" in
  ProxyServer.handle w [ProxyServer.Data request_data] [] (Examples.filter_of [])
  = [ ProxyServer.origin_connect "open.test" 443;
      ProxyServer.log_error (ProxyServer.ConnectTimeout "open.test" 443);
      ProxyServer.client_sendall ("HTTP/1.1 504 Gateway Timeout" +:+ CRLF +:+ CRLF);
      ProxyServer.origin_close; ProxyServer.client_close;
      ProxyServer.semaphore_release ].
Proof.
  intros w request_data.
  destruct (HTTPParser.parse_request request_data) as [r |] eqn:Hparse;
    [| vm_compute in Hparse; discriminate].
  assert (ProxyServer._receive_request [ProxyServer.Data request_data]
          = ProxyServer.Returned (Some request_data) false []) as H1
    by (vm_compute; reflexivity).
  assert (HTTPParser.host r = "open.test" /\ HTTPParser.port r = 443) as [Hh Hp]
    by (vm_compute in Hparse; injection Hparse as <-; split; reflexivity).
  assert (FilterManager.is_blocked
            (fst (FilterManager.reload_if_changed (Examples.filter_of [])
                    (ProxyServer.rules_file w))) (HTTPParser.host r) = false) as H3
    by (rewrite Hh; vm_compute; reflexivity).
  assert (ProxyServer.client_writable w = true) as H4 by reflexivity.
  assert (ProxyServer.connecting w <> ProxyServer.Connected) as H5 by discriminate.
  rewrite (failed_connection_is_answered w _ [] (Examples.filter_of []) request_data
             false [] r H1 Hparse H3 H4 H5).
  rewrite Hh, Hp. reflexivity.
Defined.

Section Relay.
Import ProxyServer.
Variable w : world.
Hypothesis writable : client_writable w = true.

(** The response loop on an origin that sends its bytes and closes. *)
Lemma forward_response_streaming fuel st response_size status_code :
  Wire.streaming (origin_in st) -> (pending (origin_in st) < fuel)%nat ->
  exists pieces,
    Wire.concat pieces = Wire.received (origin_in st)
    /\ Forall (fun p => p <> EmptyString /\ (String.length p <= 4096)%nat) pieces
    /\ forward_response w fuel response_size status_code st
       = (Ok ((response_size + String.length (Wire.received (origin_in st)))%nat,
              match pieces with
              | [] => status_code
              | p :: _ => if (response_size =? 0)%nat then status_of p else status_code
              end),
          {| trace := trace st ++ map client_sendall pieces;
             client_in := client_in st; origin_in := [];
             filter_manager := filter_manager st |}).
Proof.
  revert st response_size status_code.
  induction fuel as [| fuel IH]; intros st response_size status_code Hs Hfuel; [lia |].
  assert (0 < 4096)%nat as Hn by lia.
  destruct (recv 4096 (origin_in st)) as [r sock'] eqn:Hrecv.
  pose proof (recv_progress _ _ _ _ Hn Hrecv) as Hprogress.
  destruct (recv_streaming _ _ _ _ Hn Hs Hrecv) as (chunk & -> & Hs' & Hbytes & Hclosed).
  pose proof (recv_length _ _ _ _ Hrecv) as Hlen.
  cbn [forward_response]. unfold origin_recv, client_send.
  unfold mbind, M_bind, bind, get, set_origin_in, emit, ret. rewrite Hrecv, writable.
  destruct chunk as [| c chunk].
  - destruct (Hclosed eq_refl) as [Hsock ->]. exists []. rewrite Hsock.
    split; [done |]. split; [done |]. cbn [is_empty Wire.received String.length map].
    by rewrite Nat.add_0_r, app_nil_r.
  - cbn [is_empty trace client_in origin_in filter_manager].
    set (st1 := {| trace := trace st ++ [client_sendall (String c chunk)];
                   client_in := client_in st; origin_in := sock';
                   filter_manager := filter_manager st |}).
    destruct (IH st1 (response_size + String.length (String c chunk))%nat
                (if (response_size =? 0)%nat then status_of (String c chunk)
                 else status_code) Hs')
      as (pieces & Hconcat & Hpieces & Hrun).
    { destruct Hprogress as [[_ [=]] | ?]. simpl. lia. }
    exists (String c chunk :: pieces). split; [| split].
    + cbn [Wire.concat fold_right]. fold (Wire.concat pieces).
      by rewrite Hconcat, Hbytes.
    + constructor; [split; [done | exact Hlen] | exact Hpieces].
    + rewrite Hrun. subst st1. cbn [trace client_in origin_in filter_manager].
      rewrite Hbytes, length_append, Nat.add_assoc, <- app_assoc.
      f_equal. f_equal.
      replace (response_size + String.length (String c chunk) =? 0)%nat with false
        by (symmetry; apply Nat.eqb_neq; simpl; lia).
      by destruct pieces.
Qed.

Lemma http_request_relayed host port r request_data st :
  connecting w = Connected ->
  Wire.streaming (origin_in st) ->
  exists pieces,
    Wire.concat pieces = Wire.received (origin_in st)
    /\ Forall (fun p => p <> EmptyString /\ (String.length p <= 4096)%nat) pieces
    /\ fst (_handle_http_request w host port r request_data st) = Ok tt
    /\ trace (snd (_handle_http_request w host port r request_data st))
       = trace st
         ++ [origin_connect host port; origin_sendall request_data]
         ++ map client_sendall pieces
         ++ [log_allowed (fst (client_address w)) (snd (client_address w)) host port
               (HTTPParser.request_line r)
               (match pieces with
                | [] => "000"
                | p :: _ => status_of p
                end)
               (String.length (Wire.received (origin_in st)));
             origin_close].
Proof.
  intros Hc Hs.
  set (st2 := {| trace := (trace st ++ [origin_connect host port])
                          ++ [origin_sendall request_data];
                 client_in := client_in st; origin_in := origin_in st;
                 filter_manager := filter_manager st |}).
  destruct (forward_response_streaming (S (pending (origin_in st2))) st2 O "000" Hs
              ltac:(lia)) as (pieces & Hconcat & Hpieces & Hrun).
  exists pieces. split; [exact Hconcat |]. split; [exact Hpieces |].
  unfold _handle_http_request, finally, try_except, connect.
  unfold mbind, M_bind, bind, get, emit, ret. rewrite Hc.
  cbn -[forward_response pending].
  change (forward_response w (S (pending (origin_in st))) 0 "000"
            {| trace := (trace st ++ [origin_connect host port])
                        ++ [origin_sendall request_data];
               client_in := client_in st; origin_in := origin_in st;
               filter_manager := filter_manager st |})
    with (forward_response w (S (pending (origin_in st2))) 0 "000" st2).
  rewrite Hrun. cbn. split; [done |].
  by rewrite <- !app_assoc.
Qed.

End Relay.

(** X28: An allowed request other than CONNECT is relayed: with the origin
    connected, sending its response and closing, and a client that takes
    the writes, the handler sends the request to the origin exactly as it
    was read, then sends the client the origin's bytes in order, in
    pieces of at most 4096 bytes, and logs the request as allowed with
    the status code of the first piece and the number of bytes relayed. *)
Theorem response_is_relayed_in_order
    (w : ProxyServer.world) (client_socket origin_socket : ProxyServer.socket)
    (fm : FilterManager.t) (request_data : string) (logged : bool)
    (rest : ProxyServer.socket) (r : HTTPParser.request) :
  ProxyServer._receive_request client_socket
    = ProxyServer.Returned (Some request_data) logged rest ->
  HTTPParser.parse_request request_data = Some r ->
  FilterManager.is_blocked
    (fst (FilterManager.reload_if_changed fm (ProxyServer.rules_file w)))
    (HTTPParser.host r) = false ->
  HTTPParser.method r <> "CONNECT" ->
  ProxyServer.client_writable w = true ->
  ProxyServer.connecting w = ProxyServer.Connected ->
  Wire.streaming origin_socket ->
  exists pieces,
    Wire.concat pieces = Wire.received origin_socket
    /\ Forall (fun p => p <> EmptyString /\ (String.length p <= 4096)%nat) pieces
    /\ ProxyServer.handle w client_socket origin_socket fm =
       [ ProxyServer.origin_connect (HTTPParser.host r) (HTTPParser.port r);
         ProxyServer.origin_sendall request_data ]
       ++ map ProxyServer.client_sendall pieces
       ++ [ ProxyServer.log_allowed
              (fst (ProxyServer.client_address w)) (snd (ProxyServer.client_address w))
              (HTTPParser.host r) (HTTPParser.port r) (HTTPParser.request_line r)
              (match pieces with
               | [] => "000"
               | p :: _ => ProxyServer.status_of p
               end)
              (String.length (Wire.received origin_socket));
            ProxyServer.origin_close; ProxyServer.client_close;
            ProxyServer.semaphore_release ].
Proof.
  intros Hrecv Hparse Hblocked Hmethod Hw Hc Hs.
  rewrite (handle_allowed _ _ _ _ _ _ _ _ Hrecv Hparse Hblocked).
  apply String.eqb_neq in Hmethod. rewrite Hmethod.
  destruct (http_request_relayed w Hw (HTTPParser.host r) (HTTPParser.port r) r
              request_data
              {| ProxyServer.trace := []; ProxyServer.client_in := rest;
                 ProxyServer.origin_in := origin_socket;
                 ProxyServer.filter_manager :=
                   fst (FilterManager.reload_if_changed fm (ProxyServer.rules_file w)) |}
              Hc Hs) as (pieces & Hconcat & Hpieces & -> & ->).
  exists pieces. split; [exact Hconcat |]. split; [exact Hpieces |].
  cbn [ProxyServer.trace ProxyServer.origin_in]. by rewrite <- !app_assoc.
Qed.

Lemma response_is_relayed_in_order_witness :
  let w := {| ProxyServer.client_address := ("10.0.0.7", 50123);
              ProxyServer.client_writable := true;
              ProxyServer.rules_file := Examples.rules_file 5000 ["blocked.test"];
              ProxyServer.connecting := ProxyServer.Connected;
              ProxyServer.selects := [] |} in
  let request_data := Wire.request "GET /a HTTP/1.1" ["Host: open.test"] "" in
  let origin_socket :=
    [ProxyServer.Data ("HTTP/1.1 404 Not Found" +:+ CRLF); ProxyServer.Data "gone"] in
  exists pieces,
    Wire.concat pieces = "HTTP/1.1 404 Not Found" +:+ CRLF +:+ "gone"
    /\ ProxyServer.handle w [ProxyServer.Data request_data] origin_socket
         (Examples.filter_of [])
       = [ ProxyServer.origin_connect "open.test" 80;
           ProxyServer.origin_sendall request_data ]
         ++ map ProxyServer.client_sendall pieces
         ++ [ ProxyServer.log_allowed "10.0.0.7" 50123 "open.test" 80 "GET /a HTTP/1.1"
                (match pieces with
                 | [] => "000"
                 | p :: _ => ProxyServer.status_of p
                 end) 28;
              ProxyServer.origin_close; ProxyServer.client_close;
              ProxyServer.semaphore_release ].
Proof.
  intros w request_data origin_socket.
  destruct (HTTPParser.parse_request request_data) as [r |] eqn:Hparse;
    [| vm_compute in Hparse; discriminate].
  assert (ProxyServer._receive_request [ProxyServer.Data request_data]
          = ProxyServer.Returned (Some request_data) false []) as H1
    by (vm_compute; reflexivity).
  assert (r = {| HTTPParser.method := "GET"; HTTPParser.host := "open.test";
                 HTTPParser.port := 80; HTTPParser.path := "/a";
                 HTTPParser.request_line := "GET /a HTTP/1.1";
                 HTTPParser.headers := HTTPParser.headers r;
                 HTTPParser.version := "HTTP/1.1" |}) as Hr
    by (vm_compute in Hparse; by injection Hparse as <-).
  assert (FilterManager.is_blocked
            (fst (FilterManager.reload_if_changed (Examples.filter_of [])
                    (ProxyServer.rules_file w))) (HTTPParser.host r) = false) as H3
    by (rewrite Hr; vm_compute; reflexivity).
  assert (HTTPParser.method r <> "CONNECT") as H4 by (rewrite Hr; discriminate).
  assert (Wire.streaming origin_socket) as H7
    by (subst origin_socket; repeat constructor; discriminate).
  destruct (response_is_relayed_in_order w _ origin_socket (Examples.filter_of [])
              request_data false [] r H1 Hparse H3 H4 eq_refl eq_refl H7)
    as (pieces & Hconcat & _ & Hrun).
  exists pieces. split; [exact Hconcat |].
  rewrite Hrun, Hr. reflexivity.
Defined.

Section Tunnel.
Import ProxyServer.
Variable w : world.
Hypothesis writable : client_writable w = true.

Lemma forward_ready_readable ready st :
  Forall (fun read => snd read <> EmptyString) ready ->
  forward_ready w (map (fun '(from, data) => (from, Received data)) ready) st
  = (Ok true,
     {| trace := trace st ++ map Wire.tunnelled ready; client_in := client_in st;
        origin_in := origin_in st; filter_manager := filter_manager st |}).
Proof.
  intros Hready. revert st.
  induction Hready as [| [from data] ready Hdata Hready IH]; intros st.
  - cbn. rewrite app_nil_r. by destruct st.
  - cbn [map forward_ready]. simpl in Hdata. apply is_empty_false in Hdata.
    rewrite Hdata. unfold client_send. rewrite writable.
    unfold mbind, M_bind, bind, emit.
    destruct from; cbn [fst snd]; rewrite IH; cbn; by rewrite <- app_assoc.
Qed.

Lemma tunnel_ends rounds st :
  Wire.ends_tunnel rounds -> _tunnel_connection w rounds st = (Ok tt, st).
Proof.
  destruct rounds as [| [| | [| [from [data | |]] ready]] rounds]; try done.
  simpl. intros ->. reflexivity.
Qed.

(** The tunnel over rounds in which some socket is ready and every ready
    socket has data, up to a round that ends it. *)
Lemma tunnel_readable reads after st :
  Forall (fun ready => ready <> [] /\ Forall (fun read => snd read <> EmptyString) ready)
    reads ->
  Wire.ends_tunnel after ->
  _tunnel_connection w (map Wire.readable reads ++ after) st
  = (Ok tt,
     {| trace := trace st ++ map Wire.tunnelled (List.concat reads);
        client_in := client_in st; origin_in := origin_in st;
        filter_manager := filter_manager st |}).
Proof.
  intros Hreads Hafter. revert st.
  induction Hreads as [| ready reads [Hsome Hready] Hreads IH]; intros st.
  - cbn [map app List.concat]. rewrite (tunnel_ends _ _ Hafter), app_nil_r.
    by destruct st.
  - destruct ready as [| read ready]; [done |].
    pose proof (forward_ready_readable (read :: ready) st Hready) as Hround.
    cbn [map app List.concat]. unfold Wire.readable at 1.
    cbn [map] in Hround |- *. rewrite tunnel_round.
    unfold try_except, mbind, M_bind, bind.
    rewrite Hround, IH.
    cbn. by rewrite map_app, <- app_assoc.
Qed.

Lemma connect_tunnelled host port r reads after st :
  connecting w = Connected ->
  selects w = map Wire.readable reads ++ after ->
  Forall (fun ready => ready <> [] /\ Forall (fun read => snd read <> EmptyString) ready)
    reads ->
  Wire.ends_tunnel after ->
  fst (_handle_connect w host port r st) = Ok tt
  /\ trace (snd (_handle_connect w host port r st))
     = trace st
       ++ [origin_connect host port; client_sendall RESPONSE_200;
           log_allowed (fst (client_address w)) (snd (client_address w)) host port
             (HTTPParser.request_line r) "200" O]
       ++ map Wire.tunnelled (List.concat reads)
       ++ [origin_close].
Proof.
  intros Hc Hselects Hreads Hafter.
  unfold _handle_connect, finally, try_except, connect, client_send.
  unfold mbind, M_bind, bind, get, emit, ret. rewrite Hc, writable, Hselects.
  cbn -[_tunnel_connection].
  rewrite (tunnel_readable _ _ _ Hreads Hafter). cbn. split; [done |].
  by rewrite <- !app_assoc.
Qed.

End Tunnel.

(** X29: An allowed CONNECT is answered and tunnelled: once the origin is
    connected the client is sent [200 Connection Established], the
    request is logged as allowed with status 200 and size 0, and then,
    over rounds of [select] in each of which at least one socket is
    ready and every ready socket has data, every piece of data is passed
    to the other side, in the order the rounds give them, until a round
    ends the tunnel: an exceptional socket, no socket ready, or a first
    read that finds the peer closed; the origin socket is closed at the
    end. *)
Theorem tunnel_forwards_in_order
    (w : ProxyServer.world) (client_socket origin_socket : ProxyServer.socket)
    (fm : FilterManager.t) (request_data : string) (logged : bool)
    (rest : ProxyServer.socket) (r : HTTPParser.request)
    (reads : list (list (ProxyServer.side * string)))
    (after : list ProxyServer.select_result) :
  ProxyServer._receive_request client_socket
    = ProxyServer.Returned (Some request_data) logged rest ->
  HTTPParser.parse_request request_data = Some r ->
  FilterManager.is_blocked
    (fst (FilterManager.reload_if_changed fm (ProxyServer.rules_file w)))
    (HTTPParser.host r) = false ->
  HTTPParser.method r = "CONNECT" ->
  ProxyServer.client_writable w = true ->
  ProxyServer.connecting w = ProxyServer.Connected ->
  ProxyServer.selects w = map Wire.readable reads ++ after ->
  Forall (fun ready => ready <> []
                       /\ Forall (fun read => snd read <> EmptyString) ready) reads ->
  Wire.ends_tunnel after ->
  ProxyServer.handle w client_socket origin_socket fm =
  [ ProxyServer.origin_connect (HTTPParser.host r) (HTTPParser.port r);
    ProxyServer.client_sendall ("HTTP/1.1 200 Connection Established" +:+ CRLF +:+ CRLF);
    ProxyServer.log_allowed
      (fst (ProxyServer.client_address w)) (snd (ProxyServer.client_address w))
      (HTTPParser.host r) (HTTPParser.port r) (HTTPParser.request_line r) "200" O ]
  ++ map Wire.tunnelled (List.concat reads)
  ++ [ProxyServer.origin_close; ProxyServer.client_close; ProxyServer.semaphore_release].
Proof.
  intros Hrecv Hparse Hblocked Hmethod Hw Hc Hselects Hreads Hafter.
  rewrite (handle_allowed _ _ _ _ _ _ _ _ Hrecv Hparse Hblocked).
  rewrite Hmethod. cbn [String.eqb Ascii.eqb Bool.eqb].
  change (("CONNECT" =? "CONNECT")%string) with true. cbv iota.
  destruct (connect_tunnelled w Hw (HTTPParser.host r) (HTTPParser.port r) r reads after
              {| ProxyServer.trace := []; ProxyServer.client_in := rest;
                 ProxyServer.origin_in := origin_socket;
                 ProxyServer.filter_manager :=
                   fst (FilterManager.reload_if_changed fm (ProxyServer.rules_file w)) |}
              Hc Hselects Hreads Hafter) as [-> ->].
  cbn [ProxyServer.trace]. by rewrite <- !app_assoc.
Qed.

Lemma tunnel_forwards_in_order_witness :
  let reads := [[(ProxyServer.client_side, "hello")];
                [(ProxyServer.origin_side, "welcome"); (ProxyServer.client_side, "more")]] in
  let after := [ProxyServer.Readable [(ProxyServer.client_side, ProxyServer.Received "");
                                      (ProxyServer.origin_side, ProxyServer.Received "lost")]] in
  let w := {| ProxyServer.client_address := ("10.0.0.7", 50123);
              ProxyServer.client_writable := true;
              ProxyServer.rules_file := Examples.rules_file 5000 ["blocked.test"];
              ProxyServer.connecting := ProxyServer.Connected;
              ProxyServer.selects := map Wire.readable reads ++ after |} in
  let request_data :=
    Wire.request "CONNECT open.test:443 HTTP/1.1" ["Host: open.test:443"] "" in
  ProxyServer.handle w [ProxyServer.Data request_data] [] (Examples.filter_of [])
  = [ ProxyServer.origin_connect "open.test" 443;
      ProxyServer.client_sendall ("HTTP/1.1 200 Connection Established" +:+ CRLF +:+ CRLF);
      ProxyServer.log_allowed "10.0.0.7" 50123 "open.test" 443
        "CONNECT open.test:443 HTTP/1.1" "200" O;
      ProxyServer.origin_sendall "hello";
      ProxyServer.client_sendall "welcome";
      ProxyServer.origin_sendall "more";
      ProxyServer.origin_close; ProxyServer.client_close;
      ProxyServer.semaphore_release ].
Proof.
  intros reads after w request_data.
  destruct (HTTPParser.parse_request request_data) as [r |] eqn:Hparse;
    [| vm_compute in Hparse; discriminate].
  assert (ProxyServer._receive_request [ProxyServer.Data request_data]
          = ProxyServer.Returned (Some request_data) false []) as H1
    by (vm_compute; reflexivity).
  assert (r = {| HTTPParser.method := "CONNECT"; HTTPParser.host := "open.test";
                 HTTPParser.port := 443; HTTPParser.path := "open.test:443";
                 HTTPParser.request_line := "CONNECT open.test:443 HTTP/1.1";
                 HTTPParser.headers := HTTPParser.headers r;
                 HTTPParser.version := "HTTP/1.1" |}) as Hr
    by (vm_compute in Hparse; by injection Hparse as <-).
  assert (FilterManager.is_blocked
            (fst (FilterManager.reload_if_changed (Examples.filter_of [])
                    (ProxyServer.rules_file w))) (HTTPParser.host r) = false) as H3
    by (rewrite Hr; vm_compute; reflexivity).
  assert (HTTPParser.method r = "CONNECT") as H4 by (by rewrite Hr).
  assert (Forall (fun ready : list (ProxyServer.side * string) =>
                    ready <> []
                    /\ Forall (fun read => snd read <> EmptyString) ready) reads) as H8
    by (subst reads; repeat constructor; discriminate).
  assert (Wire.ends_tunnel after) as H9 by reflexivity.
  rewrite (tunnel_forwards_in_order w _ [] (Examples.filter_of []) request_data false []
             r reads after H1 Hparse H3 H4 eq_refl eq_refl eq_refl H8 H9).
  rewrite Hr. reflexivity.
Defined.

(** ** [src/proxy_server.py]: the accept loop *)

Lemma do_step_permits (s : Server.t) (x : Server.step) :
  (Server.semaphore (Server.do_step s x) + Server.handlers (Server.do_step s x)
   = Server.semaphore s + Server.handlers s)%nat.
Proof.
  destruct x as [signalled outcome | |]; simpl.
  - unfold Server.pass. destruct (Server.running s); [| done].
    destruct outcome as [client | |].
    + unfold Server.start_or_close.
      destruct signalled; simpl; destruct (Server.semaphore s) eqn:Hsem; simpl;
        rewrite ?Hsem; lia.
    + by destruct signalled.
    + destruct signalled; simpl; [done |]. by destruct (Server.running s).
  - unfold Server.handler_ends.
    destruct (Server.handlers s) eqn:Hh; simpl; rewrite ?Hh; lia.
  - done.
Qed.

(** X30: The pool is never exceeded: at every point of every run the permits
    left and the handlers that have not released add up to
    [thread_pool_size], so at most that many handlers run at once; and a
    connection accepted while the server runs gets a handler thread
    exactly when fewer than [thread_pool_size] handlers are running, and
    is closed with a warning otherwise. *)
Theorem pool_is_never_exceeded (thread_pool_size : nat) (steps : list Server.step) :
  let s := Server.run thread_pool_size steps in
  (Server.semaphore s + Server.handlers s = thread_pool_size)%nat
  /\ (Server.handlers s <= thread_pool_size)%nat
  /\ forall client signalled,
       Server.running s = true ->
       let s' := Server.do_step s (Server.Pass signalled (Server.Accepted client)) in
       if (Server.handlers s <? thread_pool_size)%nat
       then Server.handlers s' = S (Server.handlers s)
            /\ Server.thread_pool s' = Server.thread_pool s ++ [client]
            /\ Server.events s'
               = Server.events s
                 ++ (if signalled then [Server.log_shutdown_signal] else [])
                 ++ [Server.log_new_connection client; Server.thread_started client]
       else Server.handlers s' = Server.handlers s
            /\ Server.thread_pool s' = Server.thread_pool s
            /\ Server.events s'
               = Server.events s
                 ++ (if signalled then [Server.log_shutdown_signal] else [])
                 ++ [Server.log_new_connection client; Server.client_closed client;
                     Server.log_pool_full].
Proof.
  intros s.
  assert (Server.semaphore s + Server.handlers s = thread_pool_size)%nat as Hinv.
  { subst s. unfold Server.run.
    assert (forall s0, Server.semaphore (fold_left Server.do_step steps s0)
                       + Server.handlers (fold_left Server.do_step steps s0)
                       = Server.semaphore s0 + Server.handlers s0)%nat as H.
    { induction steps as [| x steps IH]; intros s0; [done |].
      simpl. rewrite IH. apply do_step_permits. }
    rewrite H. simpl. lia. }
  split; [exact Hinv |]. split; [lia |].
  intros client signalled Hrun. simpl. unfold Server.pass, Server.start_or_close. rewrite Hrun.
  destruct (Server.handlers s <? thread_pool_size)%nat eqn:Hroom.
  - apply Nat.ltb_lt in Hroom.
    destruct (Server.semaphore s) as [| permits] eqn:Hsem; [lia |].
    destruct signalled; simpl; rewrite Hsem; simpl; by rewrite <- !app_assoc.
  - apply Nat.ltb_ge in Hroom.
    destruct (Server.semaphore s) as [| permits] eqn:Hsem; [| lia].
    destruct signalled; simpl; rewrite Hsem; simpl; by rewrite <- !app_assoc.
Qed.

Lemma pool_is_never_exceeded_witness :
  let a := ("10.0.0.1", 40001) in
  let b := ("10.0.0.2", 40002) in
  let c := ("10.0.0.3", 40003) in
  let s := Server.run 1 [Server.Pass false (Server.Accepted a);
                         Server.Pass false (Server.Accepted b);
                         Server.HandlerEnds;
                         Server.Pass false (Server.Accepted c)] in
  Server.running s = true
  /\ Server.thread_pool s = [a; c]
  /\ Server.events (Server.do_step s (Server.Pass false (Server.Accepted b)))
     = Server.events s
       ++ [Server.log_new_connection b; Server.client_closed b; Server.log_pool_full].
Proof.
  intros a b c s.
  assert (Server.running s = true) as Hrun by reflexivity.
  split; [exact Hrun |]. split; [reflexivity |].
  destruct (pool_is_never_exceeded 1 [Server.Pass false (Server.Accepted a);
                                      Server.Pass false (Server.Accepted b);
                                      Server.HandlerEnds;
                                      Server.Pass false (Server.Accepted c)])
    as (_ & _ & H).
  exact (proj2 (proj2 (H b false Hrun))).
Defined.
